(** * beethovision: the frame-synchronised annotation pipeline

    A shallow embedding of the three scripts of [beethovision/fo_utils]
    ([import_dataset.py], [run_mediapipe.py], [custom_export.py]) and the
    properties of them that the specification states.

    Modelling conventions.
    - Python [int] is [Z].
    - Python [float] is IEEE binary64 wherever a script computes with it
      ([Binary64], over the Standard Library's [SpecFloat]): every
      division, product and difference is rounded.  The numbers that the
      scripts only pass on (confidences, landmark coordinates) are the
      rationals they stand for.
    - True division raises [ZeroDivisionError] on a zero divisor.
    - Python [str] is a list of 8-bit characters; [\d] is the ASCII digits.
    - Exceptions are values of [Py.exn]; fallible code returns [Py.result].
    - A FiftyOne document (a sample, a frame) is a finite map from field
      names to the values set on it; the dataset has a schema of declared
      fields, and reading a field that a document has no value of gives
      [None] when the schema declares the field and raises otherwise.  The
      frames of a sample are an association list in increasing frame
      number, the order in which [sample.frames.items()] yields them. *)

From Stdlib Require Import ZArith QArith Qround Qabs Ascii String List Lia.
From Stdlib Require Import Sorting.Sorted SpecFloat.
From stdpp Require Import gmap strings list sorting.

Set Default Proof Using "Type".
Local Open Scope Z_scope.

(* ===================================================================== *)
(** ** Python values, exceptions, arithmetic *)
(* ===================================================================== *)

Module Py.

Inductive exn : Type :=
| ZeroDivisionError
| OverflowError
| ValueError
| AssertionError
| AttributeError
| KeyError.

Inductive result (A : Type) : Type :=
| Ok (a : A)
| Raise (e : exn).
Arguments Ok {A} a.
Arguments Raise {A} e.

Definition bind {A B} (m : result A) (f : A → result B) : result B :=
  match m with
  | Ok a => f a
  | Raise e => Raise e
  end.

Definition is_ok {A} (m : result A) : bool :=
  match m with Ok _ => true | Raise _ => false end.

(** [int(x)] for a number of value [x]: truncation toward zero. *)
Definition int (x : Q) : Z := Z.quot (Qnum x) (Z.pos (Qden x)).

(** [round(x)] for a number of value [x]: the nearest integer, ties to the
    even one.  The scripts never call it; the specification does. *)
Definition round (x : Q) : Z :=
  let f := Qfloor x in
  let d := (x - inject_Z f)%Q in
  match (d ?= 1 # 2)%Q with
  | Lt => f
  | Gt => f + 1
  | Eq => if Z.even f then f else f + 1
  end.

Definition is_digit (c : ascii) : bool :=
  let n := nat_of_ascii c in ((48 <=? n) && (n <=? 57))%nat.

Definition digit_value (c : ascii) : Z := Z.of_nat (nat_of_ascii c) - 48.

(** [int(s)] on a string of decimal digits. *)
Definition int_of_digits (s : list ascii) : Z :=
  fold_left (λ acc c, 10 * acc + digit_value c) s 0.

End Py.

#[export] Instance result_bind : MBind Py.result := λ A B f m, Py.bind m f.

(* ===================================================================== *)
(** ** Python floats: IEEE binary64 *)
(* ===================================================================== *)

(** The operations on [float] that the scripts use, with the rounding of
    every step ([SpecFloat] is the Standard Library's executable
    specification of IEEE 754 arithmetic). *)
Module Binary64.
Import Py.

Definition prec : Z := 53.
Definition emax : Z := 1024.

(** The float nearest to the integer [z]. *)
Definition of_int (z : Z) : spec_float := binary_normalize prec emax z 0 false.

(** [float(z)], as an [int] operand of a float operation is converted. *)
Definition float_of_int (z : Z) : result spec_float :=
  match of_int z with
  | S754_infinity _ => Raise OverflowError
  | x => Ok x
  end.

Definition is_zero (x : spec_float) : bool :=
  match x with S754_zero _ => true | _ => false end.

(** [a / b] *)
Definition truediv (a b : spec_float) : result spec_float :=
  if is_zero b then Raise ZeroDivisionError else Ok (SFdiv prec emax a b).

(** A number as [json.load] returns it: an [int] or a [float]. *)
Inductive number : Type :=
| Int (z : Z)
| Float (x : spec_float).

(** An integer as a mantissa at exponent 0, of whatever length. *)
Definition of_Z (z : Z) : spec_float :=
  match z with
  | Z0 => S754_zero false
  | Z.pos p => S754_finite false p 0
  | Z.neg p => S754_finite true p 0
  end.

(** [a / b] on two [int]s: the float nearest to the quotient; a quotient
    beyond the floats raises. *)
Definition int_truediv (a b : Z) : result spec_float :=
  if b =? 0 then Raise ZeroDivisionError
  else match SFdiv prec emax (of_Z a) (of_Z b) with
       | S754_infinity _ => Raise OverflowError
       | q => Ok q
       end.

(** [a / b] for a number [a] and an [int] [b]: the division of [int]s, or
    the division of floats once [b] is converted. *)
Definition truediv_int (a : number) (b : Z) : result spec_float :=
  match a with
  | Int z => int_truediv z b
  | Float x => y ← float_of_int b; truediv x y
  end.

(** [a * b] and [a - b] *)
Definition mul : spec_float → spec_float → spec_float := SFmul prec emax.
Definition sub : spec_float → spec_float → spec_float := SFsub prec emax.

(** The rational a finite float stands for. *)
Definition to_Q (x : spec_float) : option Q :=
  match x with
  | S754_zero _ => Some 0%Q
  | S754_finite s m e =>
      let a := if 0 <=? e then (Z.pos m * 2 ^ e) # 1
               else Z.pos m # Z.to_pos (2 ^ (- e)) in
      Some (if s then (- a)%Q else a)
  | _ => None
  end.

(** [int(x)]: the integer part; an infinity and a NaN have none. *)
Definition int (x : spec_float) : result Z :=
  match x with
  | S754_zero _ => Ok 0
  | S754_finite s m e =>
      let a := if 0 <=? e then Z.pos m * 2 ^ e else Z.pos m / 2 ^ (- e) in
      Ok (if s then - a else a)
  | S754_infinity _ => Raise OverflowError
  | S754_nan => Raise ValueError
  end.

(** [round(x)], which the specification uses and the scripts do not. *)
Definition round (x : spec_float) : result Z :=
  match x with
  | S754_infinity _ => Raise OverflowError
  | S754_nan => Raise ValueError
  | _ => match to_Q x with
         | Some q => Ok (Py.round q)
         | None => Raise ValueError
         end
  end.

End Binary64.

(* ===================================================================== *)
(** ** The fragment of Python's [re] that the patterns use *)
(* ===================================================================== *)

Module Re.

(** Character classes, sequencing, bounded and greedy repetition, and
    capturing groups (numbered in the order they close, which for the
    patterns below is the order they open). *)
Inductive regex : Type :=
| Cls (p : ascii → bool)
| Cat (r1 r2 : regex)
| Rep (n : nat) (r : regex)
| Star (r : regex)
| Group (r : regex).

Definition Chr (c : ascii) : regex := Cls (Ascii.eqb c).
Definition Digit : regex := Cls Py.is_digit.
Definition not_newline (c : ascii) : bool := negb (Ascii.eqb c "010"%char).
Definition Dot : regex := Cls not_newline.
Definition Plus (r : regex) : regex := Cat r (Star r).
Fixpoint Lit (s : list ascii) (r : regex) : regex :=
  match s with
  | [] => r
  | c :: s' => Cat (Chr c) (Lit s' r)
  end.

Definition captures := list (list ascii).

Section Matcher.
Context {A : Type}.
Definition cont : Type := list ascii → captures → option A.

(** One greedy loop: take the body while it makes progress, and only
    when everything after the longer match fails fall back to the
    continuation at the current position. *)
Fixpoint star_loop (body : list ascii → captures → cont → option A)
    (k : cont) (fuel : nat) (s : list ascii) (c : captures) : option A :=
  match fuel with
  | O => k s c
  | S fuel' =>
      match body s c (λ s' c',
               if (length s' <? length s)%nat
               then star_loop body k fuel' s' c' else None) with
      | Some v => Some v
      | None => k s c
      end
  end.

Fixpoint rep_loop (body : list ascii → captures → cont → option A)
    (k : cont) (n : nat) (s : list ascii) (c : captures) : option A :=
  match n with
  | O => k s c
  | S n' => body s c (rep_loop body k n')
  end.

(** Backtracking matcher in continuation-passing style: [rmatch r s c k]
    matches [r] at the head of [s] and hands the rest of the input and
    the groups captured so far to [k]. *)
Fixpoint rmatch (r : regex) (s : list ascii) (c : captures) (k : cont)
    : option A :=
  match r with
  | Cls p =>
      match s with
      | x :: s' => if p x then k s' c else None
      | [] => None
      end
  | Cat r1 r2 => rmatch r1 s c (λ s' c', rmatch r2 s' c' k)
  | Rep n r' => rep_loop (rmatch r') k n s c
  | Star r' => star_loop (rmatch r') k (length s) s c
  | Group r' =>
      rmatch r' s c
        (λ s' c', k s' (c' ++ [take (length s - length s') s]))
  end.
End Matcher.

(** [re.match]: the groups of a match anchored at the head of [s]. *)
Definition match_here (r : regex) (s : list ascii) : option captures :=
  rmatch r s [] (λ _ c, Some c).

(** [re.search]: the leftmost position at which the pattern matches. *)
Fixpoint search (r : regex) (s : list ascii) : option captures :=
  match match_here r s with
  | Some c => Some c
  | None =>
      match s with
      | [] => None
      | _ :: s' => search r s'
      end
  end.

(** The words a pattern matches, declaratively: [matches r w c c'] when [r]
    matches exactly [w], turning the groups [c] captured before it into
    [c'].  An iteration of a star consumes at least one character. *)
Inductive matches : regex → list ascii → captures → captures → Prop :=
| matches_cls p x c :
    p x = true → matches (Cls p) [x] c c
| matches_cat r1 r2 w1 w2 c c1 c2 :
    matches r1 w1 c c1 → matches r2 w2 c1 c2 →
    matches (Cat r1 r2) (w1 ++ w2) c c2
| matches_rep_O r c :
    matches (Rep O r) [] c c
| matches_rep_S n r w1 w2 c c1 c2 :
    matches r w1 c c1 → matches (Rep n r) w2 c1 c2 →
    matches (Rep (S n) r) (w1 ++ w2) c c2
| matches_star_nil r c :
    matches (Star r) [] c c
| matches_star_cons r w1 w2 c c1 c2 :
    matches r w1 c c1 → w1 ≠ [] → matches (Star r) w2 c1 c2 →
    matches (Star r) (w1 ++ w2) c c2
| matches_group r w c c1 :
    matches r w c c1 → matches (Group r) w c (c1 ++ [w]).

(** What a successful run of a matcher [m] for [r] tells: it consumed a
    word of [r] and its continuation succeeded on the rest. *)
Definition sound_for {A} (r : regex)
    (m : list ascii → captures → @cont A → option A) : Prop :=
  ∀ s c k v,
    m s c k = Some v →
    ∃ w s' c', s = w ++ s' ∧ matches r w c c' ∧ k s' c' = Some v.

End Re.

(* ===================================================================== *)
(** ** [pathlib] and [datetime], as far as the scripts use them *)
(* ===================================================================== *)

Module Pathlib.

Definition chars (s : string) : list ascii := list_ascii_of_string s.
Definition str (s : list ascii) : string := string_of_list_ascii s.

Fixpoint split_slash (s : list ascii) : list (list ascii) :=
  match s with
  | [] => [[]]
  | c :: s' =>
      if Ascii.eqb c "/" then [] :: split_slash s'
      else match split_slash s' with
           | p :: ps => (c :: p) :: ps
           | [] => [[c]]
           end
  end.

(** [Path(s).name]: the last component, empty and [.] components dropped. *)
Definition name (s : list ascii) : list ascii :=
  let parts :=
    filter (λ p, p ≠ [] ∧ p ≠ ["."%char]) (split_slash s) in
  List.last parts [].

Fixpoint rfind (c : ascii) (s : list ascii) : option nat :=
  match s with
  | [] => None
  | x :: s' =>
      match rfind c s' with
      | Some i => Some (S i)
      | None => if Ascii.eqb x c then Some O else None
      end
  end.

(** [Path(s).stem]: the name without its last suffix. *)
Definition stem (s : list ascii) : list ascii :=
  let nm := name s in
  match rfind "." nm with
  | Some i => if ((0 <? i) && (i <? length nm - 1))%nat then take i nm else nm
  | None => nm
  end.

End Pathlib.

Module Datetime.
Import Py.

Record date : Type := { year : Z; month : Z; day : Z }.

Definition is_leap (y : Z) : bool :=
  (y mod 4 =? 0) && (negb (y mod 100 =? 0) || (y mod 400 =? 0)).

Definition days_before_year (yr : Z) : Z :=
  let y := yr - 1 in y * 365 + y / 4 - y / 100 + y / 400.

Definition DAYS_IN_MONTH : list Z :=
  [31; 28; 31; 30; 31; 30; 31; 31; 30; 31; 30; 31].

Definition DAYS_BEFORE_MONTH : list Z :=
  [0; 31; 59; 90; 120; 151; 181; 212; 243; 273; 304; 334].

Definition days_in_month (y m : Z) : Z :=
  if (m =? 2) && is_leap y then 29
  else nth (Z.to_nat (m - 1)) DAYS_IN_MONTH 0.

Definition days_before_month (y m : Z) : Z :=
  nth (Z.to_nat (m - 1)) DAYS_BEFORE_MONTH 0
  + (if (2 <? m) && is_leap y then 1 else 0).

Definition ymd2ord (y m d : Z) : Z :=
  days_before_year y + days_before_month y m + d.

(** [date.toordinal()]: days since 0001-01-01, which is day 1. *)
Definition toordinal (d : date) : Z := ymd2ord (year d) (month d) (day d).

Definition valid (d : date) : bool :=
  (1 <=? year d) && (year d <=? 9999)
  && (1 <=? month d) && (month d <=? 12)
  && (1 <=? day d) && (day d <=? days_in_month (year d) (month d)).

Definition all_digits (s : list ascii) : bool := forallb is_digit s.

(** [datetime.strptime(s, "%Y-%m-%d")] on the strings that group 1 of the
    patterns can hold, four digits, two digits and two digits separated
    by dashes: the fields are read as decimal numbers and the date must
    exist.  (The real [strptime] also accepts one-digit months and days;
    those never reach it from the patterns, and raise here.) *)
Definition strptime_Ymd (s : list ascii) : result date :=
  match s with
  | [y1; y2; y3; y4; s1; m1; m2; s2; d1; d2] =>
      if all_digits [y1; y2; y3; y4; m1; m2; d1; d2]
         && Ascii.eqb s1 "-" && Ascii.eqb s2 "-"
      then
        let d := {| year := int_of_digits [y1; y2; y3; y4];
                    month := int_of_digits [m1; m2];
                    day := int_of_digits [d1; d2] |} in
        if valid d then Ok d else Raise ValueError
      else Raise ValueError
  | _ => Raise ValueError
  end.

(** Chronological order on dates. *)
Definition date_lt (a b : date) : Prop :=
  year a < year b
  ∨ (year a = year b
     ∧ (month a < month b ∨ (month a = month b ∧ day a < day b))).

End Datetime.

(* ===================================================================== *)
(** ** The FiftyOne data model the scripts read and write *)
(* ===================================================================== *)

Module Fo.

Record Detection : Type := {
  det_label : string;
  bounding_box : list spec_float;
  det_confidence : Q;
  det_cls : Z
}.

Record Keypoint : Type := {
  kp_label : string;
  kp_points : list (Q * Q)
}.

(** The label types stored in frame fields. *)
Inductive label : Type :=
| Detections (detections : list Detection)
| Keypoints (keypoints : list Keypoint).

(** A frame document: the fields that have been set on it. *)
Definition Frame : Type := gmap string label.

(** [sample.frames]: frame documents keyed by 1-based frame number, held
    in increasing key order. *)
Definition Frames : Type := list (Z * Frame).

Definition frame_numbers (fs : Frames) : list Z := map fst fs.

Fixpoint frames_lookup (n : Z) (fs : Frames) : option Frame :=
  match fs with
  | [] => None
  | (m, fr) :: rest => if n =? m then Some fr else frames_lookup n rest
  end.

(** [sample.frames[n][field] = v]: the frame document is created when the
    sample has none with that number. *)
Fixpoint frames_setfield (n : Z) (field : string) (v : label) (fs : Frames)
    : Frames :=
  match fs with
  | [] => [(n, {[ field := v ]})]
  | (m, fr) :: rest =>
      if n <? m then (n, {[ field := v ]}) :: fs
      else if n =? m then (m, <[ field := v ]> fr) :: rest
      else (m, fr) :: frames_setfield n field v rest
  end.

Record VideoMetadata : Type := {
  frame_width : Z;
  frame_height : Z;
  total_frame_count : Z
}.

Record Sample : Type := {
  filepath : string;
  metadata : VideoMetadata;
  fields : gmap string string;
  frames : Frames
}.

Definition set_field (name value : string) (s : Sample) : Sample :=
  {| filepath := filepath s; metadata := metadata s;
     fields := <[ name := value ]> (fields s); frames := frames s |}.

Definition set_frames (fs : Frames) (s : Sample) : Sample :=
  {| filepath := filepath s; metadata := metadata s;
     fields := fields s; frames := fs |}.

(** What a pass over one sample leaves behind: the sample as saved, or an
    exception together with the sample as it stands in memory, unsaved. *)
Inductive outcome : Type :=
| Saved (s : Sample)
| Raised (e : Py.exn) (in_memory : Sample).

(** The schema of a dataset.  FiftyOne keeps the sample fields and the
    frame fields that a dataset declares; the first value assigned to a
    new field declares it.  So a schema holds every field of which some
    document of the dataset has a value, and besides them the fields
    [declared] without one. *)
Definition sample_schema (declared : gset string) (dataset : list Sample)
    : gset string :=
  declared ∪ ⋃ (map (λ s, dom (fields s)) dataset).

Definition frame_fields (s : Sample) : gset string :=
  ⋃ (map (λ item, dom (snd item)) (frames s)).

Definition frame_schema (declared : gset string) (dataset : list Sample)
    : gset string :=
  declared ∪ ⋃ (map frame_fields dataset).

(** Reading the field [name] of a document of the dataset: the value set
    on the document; [None] when it has no value and the schema declares
    the field; otherwise the exception [missing], which is [AttributeError]
    for [doc.name] and [KeyError] for [doc[name]]. *)
Definition get_field {V : Type} (schema : gset string) (missing : Py.exn)
    (name : string) (doc : gmap string V) : Py.result (option V) :=
  match doc !! name with
  | Some v => Py.Ok (Some v)
  | None =>
      if decide (name ∈ schema) then Py.Ok None else Py.Raise missing
  end.

End Fo.

(* ===================================================================== *)
(** ** import_dataset.py *)
(* ===================================================================== *)

Module ImportDataset.
Import Py Re Pathlib Datetime Fo.

(** [\d{4}-\d{2}-\d{2}] *)
Definition date_pattern : regex :=
  Cat (Rep 4 Digit) (Cat (Chr "-") (Cat (Rep 2 Digit)
    (Cat (Chr "-") (Rep 2 Digit)))).

(** A non-empty string of digits. *)
Definition digits (s : list ascii) : Prop :=
  s ≠ [] ∧ forallb is_digit s = true.

(** Four digits, two digits and two digits, joined by dashes. *)
Definition date_shaped (s : list ascii) : Prop :=
  ∃ y m d,
    s = y ++ "-"%char :: m ++ "-"%char :: d
    ∧ length y = 4%nat ∧ length m = 2%nat ∧ length d = 2%nat
    ∧ forallb is_digit (y ++ m ++ d) = true.

(** [YYYY-MM-DD_a<N>]: a date-shaped string, [_a] and digits. *)
Definition session_shaped (s : list ascii) : Prop :=
  ∃ D N, s = D ++ chars "_a" ++ N ∧ date_shaped D ∧ digits N.

(** [YYYY-MM-DD_a<N>_..._split<M>], assembled from its parts. *)
Definition sort_stem (D N mid M : list ascii) : list ascii :=
  D ++ chars "_a" ++ N ++ chars "_" ++ mid ++ chars "_split" ++ M.

(** No digit stands at the head of [s]. *)
Definition no_leading_digit (s : list ascii) : Prop :=
  match s with
  | [] => True
  | x :: _ => is_digit x = false
  end.

(** The structure the sort pattern looks for stands somewhere in [s]. *)
Definition has_sort_structure (s : list ascii) : Prop :=
  ∃ pre D N mid M post,
    s = pre ++ sort_stem D N mid M ++ post
    ∧ date_shaped D ∧ digits N ∧ digits M
    ∧ forallb not_newline mid = true.

(** [(\d{4}-\d{2}-\d{2})_a(\d+)_.*_split(\d+)] *)
Definition sort_pattern : regex :=
  Cat (Group date_pattern)
    (Lit (chars "_a")
      (Cat (Group (Plus Digit))
        (Cat (Chr "_")
          (Cat (Star Dot)
            (Lit (chars "_split") (Group (Plus Digit))))))).

(** The sort key of [create_dataset]. *)
Definition sort_key (s : string) : result (Z * Z * Z) :=
  match search sort_pattern (stem (chars s)) with
  | Some [date_str; n_str; s_str] =>
      date ← strptime_Ymd date_str;
      Ok (toordinal date, int_of_digits n_str, int_of_digits s_str)
  | _ => Raise ValueError
  end.

(** Python's order on the key tuples. *)
Definition key_lt (a b : Z * Z * Z) : Prop :=
  let '(a1, a2, a3) := a in
  let '(b1, b2, b3) := b in
  a1 < b1 ∨ (a1 = b1 ∧ (a2 < b2 ∨ (a2 = b2 ∧ a3 < b3))).

(** [(\d{4}-\d{2}-\d{2}_a\d+)] *)
Definition session_pattern : regex :=
  Group (Cat date_pattern (Lit (chars "_a") (Plus Digit))).

(** The body of the loop of [add_session_field]. *)
Definition add_session_field_sample (field_name : string) (sample : Sample)
    : result Sample :=
  match search session_pattern (chars (filepath sample)) with
  | Some [session] => Ok (set_field field_name (str session) sample)
  | _ => Raise ValueError
  end.

(** [dataset.iter_samples(autosave=True)]: the samples before the first
    failure are saved, the failure ends the pass. *)
Fixpoint iter_samples (body : Sample → result Sample) (dataset : list Sample)
    : list Sample * option exn :=
  match dataset with
  | [] => ([], None)
  | sample :: rest =>
      match body sample with
      | Ok sample' =>
          let '(rest', e) := iter_samples body rest in (sample' :: rest', e)
      | Raise e => (dataset, Some e)
      end
  end.

Definition add_session_field (dataset : list Sample) (field_name : string)
    : list Sample * option exn :=
  iter_samples (add_session_field_sample field_name) dataset.

(** The bounding-box file: one entry per session, each a list of boxes
    given by two opposite corners in pixels. *)
Record Corners : Type := {
  x1 : Binary64.number; y1 : Binary64.number;
  x2 : Binary64.number; y2 : Binary64.number
}.

Record Pred : Type := {
  pred_box : Corners;
  pred_name : string;
  pred_class : Z;
  pred_confidence : Q
}.

Record Entry : Type := { session_id : string; entry_box : list Pred }.

(** [[e["box"] for e in keyboard_preds if e["session_id"] == session]],
    the comprehension once the sample's session is the string [session]. *)
Definition session_preds (keyboard_preds : list Entry) (session : string)
    : list (list Pred) :=
  map entry_box
    (filter (λ e, session_id e = session) keyboard_preds).

(** [assert len(preds) == 1], then [preds[0]]. *)
Definition the_one_pred (preds : list (list Pred)) : result (list Pred) :=
  if (length preds =? 1)%nat
  then match preds with
       | p :: _ => Ok p
       | [] => Raise AssertionError
       end
  else Raise AssertionError.

(** The four divisions and the list [rel_box] of one prediction: the
    width and height are the [int]s of the video metadata, every quotient
    and both differences are floats. *)
Definition rel_box (width height : Z) (b : Corners)
    : result (list spec_float) :=
  x1' ← Binary64.truediv_int (x1 b) width;
  y1' ← Binary64.truediv_int (y1 b) height;
  x2' ← Binary64.truediv_int (x2 b) width;
  y2' ← Binary64.truediv_int (y2 b) height;
  Ok [x1'; y1'; Binary64.sub x2' x1'; Binary64.sub y2' y1'].

Definition detection_of (width height : Z) (pred : Pred) : result Detection :=
  box ← rel_box width height (pred_box pred);
  Ok {| det_label := pred_name pred;
        bounding_box := box;
        det_confidence := pred_confidence pred;
        det_cls := pred_class pred |}.

Fixpoint detections_of (width height : Z) (preds : list Pred)
    : result (list Detection) :=
  match preds with
  | [] => Ok []
  | pred :: rest =>
      d ← detection_of width height pred;
      ds ← detections_of width height rest;
      Ok (d :: ds)
  end.

(** [for i in range(total): sample.frames[i + 1][field_name] = ...] *)
Definition write_all_frames (field_name : string) (dets : list Detection)
    (total : Z) (fs : Frames) : Frames :=
  fold_left
    (λ fs i, frames_setfield (Z.of_nat i + 1) field_name (Detections dets) fs)
    (seq 0 (Z.to_nat total)) fs.

(** The list comprehension of [add_keyboard_bboxes] on one sample, in a
    dataset whose sample fields are [schema].  Its condition reads
    [sample.session] for every entry of the file in turn, and so not at
    all when the file has no entry.  A session that is [None] equals no
    session id. *)
Fixpoint sample_preds (schema : gset string) (keyboard_preds : list Entry)
    (sample : Sample) : result (list (list Pred)) :=
  match keyboard_preds with
  | [] => Ok []
  | e :: rest =>
      session ← get_field schema AttributeError "session" (fields sample);
      preds ← sample_preds schema rest sample;
      Ok (if decide (session = Some (session_id e))
          then entry_box e :: preds else preds)
  end.

(** The body of the loop of [add_keyboard_bboxes], in a dataset whose
    sample fields are [schema]. *)
Definition add_keyboard_bboxes_sample (schema : gset string)
    (keyboard_preds : list Entry) (field_name : string) (sample : Sample)
    : result Sample :=
  preds ← sample_preds schema keyboard_preds sample;
  preds0 ← the_one_pred preds;
  let height := frame_height (metadata sample) in
  let width := frame_width (metadata sample) in
  detections ← detections_of width height preds0;
  Ok (set_frames
        (write_all_frames field_name detections
           (total_frame_count (metadata sample)) (frames sample))
        sample).

(** [add_keyboard_bboxes] on a dataset that declares the sample fields
    [declared] besides those its samples have values of.  The pass writes
    frame fields only, so the schema of the sample fields stays. *)
Definition add_keyboard_bboxes (declared : gset string)
    (dataset : list Sample) (keyboard_preds : list Entry)
    (field_name : string) : list Sample * option exn :=
  iter_samples
    (add_keyboard_bboxes_sample (sample_schema declared dataset)
       keyboard_preds field_name)
    dataset.

End ImportDataset.

(* ===================================================================== *)
(** ** run_mediapipe.py *)
(* ===================================================================== *)

Module RunMediapipe.
Import Py Fo.

Record NormalizedLandmark : Type := { lm_x : Q; lm_y : Q; lm_z : Q }.

Record Category : Type := { category_name : string; score : Q }.

(** What [detect_for_video] returns.  MediaPipe reports at least one
    category for every detected hand: [handedness[0]] is the head of a
    non-empty list. *)
Record HandLandmarkerResult : Type := {
  hand_landmarks : list (list NormalizedLandmark);
  handedness : list (Category * list Category)
}.

(** [cv2.VideoCapture]: the outcomes of the reads still to come (a frame,
    or a failed read), and the two properties the script queries.  Reads
    past the end of the list fail.  The frame count is the integer that the
    float reported by OpenCV holds and that [int()] reads back. *)
Record VideoCapture (Image : Type) : Type := {
  reads : list (option Image);
  CAP_PROP_FRAME_COUNT : Z;
  CAP_PROP_FPS : spec_float
}.
Arguments reads {Image} _.
Arguments CAP_PROP_FRAME_COUNT {Image} _.
Arguments CAP_PROP_FPS {Image} _.

(** [int(1000 / fps * frame_number)] *)
Definition frame_timestamp_ms (fps : spec_float) (frame_number : Z)
    : result Z :=
  q ← Binary64.truediv (Binary64.of_int 1000) fps;
  n ← Binary64.float_of_int frame_number;
  Binary64.int (Binary64.mul q n).

(** The timestamp as the specification words it, [round(1000 / fps * i)]. *)
Definition spec_timestamp_ms (fps : spec_float) (i : Z) : result Z :=
  q ← Binary64.truediv (Binary64.of_int 1000) fps;
  n ← Binary64.float_of_int i;
  Binary64.round (Binary64.mul q n).

Section Detector.
Context {Image : Type}.

(** The hand landmarker in video mode is stateful: what it answers
    depends on the calls it has received.  Its state is the history of
    those calls, most recent first, and [infer] is the model behind it. *)
Definition Landmarker : Type := list (Image * Z).

Context (infer : Landmarker → Image → Z → HandLandmarkerResult).
Context (cvtColor_BGR2RGB : Image → Image).

Definition detect_for_video (lm : Landmarker) (mp_image : Image)
    (timestamp_ms : Z) : HandLandmarkerResult * Landmarker :=
  (infer lm mp_image timestamp_ms, (mp_image, timestamp_ms) :: lm).

Definition detect_hands (video_frame : Image) (frame_timestamp_ms : Z)
    (hand_landmarker : Landmarker) : list Keypoint * Landmarker :=
  let mp_image := video_frame in
  let '(hand_landmarker_result, hand_landmarker') :=
    detect_for_video hand_landmarker mp_image frame_timestamp_ms in
  let hand_landmarks_list := hand_landmarks hand_landmarker_result in
  let handedness_list := handedness hand_landmarker_result in
  (map (λ '(hd, landmarks),
          {| kp_label := category_name (fst hd);
             kp_points := map (λ l, (lm_x l, lm_y l)) landmarks |})
       (zip handedness_list hand_landmarks_list),
   hand_landmarker').

Definition read (cap : VideoCapture Image)
    : option Image * VideoCapture Image :=
  match reads cap with
  | [] => (None, cap)
  | r :: rest =>
      (r, {| reads := rest;
             CAP_PROP_FRAME_COUNT := CAP_PROP_FRAME_COUNT cap;
             CAP_PROP_FPS := CAP_PROP_FPS cap |})
  end.

(** The state that the frame loop threads, and how the loop ended. *)
Record loop_end : Type := {
  end_frames : Frames;
  end_cap : VideoCapture Image;
  end_landmarker : Landmarker;
  end_exn : option exn
}.

(** The loop over [sample.frames.items()] of [run_mp]. *)
Fixpoint frame_loop (fps : spec_float) (field_name : string)
    (cap : VideoCapture Image) (landmarker : Landmarker) (items : Frames)
    : loop_end :=
  match items with
  | [] => {| end_frames := []; end_cap := cap;
             end_landmarker := landmarker; end_exn := None |}
  | (frame_number, frame) :: rest =>
      let '(success, cap') := read cap in
      match success with
      | None =>
          {| end_frames := items; end_cap := cap';
             end_landmarker := landmarker; end_exn := None |}
      | Some video_frame =>
          let video_frame := cvtColor_BGR2RGB video_frame in
          match frame_timestamp_ms fps frame_number with
          | Raise e =>
              {| end_frames := items; end_cap := cap';
                 end_landmarker := landmarker; end_exn := Some e |}
          | Ok ts =>
              let '(keypoints, landmarker') :=
                detect_hands video_frame ts landmarker in
              let frame' := <[ field_name := Keypoints keypoints ]> frame in
              let r := frame_loop fps field_name cap' landmarker' rest in
              {| end_frames := (frame_number, frame') :: end_frames r;
                 end_cap := end_cap r;
                 end_landmarker := end_landmarker r;
                 end_exn := end_exn r |}
          end
      end
  end.

(** The body of the loop over the samples of [run_mp]: a fresh
    landmarker for the video, the frame loop, then [sample.save()]. *)
Definition run_mp_sample (field_name : string) (cap : VideoCapture Image)
    (sample : Sample) : outcome * Landmarker :=
  let n_frames := CAP_PROP_FRAME_COUNT cap in
  let fps := CAP_PROP_FPS cap in
  let r := frame_loop fps field_name cap [] (frames sample) in
  match end_exn r with
  | None => (Saved (set_frames (end_frames r) sample), end_landmarker r)
  | Some e => (Raised e (set_frames (end_frames r) sample), end_landmarker r)
  end.

(** [run_mp]: the samples in turn, each with the capture that opens on its
    file; what an exception leaves unsaved is lost, and it ends the run. *)
Fixpoint run_mp (VideoCapture_open : string → VideoCapture Image)
    (field_name : string) (dataset : list Sample) : list Sample * option exn :=
  match dataset with
  | [] => ([], None)
  | sample :: rest =>
      let cap := VideoCapture_open (filepath sample) in
      match fst (run_mp_sample field_name cap sample) with
      | Saved sample' =>
          let '(rest', e) := run_mp VideoCapture_open field_name rest in
          (sample' :: rest', e)
      | Raised e _ => (dataset, Some e)
      end
  end.

(** The timestamps the landmarker was called with, in call order. *)
Definition timestamps_passed (lm : Landmarker) : list Z :=
  rev (map snd lm).

(** How many reads succeed before the first failed one. *)
Fixpoint decoded (rds : list (option Image)) : nat :=
  match rds with
  | Some _ :: rest => S (decoded rest)
  | _ => O
  end.

(** [after] is the frame record [before] with a keypoints label written
    under [field_name], and nothing else changed. *)
Definition annotated (field_name : string) (before after : Z * Frame) : Prop :=
  fst after = fst before
  ∧ ∃ kps, snd after = <[ field_name := Keypoints kps ]> (snd before).

End Detector.

End RunMediapipe.

(* ===================================================================== *)
(** ** custom_export.py *)
(* ===================================================================== *)

Module CustomExport.
Import Py Pathlib Fo.

(** The document handed to [json.dump]. *)
Record KeypointEntry : Type := {
  label : string;
  points : list (Q * Q)
}.

Record FrameEntry : Type := {
  frame_number : Z;
  keypoints : list KeypointEntry
}.

Record Dump : Type := {
  filename : string;
  frames : list FrameEntry
}.

(** [frame[field].keypoints] in a dataset whose frame fields are [schema]:
    [frame[field]] raises [KeyError] when the schema has no such field; a
    declared field without a value on the frame reads as [None], which has
    no attribute [keypoints]; neither has a [Detections] label. *)
Definition field_keypoints (schema : gset string) (field : string)
    (frame : Frame) : result (list Keypoint) :=
  value ← get_field schema KeyError field frame;
  match value with
  | Some (Keypoints kps) => Ok kps
  | Some (Detections _) => Raise AttributeError
  | None => Raise AttributeError
  end.

Definition frame_entry (schema : gset string) (field : string)
    (item : Z * Frame) : result FrameEntry :=
  kps ← field_keypoints schema field (snd item);
  Ok {| frame_number := fst item;
        keypoints :=
          map (λ kp, {| label := kp_label kp; points := kp_points kp |}) kps |}.

Fixpoint frame_entries (schema : gset string) (field : string)
    (items : Frames) : result (list FrameEntry) :=
  match items with
  | [] => Ok []
  | item :: rest =>
      e ← frame_entry schema field item;
      es ← frame_entries schema field rest;
      Ok (e :: es)
  end.

(** The [dump] that [export] builds for one sample. *)
Definition export_sample (schema : gset string) (field : string)
    (sample : Sample) : result Dump :=
  fs ← frame_entries schema field (Fo.frames sample);
  Ok {| filename := str (name (chars (filepath sample)));
        frames := fs |}.

(** The loop of [export]: one document per sample, written to
    [<stem>.json] in the export directory; the documents written before an
    exception stay. *)
Fixpoint export_samples (schema : gset string) (field : string)
    (dataset : list Sample) : list (string * Dump) * option exn :=
  match dataset with
  | [] => ([], None)
  | sample :: rest =>
      match export_sample schema field sample with
      | Ok dump =>
          let fname := stem (chars (filepath sample)) in
          let '(written, e) := export_samples schema field rest in
          ((str (fname ++ chars ".json"), dump) :: written, e)
      | Raise e => ([], Some e)
      end
  end.

(** [export] of a dataset that declares the frame fields [declared] besides
    those its frames have values of. *)
Definition export (declared : gset string) (field : string)
    (dataset : list Sample) : list (string * Dump) * option exn :=
  export_samples (frame_schema declared dataset) field dataset.

(** The entry written for a frame record numbered [n] that holds [kps]. *)
Definition entry_of (n : Z) (kps : list Keypoint) : FrameEntry :=
  {| frame_number := n;
     keypoints :=
       map (λ kp, {| label := kp_label kp; points := kp_points kp |}) kps |}.

(** [entry] is what the exporter writes for the frame record [item], which
    holds a keypoints label under [field]. *)
Definition exported (field : string) (item : Z * Frame) (entry : FrameEntry)
    : Prop :=
  ∃ kps, snd item !! field = Some (Keypoints kps)
         ∧ entry = entry_of (fst item) kps.

End CustomExport.

(* ===================================================================== *)
(** ** import_dataset.py: [create_dataset] and [main] *)
(* ===================================================================== *)

Module CreateDataset.
Import Py Pathlib Fo ImportDataset.

#[export] Instance exn_eq_dec : EqDecision exn.
Proof. solve_decision. Defined.

#[export] Instance result_eq_dec `{EqDecision A} : EqDecision (result A).
Proof. solve_decision. Defined.

(** [s.startswith(prefix)] and [sub in s] on strings. *)
Fixpoint startswith (prefix s : list ascii) : bool :=
  match prefix, s with
  | [], _ => true
  | x :: prefix', y :: s' => Ascii.eqb x y && startswith prefix' s'
  | _ :: _, [] => false
  end.

Fixpoint contains (sub s : list ascii) : bool :=
  startswith sub s
  || match s with
     | [] => false
     | _ :: s' => contains sub s'
     end.

(** Python's [<] on the key tuples. *)
Definition key_ltb (a b : Z * Z * Z) : bool :=
  let '(a1, a2, a3) := a in
  let '(b1, b2, b3) := b in
  (a1 <? b1) || ((a1 =? b1) && ((a2 <? b2) || ((a2 =? b2) && (a3 <? b3)))).

Section Sorted.
Context {K A : Type} (ltb : K → K → bool).

(** [sorted(xs, key=...)] compares keys with [<] only and is stable: an
    item goes in front of the first one whose key is not below its own. *)
Fixpoint insort (x : K * A) (l : list (K * A)) : list (K * A) :=
  match l with
  | [] => [x]
  | y :: l' => if ltb (fst y) (fst x) then y :: insort x l' else x :: l
  end.

Fixpoint sort_keyed (l : list (K * A)) : list (K * A) :=
  match l with
  | [] => []
  | x :: l' => insort x (sort_keyed l')
  end.

(** The keys are computed first, item by item; the first failure is the
    failure of the call. *)
Fixpoint keyed (key : A → result K) (xs : list A) : result (list (K * A)) :=
  match xs with
  | [] => Ok []
  | x :: xs' =>
      k ← key x;
      ks ← keyed key xs';
      Ok ((k, x) :: ks)
  end.

Definition sorted (key : A → result K) (xs : list A) : result (list A) :=
  ks ← keyed key xs;
  Ok (map snd (sort_keyed ks)).

(** What sorting needs of [<]: it is asymmetric, and "not above" is
    transitive. *)
Definition orders : Prop :=
  (∀ a b, ltb a b = true → ltb b a = false)
  ∧ (∀ a b c, ltb b a = false → ltb c b = false → ltb c a = false).

End Sorted.

(** A sample of the dataset with its tags. *)
Record TaggedSample : Type := { sample : Sample; tags : list string }.

(** ["train" if "train" in video_fp else "test"] *)
Definition tag_of (video_fp : string) : string :=
  if contains (chars "train") (chars video_fp) then "train" else "test".

(** [create_dataset], given the paths the glob pattern matches.  FiftyOne
    stores the absolute path of a sample; [compute_metadata] reads the
    video behind it.  A new sample has no field and no frame record. *)
Definition create_dataset (abspath : string → string)
    (compute_metadata : string → VideoMetadata) (globbed : list string)
    : result (list TaggedSample) :=
  video_fps ← sorted key_ltb sort_key globbed;
  Ok (map (λ video_fp,
             {| sample := {| filepath := abspath video_fp;
                             metadata := compute_metadata (abspath video_fp);
                             fields := ∅;
                             frames := [] |};
                tags := [tag_of video_fp] |})
          video_fps).

(** The datasets that FiftyOne holds, by name. *)
Definition Datasets : Type := gmap string (list TaggedSample).

(** The samples of a dataset after a pass over them, with their tags. *)
Definition retag (ds : list TaggedSample) (samples : list Sample)
    : list TaggedSample :=
  zip_with (λ t s, {| sample := s; tags := tags t |}) ds samples.

(** [main]: the dataset is persistent from its creation on, so what the
    passes have saved when one of them raises stays in the store.  A new
    dataset declares no sample field of the scripts; the session pass
    declares the one it writes. *)
Definition main (abspath : string → string)
    (compute_metadata : string → VideoMetadata) (globbed : list string)
    (keyboard_preds : list Entry)
    (datasets : Datasets) (dataset_name : string) (overwrite : bool)
    : Datasets * option exn :=
  let datasets :=
    if overwrite && bool_decide (is_Some (datasets !! dataset_name))
    then delete dataset_name datasets
    else datasets in
  if bool_decide (is_Some (datasets !! dataset_name)) then (datasets, None)
  else
    match create_dataset abspath compute_metadata globbed with
    | Raise e => (datasets, Some e)
    | Ok ds =>
        let '(samples, e) := add_session_field (map sample ds) "session" in
        match e with
        | Some e => (<[ dataset_name := retag ds samples ]> datasets, Some e)
        | None =>
            let '(samples, e) :=
              add_keyboard_bboxes ∅ samples keyboard_preds "keyboard" in
            (<[ dataset_name := retag ds samples ]> datasets, e)
        end
    end.

End CreateDataset.

(* ===================================================================== *)
(** ** run_mediapipe.py: the download progress bar *)
(* ===================================================================== *)

Module Download.

(** The two counters of a [tqdm] bar that the script touches. *)
Record tqdm : Type := { n : Z; total : option Z }.

(** [tqdm.update(k)] on an enabled bar: the position advances by [k]. *)
Definition update (k : Z) (bar : tqdm) : tqdm :=
  {| n := n bar + k; total := total bar |}.

(** [DownloadProgressBar.update_to(b, bsize, tsize)] *)
Definition update_to (b bsize : Z) (tsize : option Z) (bar : tqdm) : tqdm :=
  let bar :=
    match tsize with
    | Some t => {| n := n bar; total := Some t |}
    | None => bar
    end in
  update (b * bsize - n bar) bar.

(** The calls that [urlretrieve] makes to its report hook, in order. *)
Definition report (bar : tqdm) (calls : list (Z * Z * option Z)) : tqdm :=
  fold_left (λ bar '(b, bsize, tsize), update_to b bsize tsize bar) calls bar.

End Download.

(* ===================================================================== *)
(** ** Words for the statements about passes and exports *)
(* ===================================================================== *)

Module Vocabulary.
Import Py Fo.

(** The sample that a pass leaves: the one it saved, or the one it held in
    memory when it raised. *)
Definition sample_of (o : outcome) : Sample :=
  match o with
  | Saved s => s
  | Raised _ s => s
  end.

(** The frame record holds a keypoints label under [field]. *)
Definition holds_keypoints (field : string) (item : Z * Frame) : Prop :=
  ∃ kps, snd item !! field = Some (Keypoints kps).

(** A box whose corners are the [int]s [a1], [b1], [a2], [b2]. *)
Definition int_box (a1 b1 a2 b2 : Z) : ImportDataset.Corners :=
  {| ImportDataset.x1 := Binary64.Int a1; ImportDataset.y1 := Binary64.Int b1;
     ImportDataset.x2 := Binary64.Int a2; ImportDataset.y2 := Binary64.Int b2 |}.

(** A box in whole pixels: its corners are [int]s below [2 ^ 53] in
    absolute value. *)
Definition pixel_box (b : ImportDataset.Corners) : Prop :=
  ∃ a1 b1 a2 b2,
    b = int_box a1 b1 a2 b2
    ∧ Z.abs a1 < 2 ^ 53 ∧ Z.abs b1 < 2 ^ 53
    ∧ Z.abs a2 < 2 ^ 53 ∧ Z.abs b2 < 2 ^ 53.

End Vocabulary.

(* ===================================================================== *)
(** ** Rounding in binary64, for the statements about float results *)
(* ===================================================================== *)

Module Rounding.

(** Where the rational [N / D] lies between [m] and [m + 1], as the round
    bit [r] and the sticky bit [s] of a shift record tell it. *)
Definition located (r s : bool) (m N D : Z) : Prop :=
  match r, s with
  | false, false => N = m * D
  | false, true => m * D < N ∧ 2 * N < (2 * m + 1) * D
  | true, false => 2 * N = (2 * m + 1) * D
  | true, true => (2 * m + 1) * D < 2 * N ∧ N < (m + 1) * D
  end.

(** The shift record [mrs] stands for [N / D]. *)
Definition represents (mrs : shr_record) (N D : Z) : Prop :=
  0 < D ∧ 0 <= shr_m mrs
  ∧ located (shr_r mrs) (shr_s mrs) (shr_m mrs) N D.

(** The float [x] with the sign [s]. *)
Definition with_sign (s : bool) (x : spec_float) : spec_float :=
  match x with
  | S754_zero _ => S754_zero s
  | S754_infinity _ => S754_infinity s
  | S754_finite _ m e => S754_finite s m e
  | S754_nan => S754_nan
  end.

(** The floats 0.0 and 1.0. *)
Definition zero : spec_float := S754_zero false.
Definition one : spec_float := S754_finite false 4503599627370496 (-52).

(** The float [x] is [a / b] to within the relative error [2 ^ -53], for a
    divisor [b] above zero: [x] is zero when [a] is, and otherwise, with
    [x = ± m * 2 ^ e], the product [x * b] differs from [a] by at most
    [|a| / 2 ^ 53] (both sides scaled by [2 ^ - e]). *)
Definition nearest (x : spec_float) (a b : Z) : Prop :=
  match x with
  | S754_zero _ => a = 0
  | S754_finite s m e =>
      e <= 0
      ∧ 2 ^ 53 * Z.abs ((if s then - Z.pos m else Z.pos m) * b - a * 2 ^ (- e))
        <= Z.abs a * 2 ^ (- e)
  | _ => False
  end.

End Rounding.

Module Products.

(** The exponent at which the product of the float [mq * 2 ^ eq] and the
    integer [i] is rounded. *)
Definition product_exponent (mq : positive) (eq i : Z) : Z :=
  let d := Zdigits2 i in
  let ex := eq + (d - 53) in
  Z.max (fexp Binary64.prec Binary64.emax
           (Zdigits2 (Z.pos mq * (i * 2 ^ (53 - d))) + ex)) ex.

End Products.

(* ===================================================================== *)
(** ** Concrete videos and samples used in the examples *)
(* ===================================================================== *)

Module Fixtures.
Import Py Fo RunMediapipe.

(** A landmarker that never sees a hand; its images carry no data. *)
Definition no_hands (_ : @Landmarker unit) (_ : unit) (_ : Z)
    : HandLandmarkerResult :=
  {| hand_landmarks := []; handedness := [] |}.

(** A video that reports [declared] frames at [fps] frames per second and
    decodes [decodable] of them. *)
Definition video (fps : Z) (declared decodable : nat) : VideoCapture unit :=
  {| reads := repeat (Some tt) decodable;
     CAP_PROP_FRAME_COUNT := Z.of_nat declared;
     CAP_PROP_FPS := Binary64.of_int fps |}.

(** A sample with empty frame records numbered [1..n]. *)
Definition blank_sample (n : nat) : Sample :=
  {| filepath := "/data/train/2023-05-01_a2_perf_split3.mp4";
     metadata := {| frame_width := 640; frame_height := 480;
                    total_frame_count := Z.of_nat n |};
     fields := {[ "session"%string := "2023-05-01_a2"%string ]};
     frames := map (λ i, (Z.of_nat i, ∅)) (seq 1 n) |}.

Definition run (fps : Z) (declared decodable : nat) : outcome * Landmarker :=
  run_mp_sample no_hands id "hand_landmarker_mp"
    (video fps declared decodable) (blank_sample declared).

(** The bounding-box file of the end-to-end scenario: one entry for the
    session, with one box. *)
Definition keyboard_file : list ImportDataset.Entry :=
  [ {| ImportDataset.session_id := "2023-05-01_a2";
       ImportDataset.entry_box :=
         [ {| ImportDataset.pred_box :=
                {| ImportDataset.x1 := Binary64.Int 100;
                   ImportDataset.y1 := Binary64.Int 50;
                   ImportDataset.x2 := Binary64.Int 300;
                   ImportDataset.y2 := Binary64.Int 250 |};
              ImportDataset.pred_name := "keyboard";
              ImportDataset.pred_class := 0;
              ImportDataset.pred_confidence := 9 # 10 |} ] |} ].

(** Two frame records for the exporter: frame 1 holds one left hand with the
    point (0.1, 0.2), frame 2 is [second]. *)
Definition two_frames (second : Frame) : Sample :=
  {| filepath := "/data/train/2023-05-01_a2_perf_split3.mp4";
     metadata := {| frame_width := 640; frame_height := 480;
                    total_frame_count := 2 |};
     fields := ∅;
     frames :=
       [ (1, {[ "hand_landmarker_mp"%string :=
                  Keypoints [ {| kp_label := "Left";
                                 kp_points := [(1 # 10, 2 # 10)%Q] |} ] ]});
         (2, second) ] |}.

(** A recording filed under a directory that is itself named like a
    session, an earlier one. *)
Definition nested_sample : Sample :=
  {| filepath := "/data/2023-04-30_a1/2023-05-01_a2_perf_split3.mp4";
     metadata := {| frame_width := 640; frame_height := 480;
                    total_frame_count := 0 |};
     fields := ∅;
     frames := [] |}.

End Fixtures.

(** Further videos, samples and file lists. *)
Module Scenarios.
Import Py Fo RunMediapipe ImportDataset CreateDataset Fixtures.

(** A video whose frames are told apart by a number, with a read that
    fails after the second frame. *)
Definition numbered_video : VideoCapture Z :=
  {| reads := [Some 10; Some 20; None; Some 40];
     CAP_PROP_FRAME_COUNT := 4;
     CAP_PROP_FPS := Binary64.of_int 25 |}.

Definition no_hands_seen (_ : @Landmarker Z) (_ : Z) (_ : Z)
    : HandLandmarkerResult :=
  {| hand_landmarks := []; handedness := [] |}.

(** A result with two handedness entries and one set of landmarks. *)
Definition lopsided (_ : @Landmarker Z) (_ : Z) (_ : Z)
    : HandLandmarkerResult :=
  {| hand_landmarks := [ [ {| lm_x := 1 # 2; lm_y := 1 # 4; lm_z := 1 # 8 |} ] ];
     handedness :=
       [ ({| category_name := "Left"; score := 9 # 10 |}, []);
         ({| category_name := "Right"; score := 8 # 10 |}, []) ] |}.

(** The sample of the scenario with its session set and keypoints already
    on its two frames. *)
Definition annotated_sample : Sample :=
  set_field "session" "2023-05-01_a2"
    (two_frames {[ "hand_landmarker_mp"%string := Keypoints [] ]}).

Definition no_metadata (_ : string) : VideoMetadata :=
  {| frame_width := 640; frame_height := 480; total_frame_count := 2 |}.

(** Three recordings as a glob lists them: the later day first, then two
    files of one take and split that differ in their middle part. *)
Definition globbed : list string :=
  [ "/data/test/2023-05-02_a1_perf_split1.mp4"%string;
    "/data/train/2023-05-01_a2_perf_split3.mp4"%string;
    "/data/train/2023-05-01_a2_warmup_split3.mp4"%string ].

(** The same recording filed under two directories. *)
Definition filed_under (dir : string) : Sample :=
  {| filepath := dir +:+ "/2023-05-01_a2_perf_split3.mp4";
     metadata := no_metadata "";
     fields := ∅;
     frames := [] |}.

End Scenarios.

(* ===================================================================== *)
(** * Properties *)
(* ===================================================================== *)

(** ** Timestamps *)

Section Timestamps.
Import Py Fo RunMediapipe.

(** [int()] on a float is the truncation toward zero of its value. *)
Lemma binary64_int_truncates (x : spec_float) (q : Q) :
  Binary64.to_Q x = Some q → Binary64.int x = Ok (int q).
Proof.
  destruct x as [s|s| |s m e]; cbn [Binary64.to_Q Binary64.int]; try done.
  - by intros [= <-].
  - intros [= <-]. f_equal.
    destruct (Z.leb_spec 0 e) as [He|He].
    + destruct s; unfold int; cbn [Qnum Qden Qopp].
      * rewrite Z.quot_opp_l, Z.quot_1_r by lia. done.
      * by rewrite Z.quot_1_r.
    + assert (Hpow : 0 < 2 ^ (- e)) by (apply Z.pow_pos_nonneg; lia).
      assert (Hden : Z.pos (Z.to_pos (2 ^ (- e))) = 2 ^ (- e))
        by (apply Z2Pos.id; lia).
      destruct s; unfold int; cbn [Qnum Qden Qopp]; rewrite Hden.
      * rewrite Z.quot_opp_l, Z.quot_div_nonneg by lia. done.
      * by rewrite Z.quot_div_nonneg by lia.
Qed.

Lemma frame_timestamp_ms_zero_fps (fps : spec_float) (n : Z) :
  Binary64.is_zero fps = true →
  frame_timestamp_ms fps n = Raise ZeroDivisionError.
Proof.
  intros Hz. unfold frame_timestamp_ms, Binary64.truediv. by rewrite Hz.
Qed.

(** Of the three steps of the timestamp only the division can raise
    [ZeroDivisionError], and only on a zero frame rate. *)
Lemma frame_timestamp_ms_nonzero_fps (fps : spec_float) (n : Z) :
  Binary64.is_zero fps = false →
  (∃ q, Binary64.truediv (Binary64.of_int 1000) fps = Ok q)
  ∧ frame_timestamp_ms fps n ≠ Raise ZeroDivisionError.
Proof.
  intros Hz. unfold frame_timestamp_ms, Binary64.truediv. rewrite Hz.
  split; [by eexists|]. cbn [mbind result_bind bind].
  unfold Binary64.float_of_int.
  destruct (Binary64.of_int n); cbn [mbind result_bind bind]; try done;
    by destruct (Binary64.mul _ _).
Qed.

(** A timestamp that is computed is the float product, truncated toward
    zero. *)
Lemma frame_timestamp_ms_truncates (fps : spec_float) (i ts : Z) :
  frame_timestamp_ms fps i = Ok ts →
  ∃ q n v,
    Binary64.truediv (Binary64.of_int 1000) fps = Ok q
    ∧ Binary64.float_of_int i = Ok n
    ∧ Binary64.to_Q (Binary64.mul q n) = Some v
    ∧ ts = int v.
Proof.
  unfold frame_timestamp_ms.
  destruct (Binary64.truediv _ fps) as [q|]; [|done].
  destruct (Binary64.float_of_int i) as [n|]; [|done].
  cbn [mbind result_bind bind]. intros H.
  destruct (Binary64.to_Q (Binary64.mul q n)) as [v|] eqn:Hv.
  - rewrite (binary64_int_truncates _ _ Hv) in H. injection H as <-.
    by exists q, n, v.
  - by destruct (Binary64.mul q n).
Qed.

End Timestamps.

(** ** Rounding in binary64 *)

Section RoundingFacts.
Import Rounding.

Lemma digits2_pos_bounds (p : positive) :
  2 ^ (Z.pos (digits2_pos p) - 1) <= Z.pos p < 2 ^ Z.pos (digits2_pos p).
Proof.
  induction p as [p IH|p IH|]; cbn [digits2_pos].
  - rewrite Pos2Z.inj_succ, Z.pow_succ_r by lia.
    replace (Z.succ (Z.pos (digits2_pos p)) - 1)
      with (Z.succ (Z.pos (digits2_pos p) - 1)) by lia.
    rewrite Z.pow_succ_r by lia. lia.
  - rewrite Pos2Z.inj_succ, Z.pow_succ_r by lia.
    replace (Z.succ (Z.pos (digits2_pos p)) - 1)
      with (Z.succ (Z.pos (digits2_pos p) - 1)) by lia.
    rewrite Z.pow_succ_r by lia. lia.
  - cbn. lia.
Qed.

Lemma Zdigits2_bounds (m : Z) :
  0 < m → 0 < Zdigits2 m ∧ 2 ^ (Zdigits2 m - 1) <= m < 2 ^ Zdigits2 m.
Proof.
  destruct m as [|p|p]; [lia| |lia]. intros _. cbn [Zdigits2].
  split; [lia|apply digits2_pos_bounds].
Qed.

Lemma Zdigits2_nonneg (m : Z) : 0 <= m → 0 <= Zdigits2 m.
Proof. destruct m; cbn; lia. Qed.

Lemma Zdigits2_le (m d : Z) : 0 <= d → 0 <= m < 2 ^ d → Zdigits2 m <= d.
Proof.
  intros Hd [Hm Hlt]. destruct (Z.eq_dec m 0) as [->|Hne]; [cbn; lia|].
  destruct (Zdigits2_bounds m) as (Hpos & Hlo & _); [lia|].
  destruct (Z.le_gt_cases (Zdigits2 m) d) as [|Hgt]; [done|].
  assert (2 ^ d <= 2 ^ (Zdigits2 m - 1)) by (apply Z.pow_le_mono_r; lia). lia.
Qed.

Lemma Zdigits2_ge (m d : Z) : 2 ^ (d - 1) <= m → 0 < m → d <= Zdigits2 m.
Proof.
  intros Hlo Hm.
  destruct (Zdigits2_bounds m) as (Hpos & _ & Hhi); [lia|].
  destruct (Z.le_gt_cases d (Zdigits2 m)) as [|Hgt]; [done|].
  assert (2 ^ Zdigits2 m <= 2 ^ (d - 1)) by (apply Z.pow_le_mono_r; lia). lia.
Qed.

Lemma shr_1_represents mrs N D :
  represents mrs N D → represents (shr_1 mrs) N (2 * D).
Proof.
  destruct mrs as [m r s]. unfold represents. cbn [shr_m shr_r shr_s].
  intros (HD & Hm & Hloc).
  destruct m as [|[p|p|]|]; [| | | |lia]; destruct r, s;
    cbn [shr_1 orb shr_m shr_r shr_s located] in *;
    try pose proof (Pos2Z.inj_xI p); try pose proof (Pos2Z.inj_xO p);
    (split; [lia|]); (split; [lia|]); lia.
Qed.


Lemma iter_pos_shr_1_represents (p : positive) mrs N D :
  represents mrs N D →
  represents (SpecFloat.iter_pos shr_1 p mrs) N (D * 2 ^ Z.pos p).
Proof.
  revert mrs D. induction p as [p IH|p IH|]; intros mrs D H; cbn [SpecFloat.iter_pos].
  - apply shr_1_represents in H. apply IH, IH in H.
    replace (D * 2 ^ Z.pos p~1) with (2 * D * 2 ^ Z.pos p * 2 ^ Z.pos p);
      [done|].
    replace (Z.pos p~1) with (Z.pos p + Z.pos p + 1) by lia.
    rewrite !Z.pow_add_r, Z.pow_1_r by lia. ring.
  - apply IH, IH in H.
    replace (D * 2 ^ Z.pos p~0) with (D * 2 ^ Z.pos p * 2 ^ Z.pos p);
      [done|].
    replace (Z.pos p~0) with (Z.pos p + Z.pos p) by lia.
    rewrite !Z.pow_add_r by lia. ring.
  - apply shr_1_represents in H. by rewrite Z.mul_comm.
Qed.

Lemma shr_record_of_loc_exact (m : Z) :
  0 <= m → represents (shr_record_of_loc m loc_Exact) m 1.
Proof. intros Hm. unfold represents. cbn. lia. Qed.

(** [shr_fexp]: the mantissa is brought to the exponent that the format
    gives a number of its size, when that is above the one it has. *)
Lemma shr_fexp_represents (m e : Z) (l : location) N D :
  represents (shr_record_of_loc m l) N D →
  let E := Z.max (fexp Binary64.prec Binary64.emax (Zdigits2 m + e)) e in
  ∃ mrs, shr_fexp Binary64.prec Binary64.emax m e l = (mrs, E)
         ∧ represents mrs N (D * 2 ^ (E - e)).
Proof.
  intros H E. unfold shr_fexp, shr.
  destruct (fexp Binary64.prec Binary64.emax (Zdigits2 m + e) - e)
    as [|p|p] eqn:Hn.
  - exists (shr_record_of_loc m l). replace E with e by lia.
    rewrite Z.sub_diag, Z.mul_1_r. done.
  - exists (SpecFloat.iter_pos shr_1 p (shr_record_of_loc m l)).
    replace E with (e + Z.pos p) by lia. split; [done|].
    replace (e + Z.pos p - e) with (Z.pos p) by lia.
    by apply iter_pos_shr_1_represents.
  - exists (shr_record_of_loc m l). replace E with e by lia.
    rewrite Z.sub_diag, Z.mul_1_r. done.
Qed.

(** Rounding to nearest, ties to even: at most half a unit away. *)
Lemma round_nearest_even_spec mrs N D :
  represents mrs N D →
  let k := round_nearest_even (shr_m mrs) (loc_of_shr_record mrs) in
  shr_m mrs <= k <= shr_m mrs + 1
  ∧ 2 * k * D - D <= 2 * N <= 2 * k * D + D.
Proof.
  destruct mrs as [m r s]. unfold represents. cbn [shr_m shr_r shr_s].
  intros (HD & Hm & Hloc).
  destruct r, s; cbn [loc_of_shr_record round_nearest_even located] in *;
    try destruct (Z.even m); lia.
Qed.


Lemma shr_m_of_loc (m : Z) (l : location) : shr_m (shr_record_of_loc m l) = m.
Proof. by destruct l as [|[]]. Qed.

Lemma represents_between mrs N D :
  represents mrs N D → shr_m mrs * D <= N < (shr_m mrs + 1) * D.
Proof.
  destruct mrs as [m r s]. unfold represents. cbn [shr_m shr_r shr_s].
  intros (HD & Hm & Hloc). destruct r, s; cbn [located] in Hloc; lia.
Qed.

Lemma fexp_eq (e : Z) :
  fexp Binary64.prec Binary64.emax e = Z.max (e - 53) (-1074).
Proof. reflexivity. Qed.

Lemma pow2_pos (e : Z) : 0 <= e → 0 < 2 ^ e.
Proof. intros. by apply Z.pow_pos_nonneg. Qed.

(** What [binary_round_aux] returns for a number that is not negative:
    the mantissa [k] nearest to it at the exponent [E] of the format,
    renormalised when the rounding carried into a 54th digit. *)
Lemma binary_round_aux_spec (mx ex : Z) (lx : location) N D :
  represents (shr_record_of_loc mx lx) N D →
  let E := Z.max (fexp Binary64.prec Binary64.emax (Zdigits2 mx + ex)) ex in
  let D' := D * 2 ^ (E - ex) in
  ∃ k,
    0 <= k <= 2 ^ 53
    ∧ 2 * k * D' - D' <= 2 * N <= 2 * k * D' + D'
    ∧ let e := Z.max (fexp Binary64.prec Binary64.emax (Zdigits2 k + E)) E in
      E <= e <= E + 1
      ∧ k = k / 2 ^ (e - E) * 2 ^ (e - E)
      ∧ binary_round_aux Binary64.prec Binary64.emax false mx ex lx
        = match k / 2 ^ (e - E) with
          | Z0 => S754_zero false
          | Z.pos m =>
              if e <=? Binary64.emax - Binary64.prec
              then S754_finite false m e else S754_infinity false
          | Z.neg _ => S754_nan
          end.
Proof.
  intros H E D'.
  destruct (shr_fexp_represents mx ex lx N D H) as (mrs' & Hshr & Hrep).
  fold E in Hshr, Hrep. fold D' in Hrep.
  pose proof (round_nearest_even_spec mrs' N D' Hrep) as Hk. cbn zeta in Hk.
  set (k := round_nearest_even (shr_m mrs') (loc_of_shr_record mrs')) in *.
  destruct Hk as [Hk Hnear].
  pose proof (represents_between _ _ _ H) as Hin. rewrite shr_m_of_loc in Hin.
  pose proof (represents_between _ _ _ Hrep) as Hin'.
  destruct H as (HD & Hmx & _). rewrite shr_m_of_loc in Hmx.
  destruct Hrep as (HD' & Hm' & _).
  assert (HEex : 0 <= E - ex) by lia.
  assert (Hpow : 0 < 2 ^ (E - ex)) by by apply pow2_pos.
  assert (Hd : 0 <= Zdigits2 mx) by by apply Zdigits2_nonneg.
  assert (Hmxd : mx + 1 <= 2 ^ Zdigits2 mx).
  { destruct (Z.eq_dec mx 0) as [->|Hne]; [done|].
    destruct (Zdigits2_bounds mx) as (_ & _ & ?); lia. }
  assert (HEd : Zdigits2 mx <= 53 + (E - ex)).
  { subst E. rewrite fexp_eq. lia. }
  assert (Hm53 : shr_m mrs' < 2 ^ 53).
  { destruct (Z.lt_ge_cases (shr_m mrs') (2 ^ 53)) as [|Hge]; [done|exfalso].
    assert (2 ^ Zdigits2 mx <= 2 ^ (53 + (E - ex)))
      by (apply Z.pow_le_mono_r; lia).
    rewrite Z.pow_add_r in * by lia.
    assert (shr_m mrs' * 2 ^ (E - ex) < mx + 1).
    { subst D'. nia. }
    nia. }
  exists k. split; [lia|]. split; [lia|]. cbn zeta.
  set (e := Z.max (fexp Binary64.prec Binary64.emax (Zdigits2 k + E)) E).
  assert (Hk0 : 0 <= k) by lia.
  pose proof (Zdigits2_nonneg k Hk0) as Hdk.
  assert (Hdk54 : Zdigits2 k <= 54).
  { apply Zdigits2_le; [lia|]. split; [lia|].
    change (2 ^ 54) with (2 * 2 ^ 53). lia. }
  assert (HEmin : -1074 <= E) by (subst E; rewrite fexp_eq; lia).
  assert (He : E <= e <= E + 1) by (subst e; rewrite fexp_eq; lia).
  split; [done|].
  destruct (shr_fexp_represents k E loc_Exact k 1
              (shr_record_of_loc_exact k Hk0)) as (mrs'' & Hshr' & Hrep').
  fold e in Hshr', Hrep'.
  pose proof (represents_between _ _ _ Hrep') as Hin''.
  rewrite Z.mul_1_l in Hin''.
  assert (Hpow' : 0 < 2 ^ (e - E)) by (apply pow2_pos; lia).
  assert (Hm'' : shr_m mrs'' = k / 2 ^ (e - E)).
  { apply Z.div_unique with (k - shr_m mrs'' * 2 ^ (e - E)); lia. }
  split.
  - destruct (Z.eq_dec e E) as [->|Hne].
    + rewrite Z.sub_diag. change (2 ^ 0) with 1.
      by rewrite Z.div_1_r, Z.mul_1_r.
    + replace (e - E) with 1 by lia. change (2 ^ 1) with 2.
      assert (Hk54 : Zdigits2 k = 54) by (subst e; rewrite fexp_eq in *; lia).
      assert (Hkge : 2 ^ 53 <= k).
      { destruct (Z.eq_dec k 0) as [Hz|Hnz]; [by rewrite Hz in Hk54|].
        destruct (Zdigits2_bounds k) as (_ & Hlo & _); [lia|].
        by rewrite Hk54 in Hlo. }
      assert (k = 2 ^ 53) as -> by lia. done.
  - unfold binary_round_aux. rewrite Hshr. fold k. rewrite Hshr'.
    by rewrite Hm''.
Qed.

End RoundingFacts.

Section Floors.

(** A multiple [R] of [w] within half of [w] of [X] is at least every
    multiple [B] of [w] that lies less than half of [w] above [X]. *)
Lemma rounded_ge (w R B X : Z) :
  0 < w → (w | R) → (w | B) →
  - w <= 2 * R - 2 * X → 2 * B - 2 * X < w → B <= R.
Proof.
  intros Hw [a ->] [b ->] HR HB.
  assert (b <= a) by nia. nia.
Qed.

Lemma rounded_le (w R B X : Z) :
  0 < w → (w | R) → (w | B) →
  2 * R - 2 * X <= w → 2 * X - 2 * B < w → R <= B.
Proof.
  intros Hw [a ->] [b ->] HR HB.
  assert (a <= b) by nia. nia.
Qed.

(** Two numbers [Q * i] and [Q * j] at least [C] apart, each rounded to a
    multiple of a unit that divides [C], the unit of the smaller not above
    that of the larger: the integer parts of the rounded numbers, in units
    of [C], differ. *)
Lemma floor_of_rounded_lt (C Q i j RX RY wx wy : Z) :
  0 < C → C <= Q → 0 <= i → i < j →
  0 < wx → wx <= wy →
  (wx | C) → (wy | C) → (wx | RX) → (wy | RY) →
  - wx <= 2 * RX - 2 * (Q * i) <= wx →
  - wy <= 2 * RY - 2 * (Q * j) <= wy →
  RX / C < RY / C.
Proof.
  intros HC HQ Hi Hij Hwx Hw Hdx Hdy HRX HRY Hx Hy.
  set (n := RX / C + 1).
  assert (Hlt : RX < C * n).
  { subst n. pose proof (Z.mul_succ_div_gt RX C HC). lia. }
  assert (Hge : C * (n - 1) <= RX).
  { subst n. pose proof (Z.mul_div_le RX C HC). lia. }
  enough (C * n <= RY).
  { pose proof (Z.div_le_lower_bound RY C n HC). lia. }
  assert (Hdn : ∀ c, (wy | C * c)) by (intros c; by apply Z.divide_mul_l).
  assert (Hdn' : ∀ c, (wx | C * c)) by (intros c; by apply Z.divide_mul_l).
  destruct (Z.le_gt_cases (C * n) (Q * j)) as [Hbig|Hsmall].
  - apply (rounded_ge wy RY (C * n) (Q * j)); [lia|done|done|lia|lia].
  - assert (HX : Q * i <= Q * j - Q) by nia.
    assert (HRXle : RX <= C * (n - 1)).
    { apply (rounded_le wx RX (C * (n - 1)) (Q * i)); [lia|done|done|lia|nia]. }
    assert (HRXeq : RX = C * (n - 1)) by lia.
    destruct (Z.eq_dec (Q * (j - i)) C) as [Heq|Hne].
    + assert (Hj : j = i + 1) by nia.
      assert (HQC : Q = C) by nia.
      subst j Q.
      assert (C * i <= RX).
      { apply (rounded_ge wx RX (C * i) (C * i)); [lia|done|done|lia|lia]. }
      assert (RX <= C * i).
      { apply (rounded_le wx RX (C * i) (C * i)); [lia|done|done|lia|lia]. }
      nia.
    + assert (C < Q * (j - i)) by nia.
      apply (rounded_ge wy RY (C * n) (Q * j)); [lia|done|done|lia|nia].
Qed.

End Floors.

Section FloatValues.
Import Py Rounding.

(** [int()] of a rounded number: the integer part of [k * 2 ^ E]. *)
Lemma int_of_rounded (k E e : Z) :
  0 <= k → E <= 0 → E <= e <= E + 1 →
  k = k / 2 ^ (e - E) * 2 ^ (e - E) →
  Binary64.int
    match k / 2 ^ (e - E) with
    | Z0 => S754_zero false
    | Z.pos m =>
        if e <=? Binary64.emax - Binary64.prec
        then S754_finite false m e else S754_infinity false
    | Z.neg _ => S754_nan
    end
  = Ok (k / 2 ^ (- E)).
Proof.
  intros Hk HE He Hexact.
  assert (Hp : 0 < 2 ^ (e - E)) by (apply pow2_pos; lia).
  assert (HpE : 0 < 2 ^ (- E)) by (apply pow2_pos; lia).
  destruct (k / 2 ^ (e - E)) as [|m|m] eqn:Hm.
  - cbn. rewrite Hexact. cbn. by rewrite Z.div_0_l by lia.
  - assert (Hle : (e <=? Binary64.emax - Binary64.prec) = true).
    { apply Z.leb_le. unfold Binary64.emax, Binary64.prec. lia. }
    rewrite Hle. cbn [Binary64.int]. f_equal. rewrite Hexact.
    destruct (Z.leb_spec 0 e) as [He0|He0].
    + replace (e - E) with (e + - E) by lia.
      rewrite Z.pow_add_r, Z.mul_assoc, Z.div_mul by lia. done.
    + replace (- E) with (- e + (e - E)) by lia.
      rewrite Z.pow_add_r by lia.
      rewrite Z.div_mul_cancel_r by lia. done.
  - pose proof (Z.div_pos k (2 ^ (e - E)) Hk Hp). lia.
Qed.

Lemma Pos_iter_xO (p n : positive) :
  Z.pos (Pos.iter xO p n) = Z.pos p * 2 ^ Z.pos n.
Proof.
  induction n as [|n IH] using Pos.peano_ind.
  - cbn. lia.
  - rewrite Pos.iter_succ, Pos2Z.inj_succ, Z.pow_succ_r by lia.
    rewrite (Pos2Z.inj_xO (Pos.iter xO p n)), IH. ring.
Qed.

(** The float of a positive integer below [2 ^ 53] is that integer, with
    a mantissa of 53 digits. *)
Lemma of_int_pos (i : Z) :
  0 < i < 2 ^ 53 →
  ∃ mi, Binary64.of_int i = S754_finite false mi (Zdigits2 i - 53)
        ∧ Z.pos mi = i * 2 ^ (53 - Zdigits2 i)
        ∧ 0 < Zdigits2 i <= 53.
Proof.
  intros Hi. destruct i as [|p|p]; [lia| |lia].
  destruct (Zdigits2_bounds (Z.pos p)) as (Hd0 & Hlo & Hhi); [lia|].
  assert (Hd : Zdigits2 (Z.pos p) <= 53) by (apply Zdigits2_le; lia).
  set (d := Zdigits2 (Z.pos p)) in *.
  unfold Binary64.of_int, binary_normalize, binary_round.
  change (Z.pos (digits2_pos p)) with d.
  rewrite Z.add_0_r, fexp_eq. replace (Z.max (d - 53) (-1074)) with (d - 53)
    by lia.
  unfold shl_align.
  assert (Hz : ∃ mz, (match d - 53 - 0 with
                      | Z.neg q => (Pos.iter xO p q, d - 53)
                      | _ => (p, 0)
                      end) = (mz, d - 53)
                     ∧ Z.pos mz = Z.pos p * 2 ^ (53 - d)).
  { destruct (d - 53 - 0) as [|q|q] eqn:Hq; [|lia|].
    - exists p. replace (d - 53) with 0 by lia.
      replace (53 - d) with 0 by lia. split; [done|]. cbn. lia.
    - exists (Pos.iter xO p q). split; [done|].
      rewrite Pos_iter_xO. f_equal. f_equal. lia. }
  destruct Hz as (mz & -> & Hmz).
  exists mz. split; [|by split].
  assert (H2 : 2 ^ 52 <= Z.pos mz < 2 ^ 53).
  { rewrite Hmz.
    assert (Hp : 0 < 2 ^ (53 - d)) by (apply pow2_pos; lia).
    assert (E1 : 2 ^ 52 = 2 ^ (d - 1) * 2 ^ (53 - d)).
    { rewrite <- Z.pow_add_r by lia. f_equal. lia. }
    assert (E2 : 2 ^ 53 = 2 ^ d * 2 ^ (53 - d)).
    { rewrite <- Z.pow_add_r by lia. f_equal. lia. }
    rewrite E1, E2. nia. }
  assert (Hdz : Zdigits2 (Z.pos mz) = 53).
  { apply Z.le_antisymm; [apply Zdigits2_le; lia|apply Zdigits2_ge; lia]. }
  destruct (binary_round_aux_spec (Z.pos mz) (d - 53) loc_Exact (Z.pos mz) 1)
    as (k & Hk & Hnear & He & Hexact & Hres).
  { apply shr_record_of_loc_exact. lia. }
  cbn zeta in *.
  set (E := Z.max (fexp Binary64.prec Binary64.emax
                     (Zdigits2 (Z.pos mz) + (d - 53))) (d - 53)) in *.
  assert (HE : E = d - 53) by (subst E; rewrite Hdz, fexp_eq; lia).
  clearbody E. subst E.
  rewrite Z.sub_diag in Hnear. change (2 ^ 0) with 1 in Hnear.
  assert (k = Z.pos mz) as -> by lia.
  set (e := Z.max (fexp Binary64.prec Binary64.emax
                     (Zdigits2 (Z.pos mz) + (d - 53))) (d - 53)) in *.
  assert (He' : e = d - 53) by (subst e; rewrite Hdz, fexp_eq; lia).
  clearbody e. subst e.
  rewrite Hres, Z.sub_diag. change (2 ^ 0) with 1. rewrite Z.div_1_r.
  assert (Hle : (d - 53 <=? Binary64.emax - Binary64.prec) = true).
  { apply Z.leb_le. unfold Binary64.emax, Binary64.prec. lia. }
  by rewrite Hle.
Qed.

End FloatValues.

Section Division.
Import Py Rounding.

Lemma new_location_represents (m2 r q0 : Z) :
  0 < m2 → 0 <= r < m2 → 0 <= q0 →
  represents (shr_record_of_loc q0 (new_location m2 r)) (q0 * m2 + r) m2.
Proof.
  intros Hm2 Hr Hq. unfold represents. rewrite shr_m_of_loc.
  split; [done|]. split; [done|].
  unfold new_location, new_location_even, new_location_odd.
  destruct (Z.even m2) eqn:Hev.
  - destruct (Z.eqb_spec r 0) as [->|Hr0]; [cbn; lia|].
    destruct (Z.compare_spec (2 * r) m2); cbn; lia.
  - assert (Hodd : ∃ c, m2 = 2 * c + 1).
    { apply Z.odd_spec. rewrite <- Z.negb_even. by rewrite Hev. }
    destruct Hodd as [c ->].
    destruct (Z.eqb_spec r 0) as [->|Hr0]; [cbn; lia|].
    destruct (Z.compare_spec (2 * r + 1) (2 * c + 1)); cbn; lia.
Qed.

Lemma SFdiv_core_binary_spec (m1 m2 : positive) (e1 e2 : Z) :
  let e' := Z.min (fexp Binary64.prec Binary64.emax
                     (Zdigits2 (Z.pos m1) + e1 - (Zdigits2 (Z.pos m2) + e2)))
                  (e1 - e2) in
  let m' := Z.pos m1 * 2 ^ (e1 - e2 - e') in
  SFdiv_core_binary Binary64.prec Binary64.emax (Z.pos m1) e1 (Z.pos m2) e2
  = (m' / Z.pos m2, e', new_location (Z.pos m2) (m' mod Z.pos m2)).
Proof.
  intros e' m'. unfold SFdiv_core_binary. cbv zeta. fold e'.
  assert (Hs : 0 <= e1 - e2 - e') by lia.
  assert (Hm' : match e1 - e2 - e' with
                | 0 => Z.pos m1
                | Z.pos _ => Z.shiftl (Z.pos m1) (e1 - e2 - e')
                | Z.neg _ => 0
                end = m').
  { subst m'. destruct (e1 - e2 - e') as [|s|s] eqn:Hse; [|  |lia].
    - cbn. lia.
    - by rewrite Z.shiftl_mul_pow2. }
  rewrite Hm'. unfold Z.div, Z.modulo.
  by destruct (Z.div_eucl m' (Z.pos m2)).
Qed.

(** The bounds on the value of a frame rate, on its mantissa and exponent. *)
Lemma to_Q_range (fps : spec_float) (v : Q) :
  Binary64.to_Q fps = Some v → (1 # 1000 <= v)%Q → (v <= 1000)%Q →
  ∃ m e,
    fps = S754_finite false m e
    ∧ ((0 <= e ∧ Z.pos m * 2 ^ e <= 1000)
       ∨ (e < 0 ∧ Z.pos m <= 1000 * 2 ^ (- e)
          ∧ 2 ^ (- e) <= 1000 * Z.pos m)).
Proof.
  destruct fps as [s|s| |s m e]; cbn [Binary64.to_Q]; try done.
  - intros [= <-] Hlo _. by vm_compute in Hlo.
  - intros [= <-] Hlo Hhi. exists m, e.
    destruct (Z.leb_spec 0 e) as [He|He].
    + assert (Hp : 0 < 2 ^ e) by by apply pow2_pos.
      destruct s.
      * unfold Qle in Hlo. cbn in Hlo. nia.
      * split; [done|]. left. split; [done|].
        unfold Qle in Hhi. cbn in Hhi. lia.
    + assert (Hp : 0 < 2 ^ (- e)) by (apply pow2_pos; lia).
      assert (Hden : Z.pos (Z.to_pos (2 ^ (- e))) = 2 ^ (- e))
        by (apply Z2Pos.id; lia).
      destruct s.
      * unfold Qle in Hlo. cbn in Hlo. lia.
      * split; [done|]. right. split; [done|].
        unfold Qle in Hlo, Hhi. cbn in Hlo, Hhi.
        rewrite Hden in *. lia.
Qed.

End Division.

Section Quotient.
Import Py Rounding.

Lemma pow2_split (a b : Z) : 0 <= a → 0 <= b → 2 ^ (a + b) = 2 ^ a * 2 ^ b.
Proof. intros. by apply Z.pow_add_r. Qed.

(** The size of a frame rate between 1/1000 and 1000. *)
Lemma frame_rate_size (m : positive) (e : Z) :
  (0 <= e ∧ Z.pos m * 2 ^ e <= 1000)
  ∨ (e < 0 ∧ Z.pos m <= 1000 * 2 ^ (- e) ∧ 2 ^ (- e) <= 1000 * Z.pos m) →
  -9 <= Zdigits2 (Z.pos m) + e <= 10.
Proof.
  intros H.
  destruct (Zdigits2_bounds (Z.pos m)) as (Hd0 & Hlo & Hhi); [lia|].
  set (d := Zdigits2 (Z.pos m)) in *.
  destruct H as [[He Hv]|(He & Hhi' & Hlo')].
  - split; [lia|].
    destruct (Z.le_gt_cases (d + e) 10) as [|Hgt]; [done|exfalso].
    assert (2 ^ 10 <= 2 ^ (d - 1 + e)) by (apply Z.pow_le_mono_r; lia).
    rewrite pow2_split in * by lia.
    assert (0 < 2 ^ e) by by apply pow2_pos.
    change (2 ^ 10) with 1024 in *. nia.
  - split.
    + destruct (Z.le_gt_cases (-9) (d + e)) as [|Hgt]; [done|exfalso].
      assert (2 ^ (10 + d) <= 2 ^ (- e)) by (apply Z.pow_le_mono_r; lia).
      rewrite pow2_split in * by lia. change (2 ^ 10) with 1024 in *. nia.
    + destruct (Z.le_gt_cases (d + e) 10) as [|Hgt]; [done|exfalso].
      assert (2 ^ (10 + - e) <= 2 ^ (d - 1)) by (apply Z.pow_le_mono_r; lia).
      rewrite pow2_split in * by lia. change (2 ^ 10) with 1024 in *.
      assert (0 < 2 ^ (- e)) by (apply pow2_pos; lia). nia.
Qed.


(** [1000 / fps] for a frame rate between 1/1000 and 1000: a float
    between 1 and [2 ^ 20]. *)
Lemma truediv_1000 (fps : spec_float) (v : Q) :
  Binary64.to_Q fps = Some v → (1 # 1000 <= v)%Q → (v <= 1000)%Q →
  ∃ mq eq,
    Binary64.truediv (Binary64.of_int 1000) fps
    = Ok (S754_finite false mq eq)
    ∧ eq <= 0 ∧ 2 ^ (- eq) <= Z.pos mq <= 2 ^ (20 - eq).
Proof.
  intros Hv Hlo Hhi.
  destruct (to_Q_range fps v Hv Hlo Hhi) as (m & e & -> & Hrange).
  pose proof (frame_rate_size m e Hrange) as Hsize.
  destruct (Zdigits2_bounds (Z.pos m)) as (Hd0 & Hmlo & Hmhi); [lia|].
  unfold Binary64.truediv. cbn [Binary64.is_zero].
  assert (H1000 : Binary64.of_int 1000
                  = S754_finite false 8796093022208000 (-43))
    by (vm_compute; reflexivity).
  rewrite H1000. unfold SFdiv. cbn [xorb]. rewrite SFdiv_core_binary_spec.
  assert (Hd1 : Zdigits2 8796093022208000 = 53) by (vm_compute; reflexivity).
  rewrite Hd1. set (d := Zdigits2 (Z.pos m)) in *.
  assert (He' : Z.min (fexp Binary64.prec Binary64.emax (53 + -43 - (d + e)))
                  (-43 - e) = -43 - d - e) by (rewrite fexp_eq; lia).
  rewrite He'. replace (-43 - e - (-43 - d - e)) with d by lia.
  set (m' := 8796093022208000 * 2 ^ d).
  set (q0 := m' / Z.pos m). set (r := m' mod Z.pos m).
  assert (Hpd : 0 < 2 ^ d) by (apply pow2_pos; lia).
  assert (Hpd1 : 2 ^ d = 2 * 2 ^ (d - 1)).
  { replace d with (1 + (d - 1)) at 1 by lia. by rewrite pow2_split by lia. }
  assert (Hdm : m' = q0 * Z.pos m + r).
  { subst q0 r. rewrite Z.mul_comm. apply Z.div_mod. lia. }
  assert (Hr : 0 <= r < Z.pos m) by (subst r; apply Z.mod_pos_bound; lia).
  assert (Hq0lo : 2 ^ 52 <= q0).
  { subst q0. apply Z.div_le_lower_bound; [lia|].
    subst m'. change (2 ^ 52) with 4503599627370496. nia. }
  assert (Hq0hi : q0 < 2 ^ 54).
  { subst q0. apply Z.div_lt_upper_bound; [lia|].
    subst m'. change (2 ^ 54) with 18014398509481984. nia. }
  assert (Hdq : 53 <= Zdigits2 q0 <= 54).
  { split; [apply Zdigits2_ge; lia|apply Zdigits2_le; lia]. }
  destruct (binary_round_aux_spec q0 (-43 - d - e)
              (new_location (Z.pos m) r) m' (Z.pos m))
    as (k & Hk & Hnear & He & Hexact & ->).
  { rewrite Hdm. apply new_location_represents; lia. }
  cbn zeta in *.
  set (E := Z.max (fexp Binary64.prec Binary64.emax
                     (Zdigits2 q0 + (-43 - d - e))) (-43 - d - e)) in *.
  assert (HE : E = Zdigits2 q0 - 96 - d - e)
    by (subst E; rewrite fexp_eq; lia).
  clearbody E.
  set (eq := Z.max (fexp Binary64.prec Binary64.emax (Zdigits2 k + E)) E)
    in *.
  clearbody eq.
  set (n := E - (-43 - d - e)) in *.
  assert (Hn : 0 <= n <= 1) by lia.
  assert (Hpn : 0 < 2 ^ n) by (apply pow2_pos; lia).
  assert (HpE : 0 < 2 ^ (- E)) by (apply pow2_pos; lia).
  (* the quotient is between 1 and 2^20 *)
  assert (Hscale : 2 ^ n * 2 ^ (- E) = 2 ^ (43 + d + e)).
  { rewrite <- pow2_split by lia. f_equal; lia. }
  assert (Hp43 : 0 < 2 ^ (43 + d + e)) by (apply pow2_pos; lia).
  assert (HM : m' = 1000 * 2 ^ (43 + d)).
  { subst m'. rewrite pow2_split by lia. change (2 ^ 43) with 8796093022208.
    lia. }
  assert (Hp43d : 0 < 2 ^ (43 + d)) by (apply pow2_pos; lia).
  assert (HI1 : Z.pos m * 2 ^ (43 + d + e) <= m').
  { rewrite HM. destruct Hrange as [[He0 Hv']|(He0 & Hv' & _)].
    - rewrite (pow2_split (43 + d) e) by lia. nia.
    - assert (Hsp : 2 ^ (43 + d) = 2 ^ (43 + d + e) * 2 ^ (- e)).
      { rewrite <- pow2_split by lia. f_equal; lia. }
      rewrite Hsp. nia. }
  assert (HI2 : m' <= 2 ^ 20 * (Z.pos m * 2 ^ (43 + d + e))).
  { rewrite HM. change (2 ^ 20) with 1048576.
    destruct Hrange as [[He0 Hv']|(He0 & _ & Hv')].
    - rewrite (pow2_split (43 + d) e) by lia.
      assert (0 < 2 ^ e) by by apply pow2_pos. nia.
    - assert (Hsp : 2 ^ (43 + d) = 2 ^ (43 + d + e) * 2 ^ (- e)).
      { rewrite <- pow2_split by lia. f_equal; lia. }
      rewrite Hsp. nia. }
  rewrite <- Hscale in HI1, HI2.
  set (D' := Z.pos m * 2 ^ n) in *.
  assert (HD' : 0 < D') by (subst D'; nia).
  assert (HI1' : D' * 2 ^ (- E) <= m') by (subst D'; lia).
  assert (HI2' : m' <= 2 ^ 20 * (D' * 2 ^ (- E))) by (subst D'; lia).
  assert (Hklo : 2 ^ (- E) <= k) by nia.
  assert (Hkhi : k <= 2 ^ 20 * 2 ^ (- E)) by nia.
  (* the float that comes out *)
  assert (Hpq : 0 < 2 ^ (eq - E)) by (apply pow2_pos; lia).
  assert (Hpe : 0 < 2 ^ (- eq)) by (apply pow2_pos; lia).
  assert (HsE : 2 ^ (- E) = 2 ^ (eq - E) * 2 ^ (- eq)).
  { rewrite <- pow2_split by lia. f_equal; lia. }
  set (P := 2 ^ (eq - E)) in *.
  destruct (k / P) as [|mq|mq] eqn:Hmq; [lia| |lia].
  assert (Hle : (eq <=? Binary64.emax - Binary64.prec) = true).
  { apply Z.leb_le. unfold Binary64.emax, Binary64.prec. lia. }
  rewrite Hle. exists mq, eq. split; [done|]. split; [lia|].
  assert (Hs20 : 2 ^ (20 - eq) = 2 ^ 20 * 2 ^ (- eq)).
  { rewrite <- pow2_split by lia. f_equal; lia. }
  rewrite Hs20. rewrite HsE in Hklo, Hkhi. split.
  - apply (Z.mul_le_mono_pos_r _ _ P); [done|]. lia.
  - apply (Z.mul_le_mono_pos_r _ _ P); [done|]. lia.
Qed.

End Quotient.

Section ProductFacts.
Import Py Rounding Products.

Lemma Zdigits2_mono (i j : Z) : 0 < i → i <= j → Zdigits2 i <= Zdigits2 j.
Proof.
  intros Hi Hij.
  destruct (Zdigits2_bounds j) as (Hd & _ & Hhi); [lia|].
  apply Zdigits2_le; lia.
Qed.

(** A larger integer is not rounded at a smaller exponent. *)
Lemma product_exponent_mono (mq : positive) (eq i j : Z) :
  0 < i → i <= j → j < 2 ^ 53 →
  product_exponent mq eq i <= product_exponent mq eq j.
Proof.
  intros Hi Hij Hj. unfold product_exponent. cbn zeta.
  pose proof (Zdigits2_mono i j Hi Hij) as Hd.
  destruct (Zdigits2_bounds i) as (Hdi0 & _ & _); [lia|].
  destruct (Zdigits2_bounds j) as (Hdj0 & _ & _); [lia|].
  assert (Hdj53 : Zdigits2 j <= 53) by (apply Zdigits2_le; lia).
  set (di := Zdigits2 i) in *. set (dj := Zdigits2 j) in *.
  set (Ni := Z.pos mq * (i * 2 ^ (53 - di))).
  set (Nj := Z.pos mq * (j * 2 ^ (53 - dj))).
  assert (Hpi : 0 < 2 ^ (53 - di)) by (apply pow2_pos; lia).
  assert (Hpj : 0 < 2 ^ (53 - dj)) by (apply pow2_pos; lia).
  assert (HNi : 0 < Ni)
    by (subst Ni; apply Z.mul_pos_pos; [lia|apply Z.mul_pos_pos; lia]).
  assert (HNj : 0 < Nj)
    by (subst Nj; apply Z.mul_pos_pos; [lia|apply Z.mul_pos_pos; lia]).
  destruct (Zdigits2_bounds Ni HNi) as (Hgi0 & Hgilo & _).
  destruct (Zdigits2_bounds Nj HNj) as (Hgj0 & _ & Hgjhi).
  set (gi := Zdigits2 Ni) in *. set (gj := Zdigits2 Nj) in *.
  assert (Hmag : gi + di <= gj + dj).
  { assert (Hsi : Ni * 2 ^ di = Z.pos mq * i * 2 ^ 53).
    { subst Ni. rewrite <- !Z.mul_assoc, <- pow2_split by lia.
      by replace (53 - di + di) with 53 by lia. }
    assert (Hsj : Nj * 2 ^ dj = Z.pos mq * j * 2 ^ 53).
    { subst Nj. rewrite <- !Z.mul_assoc, <- pow2_split by lia.
      by replace (53 - dj + dj) with 53 by lia. }
    assert (Hle : Ni * 2 ^ di <= Nj * 2 ^ dj).
    { rewrite Hsi, Hsj. apply Z.mul_le_mono_nonneg_r; [lia|].
      apply Z.mul_le_mono_nonneg_l; lia. }
    assert (Hpdi : 0 < 2 ^ di) by (apply pow2_pos; lia).
    assert (Hpdj : 0 < 2 ^ dj) by (apply pow2_pos; lia).
    assert (Hlt : 2 ^ (gi - 1 + di) < 2 ^ (gj + dj)).
    { rewrite !pow2_split by lia.
      apply Z.le_lt_trans with (Ni * 2 ^ di).
      - apply Z.mul_le_mono_nonneg_r; lia.
      - apply Z.le_lt_trans with (Nj * 2 ^ dj); [done|].
        apply Z.mul_lt_mono_pos_r; lia. }
    apply Z.pow_lt_mono_r_iff in Hlt; lia. }
  rewrite !fexp_eq. lia.
Qed.

(** The timestamp of a positive frame number, for a quotient [1000 / fps]
    between 1 and [2 ^ 20]: the integer part of a mantissa [k] at the
    exponent [E], which is nearest to the exact product. *)
Lemma product_timestamp (mq : positive) (eq i : Z) :
  eq <= 0 → 2 ^ (- eq) <= Z.pos mq <= 2 ^ (20 - eq) →
  0 < i <= 2 ^ 32 →
  let E := product_exponent mq eq i in
  ∃ k,
    E <= 0 ∧ eq - 52 <= E ∧ 0 <= k
    ∧ - 2 ^ (52 - eq + E)
      <= 2 * (k * 2 ^ (52 - eq + E)) - 2 * (Z.pos mq * 2 ^ 52 * i)
      <= 2 ^ (52 - eq + E)
    ∧ (n ← Binary64.float_of_int i;
       Binary64.int (Binary64.mul (S754_finite false mq eq) n))
      = Ok (k / 2 ^ (- E)).
Proof.
  intros Heq Hmq Hi E.
  destruct (of_int_pos i) as (mi & Hof & Hmi & Hd).
  { split; [lia|]. change (2 ^ 53) with 9007199254740992.
    change (2 ^ 32) with 4294967296 in Hi. lia. }
  unfold Binary64.float_of_int. rewrite Hof. cbn [mbind result_bind bind].
  unfold Binary64.mul, SFmul. cbn [xorb].
  rewrite Pos2Z.inj_mul, Hmi.
  set (d := Zdigits2 i) in *.
  set (N := Z.pos mq * (i * 2 ^ (53 - d))).
  set (ex := eq + (d - 53)).
  assert (Hpd : 0 < 2 ^ (53 - d)) by (apply pow2_pos; lia).
  assert (HN : 0 < N)
    by (subst N; apply Z.mul_pos_pos; [lia|apply Z.mul_pos_pos; lia]).
  destruct (binary_round_aux_spec N ex loc_Exact N 1)
    as (k & Hk & Hnear & He & Hexact & ->).
  { apply shr_record_of_loc_exact. lia. }
  cbn zeta in *.
  change (Z.max (fexp Binary64.prec Binary64.emax (Zdigits2 N + ex)) ex)
    with E in *.
  (* the product is below 2^53 *)
  destruct (Zdigits2_bounds i) as (_ & Hilo & _); [lia|]. fold d in Hilo.
  assert (HNhi : N < 2 ^ (53 - ex)).
  { subst N ex.
    assert (Hs : 2 ^ (53 - (eq + (d - 53)))
                 = 2 * (2 ^ (20 - eq) * (2 ^ 32 * 2 ^ (53 - d)))).
    { replace (53 - (eq + (d - 53)))
        with (1 + ((20 - eq) + (32 + (53 - d)))) by lia.
      rewrite (pow2_split 1), (pow2_split (20 - eq)), (pow2_split 32) by lia.
      done. }
    rewrite Hs.
    assert (Hp20 : 0 < 2 ^ (20 - eq)) by (apply pow2_pos; lia).
    assert (Z.pos mq * (i * 2 ^ (53 - d))
            <= 2 ^ (20 - eq) * (2 ^ 32 * 2 ^ (53 - d))).
    { apply Z.mul_le_mono_nonneg; [lia|lia| |].
      - apply Z.mul_nonneg_nonneg; lia.
      - apply Z.mul_le_mono_nonneg_r; lia. }
    assert (0 < 2 ^ (20 - eq) * (2 ^ 32 * 2 ^ (53 - d))).
    { apply Z.mul_pos_pos; [done|]. apply Z.mul_pos_pos; [done|done]. }
    lia. }
  assert (HdN : Zdigits2 N + ex <= 53).
  { assert (Zdigits2 N <= 53 - ex) by (apply Zdigits2_le; lia). lia. }
  assert (HE0 : E <= 0).
  { subst E. unfold product_exponent. cbn zeta. fold d N ex.
    rewrite fexp_eq. lia. }
  assert (HEex : ex <= E).
  { subst E. unfold product_exponent. cbn zeta. fold d N ex. lia. }
  exists k. split; [done|]. split; [lia|]. split; [lia|]. split.
  - assert (Hs1 : 2 ^ (52 - eq + E) = 2 ^ (E - ex) * 2 ^ (d - 1)).
    { rewrite <- pow2_split by lia. f_equal. lia. }
    assert (Hs2 : Z.pos mq * 2 ^ 52 * i = N * 2 ^ (d - 1)).
    { subst N. replace 52 with (53 - d + (d - 1)) at 1 by lia.
      rewrite pow2_split by lia. ring. }
    rewrite Hs1, Hs2. rewrite Z.mul_1_l in Hnear.
    assert (Hp1 : 0 < 2 ^ (d - 1)) by (apply pow2_pos; lia).
    set (P := 2 ^ (E - ex)) in *. set (T := 2 ^ (d - 1)) in *.
    split.
    + replace (- (P * T)) with ((- P) * T) by ring.
      replace (2 * (k * (P * T)) - 2 * (N * T))
        with ((2 * k * P - 2 * N) * T) by ring.
      apply Z.mul_le_mono_nonneg_r; lia.
    + replace (2 * (k * (P * T)) - 2 * (N * T))
        with ((2 * k * P - 2 * N) * T) by ring.
      apply Z.mul_le_mono_nonneg_r; lia.
  - apply int_of_rounded; [lia|done|done|done].
Qed.

End ProductFacts.

Section FloatTimestamps.
Import Py Fo RunMediapipe Rounding Products.

(** The float timestamps of two frame numbers, for a frame rate between
    1/1000 and 1000 frames per second: both are computed, and the one of
    the larger number is the larger. *)
Lemma frame_timestamp_ms_lt (fps : spec_float) (v : Q) (i j : Z) :
  Binary64.to_Q fps = Some v → (1 # 1000 <= v)%Q → (v <= 1000)%Q →
  0 <= i → i < j → j <= 2 ^ 32 →
  ∃ t t',
    frame_timestamp_ms fps i = Ok t
    ∧ frame_timestamp_ms fps j = Ok t' ∧ t < t'.
Proof.
  intros Hv Hlo Hhi Hi Hij Hj.
  destruct (truediv_1000 fps v Hv Hlo Hhi) as (mq & eq & Hq & Heq & Hmq).
  unfold frame_timestamp_ms. rewrite Hq. cbn [mbind result_bind bind].
  destruct (product_timestamp mq eq j Heq Hmq) as (kj & HEj & HEj' & Hkj & Hnj & ->);
    [lia|].
  set (Ej := product_exponent mq eq j) in *.
  set (c := 52 - eq).
  assert (HC : 0 < 2 ^ c) by (apply pow2_pos; lia).
  assert (Hwj : 0 < 2 ^ (c + Ej)) by (apply pow2_pos; lia).
  assert (HQ : 2 ^ c <= Z.pos mq * 2 ^ 52).
  { subst c. replace (52 - eq) with (- eq + 52) by lia.
    rewrite pow2_split by lia. apply Z.mul_le_mono_nonneg_r; lia. }
  assert (Hdiv : ∀ E, E <= 0 → eq - 52 <= E → (2 ^ (c + E) | 2 ^ c)).
  { intros E HE HE'. exists (2 ^ (- E)). rewrite <- pow2_split by lia.
    f_equal. lia. }
  assert (Hfloor : ∀ k E, E <= 0 → eq - 52 <= E →
            k * 2 ^ (c + E) / 2 ^ c = k / 2 ^ (- E)).
  { intros k E HE HE'.
    replace (2 ^ c) with (2 ^ (- E) * 2 ^ (c + E)).
    - rewrite Z.div_mul_cancel_r; [done| |].
      + assert (0 < 2 ^ (- E)) by (apply pow2_pos; lia). lia.
      + assert (0 < 2 ^ (c + E)) by (apply pow2_pos; lia). lia.
    - rewrite <- pow2_split by lia. f_equal. lia. }
  replace (52 - eq + Ej) with (c + Ej) in Hnj by lia.
  destruct (Z.eq_dec i 0) as [->|Hi0].
  - exists 0, (kj / 2 ^ (- Ej)). split; [done|]. split; [done|].
    rewrite <- (Hfloor kj Ej HEj HEj').
    change 0 with (0 / 2 ^ c) at 1.
    apply (floor_of_rounded_lt (2 ^ c) (Z.pos mq * 2 ^ 52) 0 j
             0 (kj * 2 ^ (c + Ej)) (2 ^ (c + Ej)) (2 ^ (c + Ej)));
      try done; try lia.
    + by apply Hdiv.
    + by apply Hdiv.
    + apply Z.divide_0_r.
    + apply Z.divide_factor_r.
  - destruct (product_timestamp mq eq i Heq Hmq)
      as (ki & HEi & HEi' & Hki & Hni & ->); [lia|].
    set (Ei := product_exponent mq eq i) in *.
    replace (52 - eq + Ei) with (c + Ei) in Hni by lia.
    assert (Hwi : 0 < 2 ^ (c + Ei)) by (apply pow2_pos; lia).
    assert (Hmono : Ei <= Ej).
    { apply product_exponent_mono; [lia|lia|].
      change (2 ^ 53) with 9007199254740992.
      change (2 ^ 32) with 4294967296 in Hj. lia. }
    exists (ki / 2 ^ (- Ei)), (kj / 2 ^ (- Ej)).
    split; [done|]. split; [done|].
    rewrite <- (Hfloor ki Ei HEi HEi'), <- (Hfloor kj Ej HEj HEj').
    apply (floor_of_rounded_lt (2 ^ c) (Z.pos mq * 2 ^ 52) i j
             (ki * 2 ^ (c + Ei)) (kj * 2 ^ (c + Ej))
             (2 ^ (c + Ei)) (2 ^ (c + Ej)));
      try done; try lia.
    + apply Z.pow_le_mono_r; lia.
    + by apply Hdiv.
    + by apply Hdiv.
    + apply Z.divide_factor_r.
    + apply Z.divide_factor_r.
Qed.

End FloatTimestamps.

(** ** The frame loop of [run_mp] *)

Section FrameLoop.
Import Py Fo RunMediapipe.
Context {Image : Type}.
Context (infer : @Landmarker Image → Image → Z → HandLandmarkerResult).
Context (cvtColor_BGR2RGB : Image → Image).

Local Abbreviation frame_loop :=
  (RunMediapipe.frame_loop infer cvtColor_BGR2RGB).
Local Abbreviation run_mp_sample :=
  (RunMediapipe.run_mp_sample infer cvtColor_BGR2RGB).

Lemma read_cons (cap : VideoCapture Image) r rest :
  reads cap = r :: rest →
  read cap = (r, {| reads := rest;
                    CAP_PROP_FRAME_COUNT := CAP_PROP_FRAME_COUNT cap;
                    CAP_PROP_FPS := CAP_PROP_FPS cap |}).
Proof. intros H. unfold read. now rewrite H. Qed.

Lemma read_nil (cap : VideoCapture Image) :
  reads cap = [] → read cap = (None, cap).
Proof. intros H. unfold read. now rewrite H. Qed.

(** The loop never changes which frame records exist, nor their order. *)
Lemma frame_loop_numbers fps field cap lm items :
  frame_numbers (end_frames (frame_loop fps field cap lm items))
  = frame_numbers items.
Proof.
  revert cap lm. induction items as [|[n fr] rest IH]; intros cap lm; [done|].
  cbn [RunMediapipe.frame_loop].
  destruct (read cap) as [[img|] cap']; [|done].
  destruct (frame_timestamp_ms fps n) as [ts|e]; [|done].
  destruct (detect_hands _ _ _ _) as [kps lm'].
  cbn. f_equal. apply IH.
Qed.

(** Whatever the frame rate, the records from the first failed read on
    come out of the loop as they went in. *)
Lemma frame_loop_tail fps field cap lm items :
  drop (decoded (reads cap)) (end_frames (frame_loop fps field cap lm items))
  = drop (decoded (reads cap)) items.
Proof.
  revert cap lm. induction items as [|[n fr] rest IH]; intros cap lm.
  - cbn. by rewrite !drop_nil.
  - cbn [RunMediapipe.frame_loop].
    destruct (reads cap) as [|[img|] rds] eqn:Hr.
    + rewrite (read_nil _ Hr). done.
    + rewrite (read_cons _ _ _ Hr).
      destruct (frame_timestamp_ms fps n) as [ts|e]; [|done].
      destruct (detect_hands _ _ _ _) as [kps lm'].
      cbn. specialize (IH {| reads := rds;
                    CAP_PROP_FRAME_COUNT := CAP_PROP_FRAME_COUNT cap;
                    CAP_PROP_FPS := CAP_PROP_FPS cap |} lm'). apply IH.
    + rewrite (read_cons _ _ _ Hr). done.
Qed.

(** Every call of the landmarker carries the timestamp computed for the
    frame record it serves: the calls follow the records in order, and
    there are no more of them than frames that decode. *)
Lemma frame_loop_calls fps field cap lm items :
  ∃ sent,
    timestamps_passed (end_landmarker (frame_loop fps field cap lm items))
    = timestamps_passed lm ++ sent
    ∧ (length sent <= decoded (reads cap))%nat
    ∧ Forall2 (λ i ts, frame_timestamp_ms fps i = Ok ts)
        (take (length sent) (frame_numbers items)) sent.
Proof.
  revert cap lm. induction items as [|[n fr] rest IH]; intros cap lm.
  - exists []. cbn. rewrite app_nil_r. repeat split; [lia|constructor].
  - cbn [RunMediapipe.frame_loop].
    destruct (reads cap) as [|[img|] rds] eqn:Hr.
    + rewrite (read_nil _ Hr). exists []. cbn. rewrite app_nil_r.
      repeat split; constructor.
    + rewrite (read_cons _ _ _ Hr).
      destruct (frame_timestamp_ms fps n) as [ts|e] eqn:Hts.
      * destruct (detect_hands _ _ _ _) as [kps lm'] eqn:Hd.
        destruct (IH {| reads := rds;
                    CAP_PROP_FRAME_COUNT := CAP_PROP_FRAME_COUNT cap;
                    CAP_PROP_FPS := CAP_PROP_FPS cap |} lm')
          as (sent & Hsent & Hlen & Hall).
        exists (ts :: sent). cbn -[timestamps_passed]. cbn in Hlen.
        split; [|split; [lia|by constructor]].
        rewrite Hsent. unfold detect_hands, detect_for_video in Hd.
        injection Hd as _ <-. unfold timestamps_passed. cbn.
        by rewrite <- app_assoc.
      * exists []. cbn. rewrite app_nil_r. repeat split; [lia|constructor].
    + rewrite (read_cons _ _ _ Hr). exists []. cbn. rewrite app_nil_r.
      repeat split; constructor.
Qed.

(** When the timestamp of every frame that decodes can be computed, the
    loop ends without an exception, having annotated exactly the records
    whose read succeeded. *)
Lemma frame_loop_run fps field cap lm items :
  let k := decoded (reads cap) in
  Forall (λ i, is_ok (frame_timestamp_ms fps i) = true)
    (frame_numbers (take k items)) →
  let r := frame_loop fps field cap lm items in
  end_exn r = None
  ∧ Forall2 (annotated field) (take k items) (take k (end_frames r)).
Proof.
  revert cap lm.
  induction items as [|[n fr] rest IH]; intros cap lm k Hok r; subst k r.
  - cbn. rewrite !take_nil. by split.
  - cbn [RunMediapipe.frame_loop].
    destruct (reads cap) as [|[img|] rds] eqn:Hr.
    + rewrite (read_nil _ Hr). cbn. by split.
    + rewrite (read_cons _ _ _ Hr). cbn in Hok.
      inversion Hok as [|? ? Hn Hrest]; subst.
      destruct (frame_timestamp_ms fps n) as [ts|e]; [|done].
      destruct (detect_hands _ _ _ _) as [kps lm'] eqn:Hd.
      specialize (IH {| reads := rds;
                    CAP_PROP_FRAME_COUNT := CAP_PROP_FRAME_COUNT cap;
                    CAP_PROP_FPS := CAP_PROP_FPS cap |} lm' Hrest).
      cbn in IH. destruct IH as (He & Ha).
      cbn. split; [done|]. constructor; [|done]. split; [done|]. by exists kps.
    + rewrite (read_cons _ _ _ Hr). cbn. by split.
Qed.

(** An exception that ends the loop is one that the timestamp of a frame
    record raised. *)
Lemma frame_loop_exn fps field cap lm items e :
  end_exn (frame_loop fps field cap lm items) = Some e →
  ∃ i, i ∈ frame_numbers items ∧ frame_timestamp_ms fps i = Raise e.
Proof.
  revert cap lm. induction items as [|[n fr] rest IH]; intros cap lm; [done|].
  cbn [RunMediapipe.frame_loop].
  destruct (read cap) as [[img|] cap']; [|done].
  destruct (frame_timestamp_ms fps n) as [ts|e'] eqn:Hts.
  - destruct (detect_hands _ _ _ _) as [kps lm']. cbn. intros H.
    apply IH in H as (i & Hi & He). exists i. split; [by right|done].
  - cbn. intros [= <-]. exists n. split; [by left|done].
Qed.

(** With a zero frame rate the first record whose read succeeds raises, and
    nothing has been written or sent to the landmarker. *)
Lemma frame_loop_zero_fps fps field cap lm n fr rest img rds :
  Binary64.is_zero fps = true →
  reads cap = Some img :: rds →
  let r := frame_loop fps field cap lm ((n, fr) :: rest) in
  end_exn r = Some ZeroDivisionError
  ∧ end_frames r = (n, fr) :: rest
  ∧ end_landmarker r = lm.
Proof.
  intros Hfps Hr. cbn [RunMediapipe.frame_loop].
  rewrite (read_cons _ _ _ Hr).
  by rewrite (frame_timestamp_ms_zero_fps _ _ Hfps).
Qed.

Lemma run_mp_sample_landmarker field cap sample :
  snd (run_mp_sample field cap sample)
  = end_landmarker
      (frame_loop (CAP_PROP_FPS cap) field cap [] (frames sample)).
Proof.
  unfold RunMediapipe.run_mp_sample. cbv zeta. by destruct (end_exn _).
Qed.

Lemma run_mp_sample_saved field cap sample :
  end_exn (frame_loop (CAP_PROP_FPS cap) field cap [] (frames sample)) = None →
  fst (run_mp_sample field cap sample)
  = Saved (set_frames
             (end_frames
                (frame_loop (CAP_PROP_FPS cap) field cap [] (frames sample)))
             sample).
Proof.
  intros He. unfold RunMediapipe.run_mp_sample. cbv zeta. by rewrite He.
Qed.

End FrameLoop.

(** ** Frame records by number *)

Section Lookup.
Import Py Fo RunMediapipe.


Lemma frames_lookup_app (n : Z) (l1 l2 : Frames) :
  frames_lookup n (l1 ++ l2)
  = match frames_lookup n l1 with
    | Some fr => Some fr
    | None => frames_lookup n l2
    end.
Proof.
  induction l1 as [|[m fr] l1 IH]; cbn; [done|].
  by destruct (n =? m).
Qed.

Lemma frames_lookup_absent (n : Z) (l : Frames) :
  n ∉ frame_numbers l → frames_lookup n l = None.
Proof.
  induction l as [|[m fr] l IH]; cbn; [done|].
  intros Hn. apply not_elem_of_cons in Hn as [Hne Hn].
  destruct (Z.eqb_spec n m); [done|]. by apply IH.
Qed.

Lemma frames_lookup_present (n : Z) (l : Frames) fr :
  frames_lookup n l = Some fr → n ∈ frame_numbers l.
Proof.
  induction l as [|[m fr'] l IH]; cbn; [done|].
  destruct (Z.eqb_spec n m) as [->|]; intros H.
  - apply elem_of_cons. by left.
  - apply elem_of_cons. right. by apply IH.
Qed.

Lemma frames_lookup_annotated field (n : Z) (l l' : Frames) :
  Forall2 (annotated field) l l' →
  match frames_lookup n l with
  | Some fr =>
      ∃ kps, frames_lookup n l' = Some (<[ field := Keypoints kps ]> fr)
  | None => frames_lookup n l' = None
  end.
Proof.
  induction 1 as [|[m fr] [m' fr'] l l' [Hm [kps Hfr]] _ IH]; cbn; [done|].
  cbn in Hm, Hfr. subst m'. destruct (n =? m); [|exact IH].
  exists kps. by rewrite Hfr.
Qed.

(** In a list sorted by frame number, the records before position [k] are
    numbered below the one at position [k], and those from [k] on are not. *)
Lemma sorted_numbers_split (l : Frames) (k : nat) (nk : Z) :
  StronglySorted Z.lt (frame_numbers l) →
  frame_numbers l !! k = Some nk →
  Forall (λ n, n < nk) (frame_numbers (take k l))
  ∧ Forall (λ n, nk <= n) (frame_numbers (drop k l)).
Proof.
  intros Hs Hk. unfold frame_numbers in *.
  rewrite <- firstn_map, <- skipn_map.
  rewrite (drop_S _ _ _ Hk).
  rewrite <- (take_drop_middle _ _ _ Hk) in Hs.
  apply StronglySorted_app in Hs as (Hlt & _ & Hs2).
  split.
  - apply Forall_forall. intros n Hn. apply Hlt; [done|].
    apply elem_of_cons. by left.
  - inversion Hs2 as [|? ? _ Hgt]; subst. constructor; [lia|].
    eapply Forall_impl; [exact Hgt|]. cbn. lia.
Qed.

End Lookup.

(** ** Increasing timestamps *)

Section Increasing.
Import Py Fo RunMediapipe.

Lemma StronglySorted_take (k : nat) (l : list Z) :
  StronglySorted Z.lt l → StronglySorted Z.lt (take k l).
Proof.
  intros Hs. revert k. induction Hs as [|a l Hs IH Ha]; intros [|k]; cbn;
    try constructor; [apply IH|].
  by apply Forall_take.
Qed.

Lemma sent_above (f : Z → result Z) (ts : Z) (ns sent : list Z) :
  (∀ j t', j ∈ ns → f j = Ok t' → ts < t') →
  Forall2 (λ i ts, f i = Ok ts) ns sent →
  Forall (Z.lt ts) sent.
Proof.
  intros Hf Hall. induction Hall as [|j t' ns sent Hj Hall IH]; constructor.
  - apply (Hf j); [by left|done].
  - apply IH. intros a t'' Ha. apply Hf. by right.
Qed.

Lemma sent_sorted (f : Z → result Z) (ns sent : list Z) :
  (∀ i j t t', i ∈ ns → j ∈ ns → i < j →
               f i = Ok t → f j = Ok t' → t < t') →
  StronglySorted Z.lt ns →
  Forall2 (λ i ts, f i = Ok ts) ns sent →
  StronglySorted Z.lt sent.
Proof.
  intros Hf Hs Hall. induction Hall as [|i ts ns sent Hi Hall IH]; [constructor|].
  inversion Hs as [|? ? Hs' Hlt]; subst. constructor.
  - apply IH; [|done]. intros a b t t' Ha Hb. apply Hf; by right.
  - apply (sent_above f ts ns); [|done].
    intros j t' Hj Hfj. apply (Hf i j); [by left|by right| |done|done].
    eapply Forall_forall in Hlt; [exact Hlt|done].
Qed.

End Increasing.

(** ** The pass of [run_mp] over one sample *)

Section RunMp.
Import Py Fo RunMediapipe.
Context {Image : Type}.
Context (infer : @Landmarker Image → Image → Z → HandLandmarkerResult).
Context (cvtColor_BGR2RGB : Image → Image).

Local Abbreviation frame_loop :=
  (RunMediapipe.frame_loop infer cvtColor_BGR2RGB).
Local Abbreviation run_mp_sample :=
  (RunMediapipe.run_mp_sample infer cvtColor_BGR2RGB).

(** C1 (amended). Every timestamp handed to the landmarker is
    [int(1000 / fps * i)] for the frame number [i] of the record it is sent
    for, the calls following the records in order, one at most for each
    frame that decodes: the float product [1000 / fps * i] truncated toward
    zero, not rounded to nearest.  At 30 frames per second the frames 1 to
    5 get 33, 66, 100, 133 and 166 ms. *)
Theorem timestamps_are_truncated field (cap : VideoCapture Image) sample :
  let fps := CAP_PROP_FPS cap in
  let sent := timestamps_passed (snd (run_mp_sample field cap sample)) in
  Forall2 (λ i ts, frame_timestamp_ms fps i = Ok ts)
    (take (length sent) (frame_numbers (frames sample))) sent
  ∧ (length sent <= decoded (reads cap))%nat
  ∧ (∀ i ts,
       frame_timestamp_ms fps i = Ok ts →
       ∃ q n v,
         Binary64.truediv (Binary64.of_int 1000) fps = Ok q
         ∧ Binary64.float_of_int i = Ok n
         ∧ Binary64.to_Q (Binary64.mul q n) = Some v
         ∧ ts = Z.quot (Qnum v) (Z.pos (Qden v)))
  ∧ map (frame_timestamp_ms (Binary64.of_int 30)) [1; 2; 3; 4; 5]
    = [Ok 33; Ok 66; Ok 100; Ok 133; Ok 166].
Proof.
  intros fps sent. subst sent. rewrite run_mp_sample_landmarker. fold fps.
  destruct (frame_loop_calls infer cvtColor_BGR2RGB fps field cap []
              (frames sample)) as (sent & -> & Hlen & Hall).
  cbn [timestamps_passed map rev app].
  split; [done|]. split; [done|]. split; [|by vm_compute].
  intros i ts Hts. by apply frame_timestamp_ms_truncates.
Qed.

(** C10. The division by the reported frame rate is unguarded.  When the
    rate is zero, the first frame that decodes raises [ZeroDivisionError]:
    the sample is left as it was, unsaved, and the landmarker is never
    called.  When the rate is not zero the division succeeds, no frame
    number makes the timestamp raise [ZeroDivisionError], and the pass over
    the sample never ends in one. *)
Theorem division_by_fps_unguarded field (cap : VideoCapture Image) sample :
  let fps := CAP_PROP_FPS cap in
  (Binary64.is_zero fps = true →
     ∀ n fr rest img rds,
       frames sample = (n, fr) :: rest →
       reads cap = Some img :: rds →
       run_mp_sample field cap sample = (Raised ZeroDivisionError sample, []))
  ∧ (Binary64.is_zero fps = false →
       (∃ q, Binary64.truediv (Binary64.of_int 1000) fps = Ok q)
       ∧ (∀ n, frame_timestamp_ms fps n ≠ Raise ZeroDivisionError)
       ∧ ∀ in_memory,
           fst (run_mp_sample field cap sample)
           ≠ Raised ZeroDivisionError in_memory).
Proof.
  intros fps. split.
  - intros Hfps n fr rest img rds Hf Hr.
    unfold RunMediapipe.run_mp_sample. cbv zeta. rewrite Hf. fold fps.
    destruct (frame_loop_zero_fps infer cvtColor_BGR2RGB fps field cap []
                n fr rest img rds Hfps Hr) as (-> & -> & ->).
    rewrite <- Hf. by destruct sample.
  - intros Hfps.
    split; [apply (frame_timestamp_ms_nonzero_fps fps 0 Hfps)|].
    split; [intros n; apply (frame_timestamp_ms_nonzero_fps fps n Hfps)|].
    intros in_memory. unfold RunMediapipe.run_mp_sample. cbv zeta. fold fps.
    destruct (end_exn _) as [e|] eqn:He; [|done].
    apply frame_loop_exn in He as (i & _ & Hi). cbn [fst]. intros [= -> _].
    by apply (frame_timestamp_ms_nonzero_fps fps i Hfps).
Qed.


End RunMp.

(** ** The float timestamps of [run_mp] *)

Section RunMpFloat.
Import Py Fo RunMediapipe.
Context {Image : Type}.
Context (infer : @Landmarker Image → Image → Z → HandLandmarkerResult).
Context (cvtColor_BGR2RGB : Image → Image).

Local Abbreviation frame_loop :=
  (RunMediapipe.frame_loop infer cvtColor_BGR2RGB).
Local Abbreviation run_mp_sample :=
  (RunMediapipe.run_mp_sample infer cvtColor_BGR2RGB).

Lemma frame_timestamp_ms_ok (fps : spec_float) (v : Q) (n : Z) :
  Binary64.to_Q fps = Some v → (1 # 1000 <= v)%Q → (v <= 1000)%Q →
  0 <= n <= 2 ^ 32 →
  is_ok (frame_timestamp_ms fps n) = true.
Proof.
  intros Hv Hlo Hhi Hn.
  destruct (Z.eq_dec n 0) as [->|Hn0].
  - destruct (frame_timestamp_ms_lt fps v 0 1 Hv Hlo Hhi)
      as (t & t' & -> & _); [lia|lia|by vm_compute|done].
  - destruct (frame_timestamp_ms_lt fps v 0 n Hv Hlo Hhi)
      as (t & t' & _ & -> & _); [lia|lia|lia|done].
Qed.

(** Under the same bounds the timestamps that a pass hands to the
    landmarker are in strictly increasing order. *)
Lemma float_timestamps_sorted field (cap : VideoCapture Image) sample (v : Q) :
  let fps := CAP_PROP_FPS cap in
  Binary64.to_Q fps = Some v → (1 # 1000 <= v)%Q → (v <= 1000)%Q →
  StronglySorted Z.lt (frame_numbers (frames sample)) →
  Forall (λ n, 0 <= n <= 2 ^ 32) (frame_numbers (frames sample)) →
  StronglySorted Z.lt
    (timestamps_passed (snd (run_mp_sample field cap sample))).
Proof.
  intros fps Hv Hlo Hhi Hsorted Hrange.
  rewrite run_mp_sample_landmarker. fold fps.
  destruct (frame_loop_calls infer cvtColor_BGR2RGB fps field cap []
              (frames sample)) as (sent & -> & _ & Hall).
  cbn [timestamps_passed map rev app].
  eapply sent_sorted; [|by apply StronglySorted_take|exact Hall].
  intros i j t t' Hi Hj Hij Hti Htj.
  assert (Hin : ∀ n, n ∈ take (length sent) (frame_numbers (frames sample)) →
                     0 <= n <= 2 ^ 32).
  { intros n Hn. eapply Forall_forall in Hrange; [exact Hrange|].
    by eapply subseteq_take. }
  destruct (frame_timestamp_ms_lt fps v i j Hv Hlo Hhi)
    as (t0 & t0' & Ht0 & Ht0' & Hlt);
    [apply (Hin i Hi)|done|apply (Hin j Hj)|].
  congruence.
Qed.

(** C2 (amended). For a capture whose frame rate is a float between
    1/1000 and 1000 frames per second, the timestamp
    [int(1000 / fps * i)], computed in binary64, exists for every frame
    number from 0 to [2 ^ 32] and strictly increases with the frame number;
    so for a sample whose frame records are numbered in increasing order
    within that range, the timestamps handed to the landmarker strictly
    increase from each processed frame to the next. *)
Theorem timestamps_strictly_increase field (cap : VideoCapture Image) sample
    (v : Q) :
  let fps := CAP_PROP_FPS cap in
  Binary64.to_Q fps = Some v → (1 # 1000 <= v)%Q → (v <= 1000)%Q →
  (∀ i j, 0 <= i → i < j → j <= 2 ^ 32 →
     ∃ t t', frame_timestamp_ms fps i = Ok t
             ∧ frame_timestamp_ms fps j = Ok t' ∧ t < t')
  ∧ (StronglySorted Z.lt (frame_numbers (frames sample)) →
     Forall (λ n, 0 <= n <= 2 ^ 32) (frame_numbers (frames sample)) →
     StronglySorted Z.lt
       (timestamps_passed (snd (run_mp_sample field cap sample)))).
Proof.
  intros fps Hv Hlo Hhi. split.
  - intros i j Hi Hij Hj. by apply (frame_timestamp_ms_lt fps v).
  - intros Hsorted Hrange. by apply (float_timestamps_sorted field cap sample v).
Qed.

(** X25. In binary64, as the script computes: for every capture whose
    frame rate is a float between 1/1000 and 1000 frames per second, and
    every sample whose frame records are numbered in increasing order from
    0 to [2 ^ 32] at most, the pass over the sample raises no exception and
    saves the sample, and the timestamps handed to the landmarker strictly
    increase from each processed frame to the next. *)
Theorem run_mp_float_timestamps_increase field (cap : VideoCapture Image)
    sample (v : Q) :
  let fps := CAP_PROP_FPS cap in
  Binary64.to_Q fps = Some v → (1 # 1000 <= v)%Q → (v <= 1000)%Q →
  StronglySorted Z.lt (frame_numbers (frames sample)) →
  Forall (λ n, 0 <= n <= 2 ^ 32) (frame_numbers (frames sample)) →
  (∃ sample', fst (run_mp_sample field cap sample) = Saved sample')
  ∧ StronglySorted Z.lt
      (timestamps_passed (snd (run_mp_sample field cap sample))).
Proof.
  intros fps Hv Hlo Hhi Hsorted Hrange. split.
  - eexists. apply run_mp_sample_saved. fold fps.
    apply (frame_loop_run infer cvtColor_BGR2RGB fps field cap []
             (frames sample)).
    apply Forall_forall. intros n Hn.
    apply (frame_timestamp_ms_ok fps v n Hv Hlo Hhi).
    eapply Forall_forall in Hrange; [exact Hrange|].
    unfold frame_numbers in *. rewrite <- firstn_map in Hn.
    by eapply subseteq_take.
  - by apply (float_timestamps_sorted field cap sample v).
Qed.

End RunMpFloat.

(** *** The theorems above on concrete videos *)

Section RunMpExamples.
Import Py Fo RunMediapipe Fixtures.

Lemma timestamps_are_truncated_witness :
  timestamps_passed (snd (run 30 5 5)) = [33; 66; 100; 133; 166]
  ∧ Forall2 (λ i ts, frame_timestamp_ms (Binary64.of_int 30) i = Ok ts)
      (take (length (timestamps_passed (snd (run 30 5 5))))
         (frame_numbers (frames (blank_sample 5))))
      (timestamps_passed (snd (run 30 5 5))).
Proof.
  split; [by vm_compute|].
  apply (timestamps_are_truncated no_hands id "hand_landmarker_mp"
           (video 30 5 5) (blank_sample 5)).
Defined.

(** C1, as stated, fails at 30 frames per second: frame 2 is sent to the
    landmarker with 66 ms where rounding to nearest gives 67 ms, and the
    first frames get 33, 66, 100, 133 ms, not 0, 33, 67, 100 ms. *)
Lemma timestamps_not_rounded :
  timestamps_passed (snd (run 30 4 4)) = [33; 66; 100; 133]
  ∧ map (spec_timestamp_ms (Binary64.of_int 30)) [1; 2; 3; 4]
    = [Ok 33; Ok 67; Ok 100; Ok 133]
  ∧ timestamps_passed (snd (run 30 4 4)) ≠ [0; 33; 67; 100].
Proof. vm_compute. repeat split. discriminate. Qed.

(** Rounding matters to the truncation: at 24 frames per second frame 195
    lies exactly 8125 ms into the video, the float product is just below
    that, and the timestamp is 8124 ms. *)
Example float_timestamp_below_exact :
  frame_timestamp_ms (Binary64.of_int 24) 195 = Ok 8124
  ∧ 1000 * 195 = 24 * 8125.
Proof. by vm_compute. Qed.

(** C2, as stated, fails at 2000 frames per second: frames 2 and 3 are both
    sent with timestamp 1 ms. *)
Lemma timestamps_repeat_above_1000_fps :
  SFltb (Binary64.of_int 0) (CAP_PROP_FPS (video 2000 3 3)) = true
  ∧ timestamps_passed (snd (run 2000 3 3)) = [0; 1; 1].
Proof. by vm_compute. Qed.

Lemma division_by_fps_unguarded_witness :
  run 0 2 1 = (Raised ZeroDivisionError (blank_sample 2), [])
  ∧ ∀ in_memory, fst (run 30 2 1) ≠ Raised ZeroDivisionError in_memory.
Proof.
  split.
  - apply (proj1 (division_by_fps_unguarded no_hands id "hand_landmarker_mp"
                    (video 0 2 1) (blank_sample 2)) eq_refl
             1 ∅ [(2, ∅)] tt []); reflexivity.
  - apply (proj2 (division_by_fps_unguarded no_hands id "hand_landmarker_mp"
                    (video 30 2 1) (blank_sample 2))).
    reflexivity.
Defined.



End RunMpExamples.

Section RunMpFloatExamples.
Import Py Fo RunMediapipe Fixtures.

Lemma timestamps_strictly_increase_witness :
  StronglySorted Z.lt (timestamps_passed (snd (run 30 5 5)))
  ∧ timestamps_passed (snd (run 30 5 5)) = [33; 66; 100; 133; 166]
  ∧ ∃ t t', frame_timestamp_ms (Binary64.of_int 30) 1000 = Ok t
            ∧ frame_timestamp_ms (Binary64.of_int 30) 1001 = Ok t' ∧ t < t'.
Proof.
  destruct (timestamps_strictly_increase no_hands id "hand_landmarker_mp"
              (video 30 5 5) (blank_sample 5)
              (8444249301319680 # 281474976710656))
    as [Hlt Hsorted].
  - reflexivity.
  - by vm_compute.
  - by vm_compute.
  - split; [|split; [by vm_compute|]].
    + apply Hsorted.
      * cbn. repeat constructor; lia.
      * cbn. repeat constructor; by vm_compute.
    + apply (Hlt 1000 1001); [lia|lia|by vm_compute].
Defined.

Lemma run_mp_float_timestamps_increase_witness :
  (∃ sample', fst (run 24 3 3) = Saved sample')
  ∧ StronglySorted Z.lt (timestamps_passed (snd (run 24 3 3)))
  ∧ timestamps_passed (snd (run 24 3 3)) = [41; 83; 125].
Proof.
  destruct (run_mp_float_timestamps_increase no_hands id "hand_landmarker_mp"
              (video 24 3 3) (blank_sample 3)
              (6755399441055744 # 281474976710656))
    as [Hsaved Hsorted].
  - reflexivity.
  - by vm_compute.
  - by vm_compute.
  - cbn. repeat constructor; lia.
  - cbn. repeat constructor; by vm_compute.
  - split; [exact Hsaved|]. split; [exact Hsorted|]. by vm_compute.
Defined.

End RunMpFloatExamples.

(** ** Quotients of pixel coordinates *)

Section Normaliser.
Import Py Rounding.

Lemma binary_round_aux_sign (s : bool) (m e : Z) (l : location) :
  binary_round_aux Binary64.prec Binary64.emax s m e l
  = with_sign s (binary_round_aux Binary64.prec Binary64.emax false m e l).
Proof.
  unfold binary_round_aux.
  destruct (shr_fexp _ _ m e l) as [mrs' e'].
  destruct (shr_fexp _ _ _ e' loc_Exact) as [mrs'' e''].
  destruct (shr_m mrs''); [done| |done].
  by destruct (e'' <=? _).
Qed.

Lemma new_location_zero (m : positive) : new_location (Z.pos m) 0 = loc_Exact.
Proof.
  unfold new_location, new_location_even, new_location_odd.
  by destruct (Z.even (Z.pos m)).
Qed.

(** A finite float divided by itself is 1.0. *)
Lemma SFdiv_self (s : bool) (m : positive) (e : Z) :
  SFdiv Binary64.prec Binary64.emax (S754_finite s m e) (S754_finite s m e)
  = one.
Proof.
  unfold SFdiv. rewrite SFdiv_core_binary_spec.
  replace (Zdigits2 (Z.pos m) + e - (Zdigits2 (Z.pos m) + e)) with 0 by lia.
  rewrite Z.sub_diag.
  change (Z.min (fexp Binary64.prec Binary64.emax 0) 0) with (-53).
  change (0 - -53) with 53.
  rewrite Z.mul_comm, Z.div_mul, Z.mod_mul by lia.
  rewrite new_location_zero. by destruct s.
Qed.

Lemma int_truediv_self (w : Z) : w ≠ 0 → Binary64.int_truediv w w = Ok one.
Proof.
  intros Hw. unfold Binary64.int_truediv.
  destruct (Z.eqb_spec w 0) as [|_]; [done|].
  destruct w as [|p|p]; [done| |]; cbn [Binary64.of_Z]; by rewrite SFdiv_self.
Qed.

Lemma int_truediv_zero (w : Z) :
  0 < w → Binary64.int_truediv 0 w = Ok zero.
Proof.
  intros Hw. unfold Binary64.int_truediv.
  destruct (Z.eqb_spec w 0) as [|_]; [lia|].
  by destruct w.
Qed.

End Normaliser.

Section Quotients.
Import Py Rounding.

(** The quotient of two positive integers below [2 ^ 53]: a finite float
    within the relative error [2 ^ -53] of it. *)
Lemma SFdiv_pos_near (a b : positive) :
  Z.pos a < 2 ^ 53 → Z.pos b < 2 ^ 53 →
  ∃ m e,
    SFdiv Binary64.prec Binary64.emax (S754_finite false a 0)
      (S754_finite false b 0) = S754_finite false m e
    ∧ e <= 0
    ∧ 2 ^ 53 * Z.abs (Z.pos m * Z.pos b - Z.pos a * 2 ^ (- e))
      <= Z.pos a * 2 ^ (- e).
Proof.
  intros Ha Hb.
  destruct (Zdigits2_bounds (Z.pos a)) as (Hda0 & Halo & Hahi); [lia|].
  destruct (Zdigits2_bounds (Z.pos b)) as (Hdb0 & Hblo & Hbhi); [lia|].
  assert (Hda : Zdigits2 (Z.pos a) <= 53) by (apply Zdigits2_le; lia).
  assert (Hdb : Zdigits2 (Z.pos b) <= 53) by (apply Zdigits2_le; lia).
  unfold SFdiv. cbn [xorb]. rewrite SFdiv_core_binary_spec.
  set (da := Zdigits2 (Z.pos a)) in *. set (db := Zdigits2 (Z.pos b)) in *.
  rewrite !Z.add_0_r.
  assert (He' : Z.min (fexp Binary64.prec Binary64.emax (da - db)) (0 - 0)
                = - (53 - da + db)) by (rewrite fexp_eq; lia).
  rewrite He'. set (s := 53 - da + db) in *.
  replace (0 - 0 - - s) with s by lia.
  assert (Hs : 1 <= s) by lia.
  set (m' := Z.pos a * 2 ^ s).
  set (q0 := m' / Z.pos b). set (r := m' mod Z.pos b).
  assert (Hdm : m' = q0 * Z.pos b + r).
  { subst q0 r. rewrite Z.mul_comm. apply Z.div_mod. lia. }
  assert (Hr : 0 <= r < Z.pos b) by (subst r; apply Z.mod_pos_bound; lia).
  assert (Hps : 2 ^ s = 2 ^ (53 - da) * 2 ^ db)
    by (rewrite <- pow2_split by lia; f_equal; lia).
  assert (Hp1 : 2 ^ 53 = 2 ^ da * 2 ^ (53 - da))
    by (rewrite <- pow2_split by lia; f_equal; lia).
  assert (Hp2 : 2 ^ da = 2 * 2 ^ (da - 1)).
  { replace da with (1 + (da - 1)) at 1 by lia. by rewrite pow2_split by lia. }
  assert (Hp3 : 2 ^ db = 2 * 2 ^ (db - 1)).
  { replace db with (1 + (db - 1)) at 1 by lia. by rewrite pow2_split by lia. }
  assert (Hq1 : 0 < 2 ^ (53 - da)) by (apply pow2_pos; lia).
  assert (Hq2 : 0 < 2 ^ (da - 1)) by (apply pow2_pos; lia).
  assert (Hq3 : 0 < 2 ^ (db - 1)) by (apply pow2_pos; lia).
  (* the quotient has 53 or 54 digits *)
  assert (Hm'lo : 2 ^ 52 * Z.pos b < m').
  { subst m'. rewrite Hps.
    assert (2 ^ 52 = 2 ^ (da - 1) * 2 ^ (53 - da))
      by (rewrite <- pow2_split by lia; f_equal; lia).
    assert (Z.pos b * 2 ^ (da - 1) < 2 ^ db * Z.pos a) by nia.
    nia. }
  assert (Hm'hi : m' < 2 ^ 54 * Z.pos b).
  { subst m'. rewrite Hps.
    assert (2 ^ 54 = 2 * 2 ^ 53) by done.
    assert (Z.pos a * 2 ^ db < 2 ^ da * (2 * Z.pos b)) by nia.
    nia. }
  assert (Hq0lo : 2 ^ 52 <= q0).
  { subst q0. apply Z.div_le_lower_bound; lia. }
  assert (Hq0hi : q0 < 2 ^ 54).
  { subst q0. apply Z.div_lt_upper_bound; lia. }
  assert (Hdq : 53 <= Zdigits2 q0 <= 54).
  { split; [apply Zdigits2_ge; lia|apply Zdigits2_le; lia]. }
  destruct (Zdigits2_bounds q0) as (_ & Hq0d & _); [lia|].
  destruct (binary_round_aux_spec q0 (- s) (new_location (Z.pos b) r)
              m' (Z.pos b)) as (k & Hk & Hnear & He & Hexact & ->).
  { rewrite Hdm. apply new_location_represents; lia. }
  cbn zeta in *.
  set (E := Z.max (fexp Binary64.prec Binary64.emax (Zdigits2 q0 + - s))
              (- s)) in *.
  assert (HE : E = Zdigits2 q0 - 53 - s) by (subst E; rewrite fexp_eq; lia).
  clearbody E.
  set (n := E - - s) in *.
  assert (Hn : n = Zdigits2 q0 - 53) by lia.
  assert (Hpn : 0 < 2 ^ n) by (apply pow2_pos; lia).
  assert (HEs : 2 ^ s = 2 ^ (- E) * 2 ^ n)
    by (rewrite <- pow2_split by lia; f_equal; lia).
  assert (HpE : 0 < 2 ^ (- E)) by (apply pow2_pos; lia).
  set (A := Z.pos a * 2 ^ (- E)).
  assert (Hm'A : m' = A * 2 ^ n) by (subst m' A; rewrite HEs; ring).
  (* in units of [2 ^ E] the rounded quotient is within half a unit *)
  assert (Hhalf : 2 * k * Z.pos b - Z.pos b <= 2 * A <= 2 * k * Z.pos b + Z.pos b).
  { rewrite Hm'A in Hnear. split.
    - apply (Z.mul_le_mono_pos_r _ _ (2 ^ n)); [done|]. lia.
    - apply (Z.mul_le_mono_pos_r _ _ (2 ^ n)); [done|]. lia. }
  (* and a unit is small against the quotient *)
  assert (Hrel : 2 ^ 52 * Z.pos b <= A).
  { assert (2 ^ (52 + n) <= q0).
    { replace (52 + n) with (Zdigits2 q0 - 1) by lia. done. }
    rewrite pow2_split in * by lia.
    assert (2 ^ 52 * 2 ^ n * Z.pos b <= m') by nia.
    rewrite Hm'A in *.
    apply (Z.mul_le_mono_pos_r _ _ (2 ^ n)); [done|]. lia. }
  assert (Hk0 : 0 < k) by nia.
  set (eq := Z.max (fexp Binary64.prec Binary64.emax (Zdigits2 k + E)) E) in *.
  assert (Heq : eq = E ∨ (eq = E + 1 ∧ k = 2 ^ 53)).
  { destruct (Z.eq_dec eq E) as [|Hne]; [by left|right].
    assert (Hdk : Zdigits2 k = 54) by (subst eq; rewrite fexp_eq in *; lia).
    destruct (Zdigits2_bounds k) as (_ & Hlo & _); [lia|].
    rewrite Hdk in Hlo. change (2 ^ (54 - 1)) with (2 ^ 53) in Hlo. lia. }
  clearbody eq.
  assert (Heq0 : eq <= 0).
  { destruct Heq as [->|[-> Hk53]]; [lia|].
    destruct (Z.eq_dec E 0) as [HE0|]; [|lia]. exfalso.
    subst A. rewrite HE0 in *. change (2 ^ (- 0)) with 1 in *.
    rewrite Z.mul_1_r in *. nia. }
  assert (Hpq : 0 < 2 ^ (eq - E)) by (apply pow2_pos; lia).
  destruct (k / 2 ^ (eq - E)) as [|mq|mq] eqn:Hmq; [lia| |lia].
  assert (Hle : (eq <=? Binary64.emax - Binary64.prec) = true).
  { apply Z.leb_le. unfold Binary64.emax, Binary64.prec. lia. }
  rewrite Hle. exists mq, eq. split; [done|]. split; [done|].
  destruct Heq as [->|[-> Hk53]].
  - rewrite Z.sub_diag in Hexact. change (2 ^ 0) with 1 in Hexact.
    rewrite Z.mul_1_r in Hexact. subst k. fold A. lia.
  - replace (E + 1 - E) with 1 in Hexact by lia.
    change (2 ^ 1) with 2 in Hexact.
    assert (HA2 : A = 2 * (Z.pos a * 2 ^ (- (E + 1)))).
    { subst A. replace (- E) with (1 + - (E + 1)) by lia.
      rewrite pow2_split by lia. change (2 ^ 1) with 2. ring. }
    set (A' := Z.pos a * 2 ^ (- (E + 1))) in *. lia.
Qed.

End Quotients.

Section IntegerQuotients.
Import Py Rounding.

Lemma SFdiv_sign (sa sb : bool) (a b : positive) (ea eb : Z) :
  SFdiv Binary64.prec Binary64.emax (S754_finite sa a ea) (S754_finite sb b eb)
  = with_sign (xorb sa sb)
      (SFdiv Binary64.prec Binary64.emax (S754_finite false a ea)
         (S754_finite false b eb)).
Proof.
  unfold SFdiv.
  destruct (SFdiv_core_binary _ _ _ _ _ _) as [[mz ez] lz].
  cbn [xorb]. apply binary_round_aux_sign.
Qed.

(** [a / b] on [int]s below [2 ^ 53] in absolute value is computed. *)
Lemma int_truediv_ok (a b : Z) :
  Z.abs a < 2 ^ 53 → Z.abs b < 2 ^ 53 → b ≠ 0 →
  ∃ x, Binary64.int_truediv a b = Ok x.
Proof.
  intros Ha Hb Hb0. unfold Binary64.int_truediv.
  destruct (Z.eqb_spec b 0) as [|_]; [done|].
  destruct a as [|pa|pa], b as [|pb|pb]; try done; cbn [Binary64.of_Z];
    try (by eexists);
    rewrite SFdiv_sign;
    destruct (SFdiv_pos_near pa pb) as (m & e & -> & _); try lia;
    by eexists.
Qed.

(** With a divisor above zero it is within the relative error [2 ^ -53]
    of the quotient. *)
Lemma int_truediv_near (a b : Z) :
  Z.abs a < 2 ^ 53 → 0 < b < 2 ^ 53 →
  ∃ x, Binary64.int_truediv a b = Ok x ∧ nearest x a b.
Proof.
  intros Ha Hb. unfold Binary64.int_truediv.
  destruct (Z.eqb_spec b 0) as [|_]; [lia|].
  destruct b as [|pb|pb]; [lia| |lia].
  destruct a as [|pa|pa]; cbn [Binary64.of_Z].
  - by eexists.
  - destruct (SFdiv_pos_near pa pb) as (m & e & -> & He & Hnear); [lia|lia|].
    eexists. split; [done|]. cbn [nearest]. split; [done|].
    by rewrite (Z.abs_eq (Z.pos pa)) by lia.
  - rewrite SFdiv_sign.
    destruct (SFdiv_pos_near pa pb) as (m & e & -> & He & Hnear); [lia|lia|].
    eexists. split; [done|]. cbn [nearest with_sign xorb]. split; [done|].
    replace (- Z.pos m * Z.pos pb - Z.neg pa * 2 ^ (- e))
      with (- (Z.pos m * Z.pos pb - Z.pos pa * 2 ^ (- e))) by lia.
    rewrite Z.abs_opp. change (Z.abs (Z.neg pa)) with (Z.pos pa). done.
Qed.

(** An exact mantissa at an exponent of the format does not round to
    zero. *)
Lemma binary_round_aux_nonzero (s : bool) (m : positive) (e : Z) :
  -1074 <= e →
  Binary64.is_zero
    (binary_round_aux Binary64.prec Binary64.emax s (Z.pos m) e loc_Exact)
  = false.
Proof.
  intros He. rewrite binary_round_aux_sign.
  destruct (binary_round_aux_spec (Z.pos m) e loc_Exact (Z.pos m) 1)
    as (k & Hk & Hnear & Hee & Hexact & ->).
  { apply shr_record_of_loc_exact. lia. }
  cbn zeta in *.
  destruct (Zdigits2_bounds (Z.pos m)) as (Hd0 & Hlo & _); [lia|].
  set (d := Zdigits2 (Z.pos m)) in *.
  set (E := Z.max (fexp Binary64.prec Binary64.emax (d + e)) e) in *.
  assert (HE : 0 <= E - e <= d - 1) by (subst E; rewrite fexp_eq; lia).
  clearbody E.
  assert (Hpow : 2 ^ (E - e) <= 2 ^ (d - 1)) by (apply Z.pow_le_mono_r; lia).
  assert (Hp : 0 < 2 ^ (E - e)) by (apply pow2_pos; lia).
  assert (Hk0 : 0 < k) by nia.
  set (eq := Z.max (fexp Binary64.prec Binary64.emax (Zdigits2 k + E)) E) in *.
  clearbody eq.
  assert (Hpq : 0 < 2 ^ (eq - E)) by (apply pow2_pos; lia).
  destruct (k / 2 ^ (eq - E)) as [|mq|mq]; [lia| |done].
  by destruct (eq <=? _), s.
Qed.

(** Only the integer 0 converts to a float zero. *)
Lemma of_int_zero_inv (z : Z) :
  Binary64.is_zero (Binary64.of_int z) = true → z = 0.
Proof.
  destruct z as [|p|p]; [done| |]; intros H; exfalso;
    unfold Binary64.of_int, binary_normalize, binary_round, shl_align in H;
    rewrite fexp_eq in H;
    destruct (Z.max (Z.pos (digits2_pos p) + 0 - 53) (-1074) - 0)
      as [|q|q] eqn:Hq;
    rewrite binary_round_aux_nonzero in H by lia; done.
Qed.

Lemma truediv_int_raise (a : Binary64.number) (b : Z) e :
  Binary64.truediv_int a b = Raise e →
  (e = ZeroDivisionError ∧ b = 0) ∨ e = OverflowError.
Proof.
  destruct a as [z|x]; cbn [Binary64.truediv_int].
  - unfold Binary64.int_truediv. destruct (Z.eqb_spec b 0) as [->|Hb].
    + intros [= <-]. by left.
    + destruct (SFdiv _ _ _ _); try done. intros [= <-]. by right.
  - unfold Binary64.float_of_int.
    destruct (Binary64.of_int b) as [s|s| |s m e'] eqn:Hb;
      cbn [mbind result_bind bind]; unfold Binary64.truediv;
      cbn [Binary64.is_zero]; try done.
    + intros [= <-]. left. split; [done|].
      apply of_int_zero_inv. by rewrite Hb.
    + intros [= <-]. by right.
Qed.

Lemma truediv_int_zero (a : Binary64.number) :
  Binary64.truediv_int a 0 = Raise ZeroDivisionError.
Proof. by destruct a. Qed.

End IntegerQuotients.

(** ** The keyboard bounding-box pass of [add_keyboard_bboxes] *)

Section KeyboardPass.
Import Py Fo ImportDataset Rounding Vocabulary.

Section Filter.

Context {A : Type} (P : A → Prop) `{!∀ x, Decision (P x)}.

Lemma filter_none (l : list A) :
  (∀ x, x ∈ l → ¬ P x) → filter P l = [].
Proof.
  induction l as [|a l IH]; intros Hl; [done|].
  rewrite filter_cons_False by (apply Hl; by left).
  apply IH. intros x Hx. apply Hl. by right.
Qed.

Lemma filter_unique (l : list A) (i : nat) (e : A) :
  l !! i = Some e → P e →
  (∀ j e', l !! j = Some e' → P e' → j = i) →
  filter P l = [e].
Proof.
  revert i. induction l as [|a l IH]; intros i Hi He Huniq; [done|].
  destruct i as [|i]; cbn in Hi.
  - injection Hi as ->. rewrite filter_cons_True by done. f_equal.
    apply filter_none. intros x Hx HPx.
    apply list_elem_of_lookup in Hx as [j Hj].
    by specialize (Huniq (S j) x Hj HPx).
  - rewrite filter_cons_False.
    + apply (IH i Hi He). intros j e' Hj He'.
      specialize (Huniq (S j) e' Hj He'). lia.
    + intros Ha. by specialize (Huniq O a eq_refl Ha).
Qed.

Lemma filter_two (l : list A) (i j : nat) (e e' : A) :
  (i < j)%nat → l !! i = Some e → l !! j = Some e' → P e → P e' →
  (2 <= length (filter P l))%nat.
Proof.
  intros Hij Hi Hj He He'.
  rewrite <- (take_drop_middle _ _ _ Hi), filter_app, filter_cons_True by done.
  rewrite length_app. cbn [length].
  assert (Hin : e' ∈ filter P (drop (S i) l)).
  { apply list_elem_of_filter. split; [done|].
    apply list_elem_of_lookup. exists (j - S i)%nat.
    rewrite lookup_drop. by replace (S i + (j - S i))%nat with j by lia. }
  destruct (filter P (drop (S i) l)); [by apply elem_of_nil in Hin|].
  cbn. lia.
Qed.

End Filter.

(** With a session on the sample, the comprehension is the filter on that
    session. *)
Lemma sample_preds_session (schema : gset string) (keyboard_preds : list Entry)
    (sample : Sample) (session : string) :
  fields sample !! "session"%string = Some session →
  sample_preds schema keyboard_preds sample
  = Ok (session_preds keyboard_preds session).
Proof.
  intros Hs. unfold session_preds.
  induction keyboard_preds as [|e rest IH]; [done|].
  cbn [sample_preds]. unfold get_field. rewrite Hs, IH.
  cbn [mbind result_bind bind].
  destruct (decide (Some session = Some (session_id e))) as [[= Heq]|Hne].
  - by rewrite filter_cons_True.
  - rewrite filter_cons_False; [done|]. intros Heq. apply Hne. by rewrite Heq.
Qed.


Lemma rel_box_ok (width height : Z) (b : Corners) x y x' y' :
  Binary64.truediv_int (x1 b) width = Ok x →
  Binary64.truediv_int (y1 b) height = Ok y →
  Binary64.truediv_int (x2 b) width = Ok x' →
  Binary64.truediv_int (y2 b) height = Ok y' →
  rel_box width height b = Ok [x; y; Binary64.sub x' x; Binary64.sub y' y].
Proof. intros Hx Hy Hx' Hy'. unfold rel_box. by rewrite Hx, Hy, Hx', Hy'. Qed.


Lemma frames_setfield_same (n : Z) (field : string) (v : label) (fs : Frames) :
  ∃ fr, frames_lookup n (frames_setfield n field v fs) = Some fr
        ∧ fr !! field = Some v.
Proof.
  induction fs as [|[m fr] fs IH]; cbn.
  - rewrite Z.eqb_refl. eexists. split; [done|]. apply lookup_singleton_eq.
  - destruct (Z.ltb_spec n m).
    + cbn. rewrite Z.eqb_refl. eexists. split; [done|]. apply lookup_singleton_eq.
    + destruct (Z.eqb_spec n m) as [->|Hne]; cbn.
      * rewrite Z.eqb_refl. eexists. split; [done|]. apply lookup_insert_eq.
      * destruct (Z.eqb_spec n m); [done|]. exact IH.
Qed.

Lemma frames_setfield_other (n n' : Z) (field : string) (v : label)
    (fs : Frames) :
  n' ≠ n →
  frames_lookup n' (frames_setfield n field v fs) = frames_lookup n' fs.
Proof.
  intros Hne. induction fs as [|[m fr] fs IH]; cbn.
  - by destruct (Z.eqb_spec n' n).
  - destruct (Z.ltb_spec n m).
    + cbn. by destruct (Z.eqb_spec n' n).
    + destruct (Z.eqb_spec n m) as [->|Hnm]; cbn.
      * by destruct (Z.eqb_spec n' m).
      * by rewrite IH.
Qed.

Lemma write_all_frames_lookup (field : string) (dets : list Detection)
    (total : Z) (fs : Frames) (n : Z) :
  (1 <= n <= total →
     ∃ fr, frames_lookup n (write_all_frames field dets total fs) = Some fr
           ∧ fr !! field = Some (Detections dets))
  ∧ (¬ (1 <= n <= total) →
     frames_lookup n (write_all_frames field dets total fs)
     = frames_lookup n fs).
Proof.
  unfold write_all_frames.
  assert (Hgen : ∀ k : nat,
    let fs' := fold_left
      (λ fs i, frames_setfield (Z.of_nat i + 1) field (Detections dets) fs)
      (seq 0 k) fs in
    (1 <= n <= Z.of_nat k →
       ∃ fr, frames_lookup n fs' = Some fr ∧ fr !! field = Some (Detections dets))
    ∧ (¬ (1 <= n <= Z.of_nat k) → frames_lookup n fs' = frames_lookup n fs)).
  { induction k as [|k [IH1 IH2]]; cbn zeta.
    - split; [lia|done].
    - rewrite seq_S, fold_left_app. cbn [fold_left Nat.add].
      split.
      + intros Hn. destruct (Z.eq_dec n (Z.of_nat k + 1)) as [->|Hne].
        * apply frames_setfield_same.
        * rewrite frames_setfield_other by done. apply IH1. lia.
      + intros Hn. rewrite frames_setfield_other by lia. apply IH2. lia. }
  specialize (Hgen (Z.to_nat total)). cbn zeta in Hgen.
  destruct Hgen as [H1 H2]. split; intros Hn.
  - apply H1. lia.
  - apply H2. lia.
Qed.

Lemma detections_of_pixels (width height : Z) (preds : list Pred) :
  width ≠ 0 → height ≠ 0 → Z.abs width < 2 ^ 53 → Z.abs height < 2 ^ 53 →
  Forall (λ p, pixel_box (pred_box p)) preds →
  ∃ dets, detections_of width height preds = Ok dets.
Proof.
  intros Hw Hh Hw' Hh'. induction 1 as [|p preds Hp _ [dets IH]]; cbn.
  - by exists [].
  - destruct Hp as (a1 & b1 & a2 & b2 & Hb & Ha1 & Hb1 & Ha2 & Hb2).
    destruct (int_truediv_ok a1 width Ha1 Hw' Hw) as [x Hx].
    destruct (int_truediv_ok b1 height Hb1 Hh' Hh) as [y Hy].
    destruct (int_truediv_ok a2 width Ha2 Hw' Hw) as [x' Hx'].
    destruct (int_truediv_ok b2 height Hb2 Hh' Hh) as [y' Hy'].
    unfold detection_of. rewrite Hb.
    rewrite (rel_box_ok _ _ _ x y x' y') by done.
    cbn [mbind result_bind bind]. rewrite IH. by eexists.
Qed.

(** C7. For a sample whose session has exactly one entry in the file, and
    whose boxes the normaliser accepts (it does for boxes and frame sizes
    in whole pixels, the width and height not zero), the pass writes one
    and the same list of normalised detections under the field on every
    frame numbered 1 to the total frame count inclusive, creating the frame
    records that are missing, and leaves every other frame number alone. *)
Theorem keyboard_boxes_same_on_every_frame (schema : gset string)
    (keyboard_preds : list Entry) (field_name : string) (sample : Sample)
    (session : string) (e : Entry) :
  let width := frame_width (metadata sample) in
  let height := frame_height (metadata sample) in
  let total := total_frame_count (metadata sample) in
  fields sample !! "session"%string = Some session →
  filter (λ e, session_id e = session) keyboard_preds = [e] →
  (width ≠ 0 → height ≠ 0 →
   Z.abs width < 2 ^ 53 → Z.abs height < 2 ^ 53 →
   Forall (λ p, pixel_box (pred_box p)) (entry_box e) →
   ∃ dets, detections_of width height (entry_box e) = Ok dets)
  ∧ ∀ dets,
      detections_of width height (entry_box e) = Ok dets →
      ∃ sample',
        add_keyboard_bboxes_sample schema keyboard_preds field_name sample
        = Ok sample'
        ∧ (∀ n, 1 <= n <= total →
             ∃ fr, frames_lookup n (frames sample') = Some fr
                   ∧ fr !! field_name = Some (Detections dets))
        ∧ (∀ n, ¬ (1 <= n <= total) →
             frames_lookup n (frames sample') = frames_lookup n (frames sample)).
Proof.
  intros width height total Hsession Hone. split.
  - intros Hw Hh Hw' Hh' Hpix. by apply detections_of_pixels.
  - intros dets Hdets. eexists.
    unfold add_keyboard_bboxes_sample.
    rewrite (sample_preds_session _ _ _ _ Hsession).
    cbn [mbind result_bind bind].
    unfold session_preds. rewrite Hone. cbn [map the_one_pred length Nat.eqb].
    cbn [mbind result_bind bind]. fold width height. rewrite Hdets.
    cbn [mbind result_bind bind]. split; [reflexivity|].
    cbn [frames set_frames]. fold total. split; intros n Hn.
    + by apply write_all_frames_lookup.
    + by apply write_all_frames_lookup.
Qed.

End KeyboardPass.

(** ** The exporter *)

Section Exporter.
Import Py Fo CustomExport.

Lemma field_keypoints_held (schema : gset string) (field : string)
    (frame : Frame) kps :
  frame !! field = Some (Keypoints kps) →
  field_keypoints schema field frame = Ok kps.
Proof.
  intros H. unfold field_keypoints, get_field, Frame in *. by rewrite H.
Qed.

Lemma frame_entries_annotated (schema : gset string) (field : string)
    (items : Frames) :
  Forall (λ item, ∃ kps, snd item !! field = Some (Keypoints kps)) items →
  ∃ entries, frame_entries schema field items = Ok entries
             ∧ Forall2 (exported field) items entries.
Proof.
  induction 1 as [|[n fr] items [kps Hkps] _ (entries & IH & Hall)]; cbn.
  - by exists [].
  - cbn in Hkps. unfold frame_entry. cbn [snd fst].
    rewrite (field_keypoints_held _ _ _ _ Hkps).
    cbn [mbind result_bind bind]. rewrite IH.
    cbn [mbind result_bind bind]. eexists. split; [done|].
    constructor; [|done]. by exists kps.
Qed.

(** C5 (amended). For a sample whose frame records all hold a keypoints
    label under the named field, the exporter emits one entry per frame
    record, in the order of the records, with the record's frame number and
    its keypoints; a record whose label holds no keypoint yields an entry
    with an empty keypoints list. *)
Theorem export_emits_every_annotated_frame (schema : gset string)
    (field : string) (sample : Sample) :
  Forall (λ item, ∃ kps, snd item !! field = Some (Keypoints kps))
    (Fo.frames sample) →
  ∃ dump,
    export_sample schema field sample = Ok dump
    ∧ map frame_number (frames dump) = frame_numbers (Fo.frames sample)
    ∧ Forall2 (exported field) (Fo.frames sample) (frames dump)
    ∧ ∀ n fr, (n, fr) ∈ Fo.frames sample →
        fr !! field = Some (Keypoints []) →
        {| frame_number := n; keypoints := [] |} ∈ frames dump.
Proof.
  intros Hall.
  destruct (frame_entries_annotated schema field _ Hall)
    as (entries & Hent & Hexp).
  eexists. unfold export_sample. rewrite Hent. cbn [mbind result_bind bind].
  split; [done|]. cbn [frames]. split; [|split; [done|]].
  - clear Hent Hall. induction Hexp as [|[n fr] en items ents (kps & _ & ->) _ IH]; [done|].
    cbn. f_equal. exact IH.
  - intros n fr Hin Hempty.
    apply list_elem_of_lookup in Hin as [i Hi].
    destruct (Forall2_lookup_l _ _ _ _ _ Hexp Hi) as (en & Hen & kps & Hk & ->).
    cbn [fst snd] in *. rewrite Hempty in Hk. injection Hk as <-.
    apply list_elem_of_lookup. by exists i.
Qed.

End Exporter.

(** *** The theorems above on the scenario of the specification *)

Section PassExamples.
Import Py Fo ImportDataset CustomExport Rounding Vocabulary Fixtures.




(** The stored box need not lie in the unit square either: in a frame 10
    pixels wide the box from 1 to 10 gets an origin and a width that add
    up to more than 1. *)
Example rel_box_leaves_unit_square :
  ∃ x y w h vx vw,
    rel_box 10 10 (int_box 1 1 10 10) = Ok [x; y; w; h]
    ∧ Binary64.to_Q x = Some vx ∧ Binary64.to_Q w = Some vw
    ∧ (1 < vx + vw)%Q.
Proof.
  eexists _, _, _, _, _, _. split; [vm_compute; reflexivity|].
  split; [reflexivity|]. split; [reflexivity|]. by vm_compute.
Qed.

(** The end-to-end scenario: frames 1 to 3 of the asset all get the one
    detection of the file, with the box (0.15625, 0.10417, 0.3125, 0.41667)
    to five decimals. *)
Lemma keyboard_boxes_same_on_every_frame_witness :
  ∃ det sample',
    add_keyboard_bboxes_sample ∅ keyboard_file "keyboard"
      (set_frames [] (blank_sample 3)) = Ok sample'
    ∧ (∃ vx vy vw vh,
         map Binary64.to_Q (bounding_box det)
         = [Some vx; Some vy; Some vw; Some vh]
         ∧ (vx == 15625 # 100000 ∧ vw == 3125 # 10000
            ∧ Qabs (vy - (10417 # 100000)) <= 5 # 1000000
            ∧ Qabs (vh - (41667 # 100000)) <= 5 # 1000000)%Q)
    ∧ ∀ n, 1 <= n <= 3 →
        ∃ fr, frames_lookup n (Fo.frames sample') = Some fr
              ∧ fr !! "keyboard"%string = Some (Detections [det]).
Proof.
  destruct (keyboard_boxes_same_on_every_frame ∅ keyboard_file "keyboard"
              (set_frames [] (blank_sample 3)) "2023-05-01_a2"
              (List.hd {| session_id := ""; entry_box := [] |} keyboard_file))
    as [Hok Hrun]; [reflexivity|reflexivity|].
  destruct Hok as [dets Hdets];
    [discriminate|discriminate|by vm_compute|by vm_compute| |].
  { repeat constructor. exists 100, 50, 300, 250.
    split; [reflexivity|]. repeat split; by vm_compute. }
  destruct (Hrun dets Hdets) as (sample' & Hsample & Hall & _).
  vm_compute in Hdets. injection Hdets as <-.
  lazymatch type of Hall with context [Detections [?d]] => exists d end.
  exists sample'. split; [exact Hsample|]. split; [|exact Hall].
  eexists _, _, _, _. split; [reflexivity|].
  repeat split; vm_compute; congruence.
Defined.

Lemma export_emits_every_annotated_frame_witness :
  ∃ dump,
    export_sample ∅ "hand_landmarker_mp"
      (two_frames {[ "hand_landmarker_mp"%string := Keypoints [] ]}) = Ok dump
    ∧ map frame_number (CustomExport.frames dump) = [1; 2]
    ∧ {| frame_number := 2; keypoints := [] |} ∈ CustomExport.frames dump.
Proof.
  destruct (export_emits_every_annotated_frame ∅ "hand_landmarker_mp"
              (two_frames {[ "hand_landmarker_mp"%string := Keypoints [] ]}))
    as (dump & Hdump & Hnum & _ & Hempty).
  - repeat constructor; eexists; cbn [snd]; apply lookup_singleton_eq.
  - exists dump. split; [exact Hdump|]. split; [exact Hnum|].
    apply (Hempty 2 {[ "hand_landmarker_mp"%string := Keypoints [] ]}).
    + apply elem_of_cons. right. apply elem_of_cons. by left.
    + apply lookup_singleton_eq.
Defined.

(** C5, as stated, fails on the frames of the specification's own example,
    frame 1 with a left hand and frame 2 with no value of the field: frame
    1 has declared the field, the read of frame 2 gives [None], and the
    exporter raises on it and emits no document. *)
Lemma export_fails_on_missing_field :
  "hand_landmarker_mp"%string ∈ frame_schema ∅ [two_frames ∅]
  ∧ export_sample (frame_schema ∅ [two_frames ∅]) "hand_landmarker_mp"
      (two_frames ∅) = Raise AttributeError
  ∧ export ∅ "hand_landmarker_mp" [two_frames ∅] = ([], Some AttributeError).
Proof.
  split; [|split].
  - apply (bool_decide_unpack _). by vm_compute.
  - by vm_compute.
  - by vm_compute.
Qed.

End PassExamples.

(** ** The regular-expression matcher *)

Section Matcher.
Import Py Re.

Section MatcherSound.
Context {A : Type}.
Implicit Types (k : @cont A) (s w : list ascii) (c : captures).

Lemma rep_loop_sound (r : regex) m :
  sound_for r m → ∀ n, sound_for (Rep n r) (λ s c k, rep_loop m k n s c).
Proof.
  intros Hm n. induction n as [|n IH]; intros s c k v H; cbn [rep_loop] in H.
  - exists [], s, c. repeat split; [constructor|done].
  - apply Hm in H as (w1 & s1 & c1 & -> & Hw1 & H).
    apply IH in H as (w2 & s2 & c2 & -> & Hw2 & H).
    exists (w1 ++ w2), s2, c2. rewrite <- app_assoc.
    repeat split; [|done]. by econstructor.
Qed.

Lemma star_loop_sound (r : regex) m :
  sound_for r m →
  ∀ fuel, sound_for (Star r) (λ s c k, star_loop m k fuel s c).
Proof.
  intros Hm fuel. induction fuel as [|fuel IH]; intros s c k v H; cbn [star_loop] in H.
  - exists [], s, c. repeat split; [constructor|done].
  - destruct (m s c _) as [v'|] eqn:Hbody.
    + injection H as ->.
      apply Hm in Hbody as (w1 & s1 & c1 & -> & Hw1 & H).
      destruct (Nat.ltb_spec (length s1) (length (w1 ++ s1))) as [Hlt|]; [|done].
      apply IH in H as (w2 & s2 & c2 & -> & Hw2 & H).
      exists (w1 ++ w2), s2, c2. rewrite <- app_assoc.
      repeat split; [|done]. econstructor; [done| |done].
      intros ->. cbn in Hlt. lia.
    + exists [], s, c. repeat split; [constructor|done].
Qed.

(** The matcher only succeeds on a word of the pattern. *)
Lemma rmatch_sound (r : regex) : sound_for (A:=A) r (rmatch r).
Proof.
  induction r as [p|r1 IH1 r2 IH2|n r IH|r IH|r IH]; intros s c k v H; cbn [rmatch] in H.
  - destruct s as [|x s]; [done|]. destruct (p x) eqn:Hp; [|done].
    exists [x], s, c. repeat split; [by constructor|done].
  - apply IH1 in H as (w1 & s1 & c1 & -> & Hw1 & H).
    apply IH2 in H as (w2 & s2 & c2 & -> & Hw2 & H).
    exists (w1 ++ w2), s2, c2. rewrite <- app_assoc.
    repeat split; [|done]. by econstructor.
  - by apply (rep_loop_sound r _ IH n) in H.
  - by apply (star_loop_sound r _ IH (length s)) in H.
  - apply IH in H as (w & s' & c' & -> & Hw & H).
    rewrite length_app, Nat.add_sub, take_app_length in H.
    exists w, s', (c' ++ [w]). repeat split; [|done]. by constructor.
Qed.

End MatcherSound.

(** [re.search] only reports groups of a word of the pattern that stands
    somewhere in the string. *)
Lemma search_sound (r : regex) (s : list ascii) (caps : captures) :
  search r s = Some caps →
  ∃ pre w post, s = pre ++ w ++ post ∧ matches r w [] caps.
Proof.
  induction s as [|x s IH]; cbn; unfold match_here.
  - destruct (rmatch r [] [] _) as [c|] eqn:H; [|done]. intros [= ->].
    apply rmatch_sound in H as (w & s' & c' & Hs & Hw & [= ->]).
    exists [], w, s'. by split.
  - destruct (rmatch r (x :: s) [] _) as [c|] eqn:H.
    + intros [= ->].
      apply rmatch_sound in H as (w & s' & c' & Hs & Hw & [= ->]).
      exists [], w, s'. by split.
    + intros H'. apply IH in H' as (pre & w & post & -> & Hw).
      exists (x :: pre), w, post. by split.
Qed.

Section Inversion.
Implicit Types (s w : list ascii) (c : captures) (p : ascii → bool).

Lemma matches_cls_inv p w c c' :
  matches (Cls p) w c c' → ∃ x, w = [x] ∧ p x = true ∧ c' = c.
Proof. inversion 1; subst. by eexists. Qed.

Lemma matches_cat_inv r1 r2 w c c' :
  matches (Cat r1 r2) w c c' →
  ∃ w1 w2 c1, w = w1 ++ w2 ∧ matches r1 w1 c c1 ∧ matches r2 w2 c1 c'.
Proof. inversion 1; subst. by eexists _, _, _. Qed.

Lemma matches_group_inv r w c c' :
  matches (Group r) w c c' → ∃ c1, matches r w c c1 ∧ c' = c1 ++ [w].
Proof. inversion 1; subst. by eexists. Qed.

Lemma matches_rep_cls_inv p n w c c' :
  matches (Rep n (Cls p)) w c c' →
  length w = n ∧ forallb p w = true ∧ c' = c.
Proof.
  revert w c. induction n as [|n IH]; intros w c; inversion 1; subst; [done|].
  match goal with H : matches (Cls _) _ _ _ |- _ =>
    apply matches_cls_inv in H as (x & -> & Hx & ->) end.
  match goal with H : matches (Rep _ _) _ _ _ |- _ =>
    apply IH in H as (Hlen & Hall & ->) end.
  cbn. rewrite Hx, Hall, Hlen. done.
Qed.

Lemma matches_star_cls_inv p w c c' :
  matches (Star (Cls p)) w c c' → forallb p w = true ∧ c' = c.
Proof.
  remember (Star (Cls p)) as r eqn:Hr. induction 1; try discriminate; [done|].
  injection Hr as ->.
  match goal with H : matches (Cls _) _ _ _ |- _ =>
    apply matches_cls_inv in H as (x & -> & Hx & ->) end.
  destruct IHmatches2 as [Hall ->]; [done|]. cbn. by rewrite Hx, Hall.
Qed.

Lemma matches_plus_cls_inv p w c c' :
  matches (Plus (Cls p)) w c c' → w ≠ [] ∧ forallb p w = true ∧ c' = c.
Proof.
  intros H. apply matches_cat_inv in H as (w1 & w2 & c1 & -> & H1 & H2).
  apply matches_cls_inv in H1 as (x & -> & Hx & ->).
  apply matches_star_cls_inv in H2 as [Hall ->].
  cbn. by rewrite Hx, Hall.
Qed.

Lemma matches_chr_inv a w c c' :
  matches (Chr a) w c c' → w = [a] ∧ c' = c.
Proof.
  intros H. apply matches_cls_inv in H as (x & -> & Hx & ->).
  apply Ascii.eqb_eq in Hx as ->. done.
Qed.

Lemma matches_lit_inv l r w c c' :
  matches (Lit l r) w c c' → ∃ w', w = l ++ w' ∧ matches r w' c c'.
Proof.
  revert w c. induction l as [|a l IH]; intros w c H; cbn in H.
  - by exists w.
  - apply matches_cat_inv in H as (w1 & w2 & c1 & -> & H1 & H2).
    apply matches_chr_inv in H1 as [-> ->].
    apply IH in H2 as (w' & -> & H2). by exists w'.
Qed.

End Inversion.

Section Forward.
Context {A : Type}.
Implicit Types (k : @cont A) (s w : list ascii) (c : captures) (p : ascii → bool).

Lemma rmatch_cls_cons p x s c k :
  rmatch (Cls p) (x :: s) c k = if p x then k s c else None.
Proof. reflexivity. Qed.

Lemma rmatch_chr a s c k : rmatch (Chr a) (a :: s) c k = k s c.
Proof. cbn. by rewrite Ascii.eqb_refl. Qed.

Lemma rmatch_lit l r s c k :
  rmatch (Lit l r) (l ++ s) c k = rmatch r s c k.
Proof.
  induction l as [|a l IH]; [done|].
  cbn [Lit app]. cbn [rmatch]. fold (Chr a). by rewrite rmatch_chr.
Qed.

Lemma rmatch_cat r1 r2 s c k :
  rmatch (Cat r1 r2) s c k = rmatch r1 s c (λ s' c', rmatch r2 s' c' k).
Proof. reflexivity. Qed.

Lemma rmatch_rep_cls p n w s c k :
  length w = n → forallb p w = true →
  rmatch (Rep n (Cls p)) (w ++ s) c k = k s c.
Proof.
  intros <- Hall. cbn [rmatch].
  induction w as [|x w IH]; [done|].
  cbn in Hall. apply andb_true_iff in Hall as [Hx Hall].
  cbn [length rep_loop app rmatch]. rewrite Hx. by apply IH.
Qed.

(** A greedy star over a character class, one character at a time. *)
Lemma rmatch_star_cls_cons p x s c k :
  rmatch (Star (Cls p)) (x :: s) c k
  = if p x
    then match rmatch (Star (Cls p)) s c k with
         | Some v => Some v
         | None => k (x :: s) c
         end
    else k (x :: s) c.
Proof.
  cbn [rmatch length star_loop]. destruct (p x); [|done].
  by rewrite (proj2 (Nat.ltb_lt _ _) (Nat.lt_succ_diag_r (length s))).
Qed.

Lemma rmatch_star_cls_nil p c k : rmatch (Star (Cls p)) [] c k = k [] c.
Proof. reflexivity. Qed.

(** The star runs over a stretch of the class when what follows succeeds. *)
Lemma rmatch_star_cls_app p w s c k v :
  forallb p w = true →
  rmatch (Star (Cls p)) s c k = Some v →
  rmatch (Star (Cls p)) (w ++ s) c k = Some v.
Proof.
  intros Hall Hs. induction w as [|x w IH]; [done|].
  cbn in Hall. apply andb_true_iff in Hall as [Hx Hall].
  cbn [app]. rewrite rmatch_star_cls_cons, Hx. by rewrite IH.
Qed.

(** The star stops where the class does. *)
Lemma rmatch_star_cls_stop p s c k :
  match s with [] => True | x :: _ => p x = false end →
  rmatch (Star (Cls p)) s c k = k s c.
Proof.
  destruct s as [|x s]; [done|]. intros Hx.
  by rewrite rmatch_star_cls_cons, Hx.
Qed.

(** The star fails when the continuation fails at every position. *)
Lemma rmatch_star_cls_none p s c k :
  (∀ u, u `suffix_of` s → k u c = None) →
  rmatch (Star (Cls p)) s c k = None.
Proof.
  induction s as [|x s IH]; intros Hk.
  - rewrite rmatch_star_cls_nil. by apply Hk.
  - rewrite rmatch_star_cls_cons. rewrite IH.
    + rewrite Hk by done. by destruct (p x).
    + intros u Hu. apply Hk. by apply suffix_cons_r.
Qed.

Lemma rmatch_group r s c k :
  rmatch (Group r) s c k
  = rmatch r s c (λ s' c', k s' (c' ++ [take (length s - length s') s])).
Proof. reflexivity. Qed.

End Forward.

End Matcher.

(** ** The calendar of [datetime] *)

Section Calendar.
Import Py Datetime.

Lemma days_before_year_succ (y : Z) :
  days_before_year (y + 1)
  = days_before_year y + 365 + (if is_leap y then 1 else 0).
Proof.
  unfold days_before_year, is_leap. cbv zeta.
  replace (y + 1 - 1) with y by lia.
  destruct (Z.eqb_spec (y mod 4) 0), (Z.eqb_spec (y mod 100) 0),
    (Z.eqb_spec (y mod 400) 0); cbn [andb orb negb]; Z.to_euclidean_division_equations; lia.
Qed.

Lemma days_before_year_mono (a b : Z) :
  a <= b → days_before_year a <= days_before_year b.
Proof.
  unfold days_before_year. cbv zeta. intros H. Z.to_euclidean_division_equations; lia.
Qed.

Lemma valid_bounds (d : date) :
  valid d = true →
  1 <= year d <= 9999 ∧ 1 <= month d <= 12
  ∧ 1 <= day d <= days_in_month (year d) (month d).
Proof.
  unfold valid. rewrite !andb_true_iff, !Z.leb_le. lia.
Qed.

Lemma month_cases (m : Z) :
  1 <= m <= 12 →
  m = 1 ∨ m = 2 ∨ m = 3 ∨ m = 4 ∨ m = 5 ∨ m = 6
  ∨ m = 7 ∨ m = 8 ∨ m = 9 ∨ m = 10 ∨ m = 11 ∨ m = 12.
Proof. lia. Qed.

Ltac each_month H :=
  apply month_cases in H;
  repeat (destruct H as [H|H]); subst.

(** A month ends where the next begins, and the year is 365 or 366 days. *)
Lemma month_within_year (y m : Z) :
  1 <= m <= 12 →
  0 <= days_before_month y m
  ∧ days_before_month y m + days_in_month y m
    <= 365 + (if is_leap y then 1 else 0).
Proof.
  intros Hm. each_month Hm;
    unfold days_before_month, days_in_month; destruct (is_leap y); cbv -[Z.le Z.lt]; lia.
Qed.

Lemma month_before_month (y m1 m2 : Z) :
  1 <= m1 → m1 < m2 → m2 <= 12 →
  days_before_month y m1 + days_in_month y m1 <= days_before_month y m2.
Proof.
  intros H1 H12 H2.
  assert (Hm1 : 1 <= m1 <= 12) by lia.
  assert (Hm2 : 1 <= m2 <= 12) by lia.
  each_month Hm1; each_month Hm2; try lia;
    unfold days_before_month, days_in_month; destruct (is_leap y);
    cbv -[Z.le Z.lt]; lia.
Qed.

(** The ordinal grows with the date. *)
Lemma toordinal_lt (a b : date) :
  valid a = true → valid b = true →
  date_lt a b → toordinal a < toordinal b.
Proof.
  intros (Hya & Hma & Hda)%valid_bounds (Hyb & Hmb & Hdb)%valid_bounds.
  unfold toordinal, ymd2ord.
  pose proof (month_within_year (year a) (month a) Hma) as [Ha0 Ha1].
  pose proof (month_within_year (year b) (month b) Hmb) as [Hb0 Hb1].
  intros [Hy|[Hy [Hm|[Hm Hd]]]].
  - pose proof (days_before_year_succ (year a)) as Hs.
    pose proof (days_before_year_mono (year a + 1) (year b)) as Hmono.
    lia.
  - rewrite Hy in *.
    pose proof (month_before_month (year b) (month a) (month b)). lia.
  - rewrite Hy, Hm in *. lia.
Qed.

Lemma date_trichotomy (a b : date) : date_lt a b ∨ a = b ∨ date_lt b a.
Proof.
  destruct a as [ya ma da], b as [yb mb db]. unfold date_lt. cbn.
  destruct (Z.lt_total ya yb) as [?|[->|?]]; [lia| |lia].
  destruct (Z.lt_total ma mb) as [?|[->|?]]; [lia| |lia].
  destruct (Z.lt_total da db) as [?|[->|?]]; [lia| |lia].
  right. by left.
Qed.

Lemma toordinal_order (a b : date) :
  valid a = true → valid b = true →
  (toordinal a < toordinal b ↔ date_lt a b)
  ∧ (toordinal a = toordinal b ↔ a = b).
Proof.
  intros Ha Hb.
  pose proof (toordinal_lt a b Ha Hb) as Hab.
  pose proof (toordinal_lt b a Hb Ha) as Hba.
  assert (Hasym : date_lt a b → date_lt b a → False).
  { unfold date_lt. lia. }
  assert (Hirr : ¬ date_lt a a) by (unfold date_lt; lia).
  destruct (date_trichotomy a b) as [H|[->|H]].
  - specialize (Hab H). split; split; [done|lia|lia|].
    intros ->. by destruct Hirr.
  - split; split; [lia|done|done|done].
  - specialize (Hba H). split; split; [lia| |lia|].
    + intros H'. by destruct (Hasym H' H).
    + intros ->. by destruct Hirr.
Qed.

End Calendar.

(** ** The patterns of [sort_key] and [add_session_field] *)

Section FilenamePatterns.
Import Py Re Pathlib Datetime Fo ImportDataset.

Section Patterns.
Implicit Types (s w D N : list ascii) (c : captures).

Lemma forallb_app_true {X} (p : X → bool) (l1 l2 : list X) :
  forallb p (l1 ++ l2) = true ↔ forallb p l1 = true ∧ forallb p l2 = true.
Proof. rewrite forallb_app. apply andb_true_iff. Qed.

(** Every string splits into its longest run of digits and a rest. *)
Lemma digit_run s :
  ∃ run rest, s = run ++ rest ∧ forallb is_digit run = true
              ∧ no_leading_digit rest.
Proof.
  induction s as [|x s (run & rest & -> & Hrun & Hrest)].
  - by exists [], [].
  - destruct (is_digit x) eqn:Hx.
    + exists (x :: run), rest. cbn. by rewrite Hx, Hrun.
    + by exists [], (x :: run ++ rest).
Qed.

Lemma matches_date_inv w c c' :
  matches date_pattern w c c' → date_shaped w ∧ c' = c.
Proof.
  intros H. unfold date_pattern in H.
  apply matches_cat_inv in H as (y & w1 & c1 & -> & Hy & H).
  apply matches_rep_cls_inv in Hy as (Hy & Hyd & ->).
  apply matches_cat_inv in H as (? & w2 & c2 & -> & H1 & H).
  apply matches_chr_inv in H1 as [-> ->].
  apply matches_cat_inv in H as (m & w3 & c3 & -> & Hm & H).
  apply matches_rep_cls_inv in Hm as (Hm & Hmd & ->).
  apply matches_cat_inv in H as (? & d & c4 & -> & H1 & Hd).
  apply matches_chr_inv in H1 as [-> ->].
  apply matches_rep_cls_inv in Hd as (Hd & Hdd & ->).
  split; [|done]. exists y, m, d. cbn [app]. repeat split; try done.
  rewrite !forallb_app_true. done.
Qed.

Lemma rmatch_date {A} D s c (k : @cont A) :
  date_shaped D → rmatch date_pattern (D ++ s) c k = k s c.
Proof.
  intros (y & m & d & -> & Hy & Hm & Hd & Hall).
  apply forallb_app_true in Hall as [Hyd Hall].
  apply forallb_app_true in Hall as [Hmd Hdd].
  unfold date_pattern, Digit.
  rewrite rmatch_cat, <- app_assoc, (rmatch_rep_cls _ 4) by done. cbn [app].
  rewrite rmatch_cat, rmatch_chr.
  rewrite rmatch_cat, <- app_assoc, (rmatch_rep_cls _ 2) by done. cbn [app].
  rewrite rmatch_cat, rmatch_chr.
  by rewrite (rmatch_rep_cls _ 2).
Qed.

(** A greedy [\d+] before a continuation that accepts the end of the run. *)
Lemma rmatch_plus_digit {A} N rest c (k : @cont A) v :
  digits N → no_leading_digit rest →
  k rest c = Some v →
  rmatch (Plus Digit) (N ++ rest) c k = Some v.
Proof.
  intros [Hne Hall] Hrest Hk. destruct N as [|n N]; [done|].
  cbn in Hall. apply andb_true_iff in Hall as [Hn Hall].
  unfold Plus, Digit. rewrite rmatch_cat. cbn [app].
  rewrite rmatch_cls_cons, Hn.
  apply rmatch_star_cls_app; [done|].
  by rewrite rmatch_star_cls_stop.
Qed.

Lemma session_shaped_nonempty g : session_shaped g → g ≠ [].
Proof.
  intros (D & N & -> & (y & m & d & -> & Hy & _) & _).
  destruct y; [done|]. done.
Qed.

(** What the session pattern does at the head of a string. *)
Lemma match_here_session s :
  match match_here session_pattern s with
  | Some caps =>
      ∃ g post, caps = [g] ∧ s = g ++ post
                ∧ session_shaped g ∧ no_leading_digit post
  | None => ∀ g post, s = g ++ post → ¬ session_shaped g
  end.
Proof.
  assert (Hfwd : ∀ D N post,
    date_shaped D → digits N → no_leading_digit post →
    match_here session_pattern (D ++ chars "_a" ++ N ++ post)
    = Some [D ++ chars "_a" ++ N]).
  { intros D N post HD HN Hpost. unfold match_here, session_pattern.
    rewrite rmatch_group, rmatch_cat, rmatch_date by done.
    rewrite rmatch_lit.
    erewrite rmatch_plus_digit; [done|done|done|].
    f_equal. cbn [app]. f_equal.
    rewrite !app_assoc, length_app, Nat.add_sub.
    by rewrite take_app_length. }
  assert (Hshape : ∀ g post, session_shaped g →
    ∃ g' post', g ++ post = g' ++ post' ∧ session_shaped g'
                ∧ no_leading_digit post'
                ∧ match_here session_pattern (g' ++ post') = Some [g']).
  { intros g post (D & N & -> & HD & [HN Hd]).
    destruct (digit_run post) as (run & rest & -> & Hrun & Hrest).
    exists (D ++ chars "_a" ++ (N ++ run)), rest.
    assert (Hdig : digits (N ++ run)).
    { split; [by destruct N|]. by apply forallb_app_true. }
    split; [by rewrite <- !app_assoc|].
    split; [by exists D, (N ++ run)|]. split; [done|].
    rewrite <- (Hfwd D (N ++ run) rest HD Hdig Hrest).
    by rewrite <- !app_assoc. }
  destruct (match_here session_pattern s) as [caps|] eqn:Hm.
  - unfold match_here in Hm.
    apply rmatch_sound in Hm as Hs. destruct Hs as (w & s' & c' & -> & Hw & _).
    apply matches_group_inv in Hw as (c1 & Hw & ->).
    apply matches_cat_inv in Hw as (D & w2 & c2 & -> & HD & Hw).
    apply matches_date_inv in HD as [HD ->].
    apply matches_lit_inv in Hw as (N & -> & HN).
    apply matches_plus_cls_inv in HN as (Hne & Hd & ->).
    destruct (Hshape (D ++ chars "_a" ++ N) s')
      as (g' & post' & Heq & Hg' & Hpost' & Hrun).
    { exists D, N. by repeat split. }
    exists g', post'. rewrite <- Heq in Hrun. unfold match_here in Hrun.
    rewrite Hrun in Hm. injection Hm as <-. done.
  - intros g post -> Hg.
    destruct (Hshape g post Hg) as (g' & post' & Heq & _ & _ & Hrun).
    rewrite <- Heq in Hrun. by rewrite Hrun in Hm.
Qed.

(** What [re.search] does with the session pattern: the leftmost position
    at which a session-shaped string starts, and the longest one there. *)
Lemma search_session s :
  match search session_pattern s with
  | Some caps =>
      ∃ pre g post,
        caps = [g] ∧ s = pre ++ g ++ post
        ∧ session_shaped g ∧ no_leading_digit post
        ∧ ∀ pre' g' post',
            s = pre' ++ g' ++ post' → session_shaped g' →
            (length pre <= length pre')%nat
  | None => ∀ pre g post, s = pre ++ g ++ post → ¬ session_shaped g
  end.
Proof.
  induction s as [|x s IH]; cbn [search];
    [pose proof (match_here_session []) as Hnil
    |pose proof (match_here_session (x :: s)) as Hhere].
  - destruct (match_here session_pattern []) as [caps|].
    + destruct Hnil as (g & post & -> & Hs & Hg & Hpost).
      exists [], g, post. repeat split; try done. intros; cbn; lia.
    + intros pre g post Hs Hg. apply session_shaped_nonempty in Hg.
      destruct pre; [|done]. by destruct g.
  - destruct (match_here session_pattern (x :: s)) as [caps|].
    + destruct Hhere as (g & post & -> & Hs & Hg & Hpost).
      exists [], g, post. repeat split; try done. intros; cbn; lia.
    + destruct (search session_pattern s) as [caps|].
      * destruct IH as (pre & g & post & -> & -> & Hg & Hpost & Hleft).
        exists (x :: pre), g, post. repeat split; try done.
        intros [|y pre'] g' post' Heq Hg'.
        -- by destruct (Hhere g' post' Heq Hg').
        -- injection Heq as -> Heq. cbn. apply le_n_S. by eapply Hleft.
      * intros [|y pre] g post Heq Hg.
        -- by destruct (Hhere g post Heq Hg).
        -- injection Heq as -> Heq. by eapply IH.
Qed.

End Patterns.

Section SortPattern.
Implicit Types (s w D N M mid : list ascii) (c : captures).

Lemma take_app_sub {X} (w s : list X) :
  take (length (w ++ s) - length s) (w ++ s) = w.
Proof. by rewrite length_app, Nat.add_sub, take_app_length. Qed.

Lemma digits_no_underscore M :
  forallb is_digit M = true → Forall (λ x, x ≠ "_"%char) M.
Proof.
  intros H. apply Forall_forall. intros x Hx%list_elem_of_In ->.
  rewrite forallb_forall in H. by specialize (H _ Hx).
Qed.

(** After the last [_split<M>] of the stem nothing starts with [_split]. *)
Lemma split_fails_inside {A} M u c r (k : @cont A) :
  forallb is_digit M = true →
  u `suffix_of` (chars "split" ++ M) →
  rmatch (Lit (chars "_split") r) u c k = None.
Proof.
  intros HM [pre Hu].
  assert (Hall : Forall (λ x, x ≠ "_"%char) (chars "split" ++ M)).
  { apply Forall_app. split; [|by apply digits_no_underscore].
    repeat constructor; discriminate. }
  rewrite Hu in Hall. apply Forall_app in Hall as [_ Hall].
  destruct u as [|x u]; [done|].
  inversion Hall as [|? ? Hx _]; subst.
  cbn [chars list_ascii_of_string Lit]. rewrite rmatch_cat.
  unfold Chr at 1. rewrite rmatch_cls_cons.
  destruct (Ascii.eqb_spec "_" x); [by subst|done].
Qed.

Lemma match_here_sort D N mid M :
  date_shaped D → digits N →
  forallb not_newline mid = true → digits M →
  match_here sort_pattern (sort_stem D N mid M) = Some [D; N; M].
Proof.
  intros HD HN Hmid HM. unfold match_here, sort_pattern, sort_stem.
  rewrite rmatch_cat, rmatch_group, rmatch_date by done.
  rewrite take_app_sub. cbn [app].
  rewrite rmatch_lit, rmatch_cat, rmatch_group.
  apply rmatch_plus_digit; [done|reflexivity|].
  rewrite take_app_sub.
  change (chars "_" ++ mid ++ chars "_split" ++ M)
    with ("_"%char :: mid ++ chars "_split" ++ M).
  rewrite rmatch_cat, rmatch_chr, rmatch_cat. unfold Dot.
  apply rmatch_star_cls_app; [done|].
  change (chars "_split" ++ M) with ("_"%char :: chars "split" ++ M).
  rewrite rmatch_star_cls_cons. change (not_newline "_") with true. cbv iota.
  rewrite rmatch_star_cls_none.
  2:{ intros u Hu. apply (split_fails_inside M); [apply HM|done]. }
  change ("_"%char :: chars "split" ++ M) with (chars "_split" ++ M).
  rewrite rmatch_lit, rmatch_group.
  rewrite <- (app_nil_r M) at 1.
  apply rmatch_plus_digit; [done|done|].
  cbn [app length]. by rewrite Nat.sub_0_r, firstn_all.
Qed.

End SortPattern.

Section SortKey.
Implicit Types (s w D N M mid : list ascii) (c : captures).

Lemma search_here r s caps :
  match_here r s = Some caps → search r s = Some caps.
Proof. intros H. destruct s; cbn [search]; by rewrite H. Qed.

Lemma search_sort_sound s caps :
  search sort_pattern s = Some caps →
  ∃ pre D N mid M post,
    s = pre ++ sort_stem D N mid M ++ post ∧ caps = [D; N; M]
    ∧ date_shaped D ∧ digits N ∧ digits M
    ∧ forallb not_newline mid = true.
Proof.
  intros H. apply search_sound in H as (pre & w & post & -> & Hw).
  unfold sort_pattern in Hw.
  apply matches_cat_inv in Hw as (D & w1 & c1 & -> & HD & Hw).
  apply matches_group_inv in HD as (c0 & HD & ->).
  apply matches_date_inv in HD as [HD ->].
  apply matches_lit_inv in Hw as (w2 & -> & Hw).
  apply matches_cat_inv in Hw as (N & w3 & c3 & -> & HN & Hw).
  apply matches_group_inv in HN as (c2 & HN & ->).
  apply matches_plus_cls_inv in HN as (HNne & HNd & ->).
  apply matches_cat_inv in Hw as (u & w4 & c4 & -> & Hu & Hw).
  apply matches_chr_inv in Hu as [-> ->].
  apply matches_cat_inv in Hw as (mid & w5 & c5 & -> & Hmid & Hw).
  apply matches_star_cls_inv in Hmid as [Hmid ->].
  apply matches_lit_inv in Hw as (M & -> & HM).
  apply matches_group_inv in HM as (c6 & HM & ->).
  apply matches_plus_cls_inv in HM as (HMne & HMd & ->).
  exists pre, D, N, mid, M, post. unfold sort_stem.
  repeat split; try done.
Qed.

Lemma strptime_Ymd_ok D d :
  strptime_Ymd D = Ok d → date_shaped D ∧ valid d = true.
Proof.
  unfold strptime_Ymd.
  destruct D as [|y1 [|y2 [|y3 [|y4 [|s1 [|m1 [|m2 [|s2 [|d1 [|d2 [|]]]]]]]]]]];
    try done.
  destruct (all_digits _ && _ && _) eqn:Hshape; [|done].
  apply andb_true_iff in Hshape as [Hshape Hs2].
  apply andb_true_iff in Hshape as [Hdig Hs1].
  apply Ascii.eqb_eq in Hs1 as ->. apply Ascii.eqb_eq in Hs2 as ->.
  destruct (valid _) eqn:Hvalid; [|done]. intros [= <-].
  split; [|done].
  exists [y1; y2; y3; y4], [m1; m2], [d1; d2]. by repeat split.
Qed.

Lemma strptime_Ymd_raises D e : strptime_Ymd D = Raise e → e = ValueError.
Proof.
  unfold strptime_Ymd.
  repeat (lazymatch goal with
          | |- context [match ?x with _ => _ end] => destruct x
          end; try congruence).
Qed.

End SortKey.


(** C9. The session written to the sample is the leftmost substring of
    the whole file path that has the shape [YYYY-MM-DD_a<N>], taken with all
    its digits: no such substring starts further left, be it in a directory
    name or in the file name.  With no such substring anywhere in the path
    the pass raises [ValueError]. *)
Theorem session_is_first_match (field_name : string) (sample : Sample) :
  let path := chars (filepath sample) in
  match add_session_field_sample field_name sample with
  | Ok sample' =>
      ∃ pre g post,
        path = pre ++ g ++ post
        ∧ session_shaped g ∧ no_leading_digit post
        ∧ (∀ pre' g' post',
             path = pre' ++ g' ++ post' → session_shaped g' →
             (length pre <= length pre')%nat)
        ∧ sample' = set_field field_name (str g) sample
  | Raise e =>
      e = ValueError
      ∧ ∀ pre g post, path = pre ++ g ++ post → ¬ session_shaped g
  end.
Proof.
  intros path. unfold add_session_field_sample. fold path.
  pose proof (search_session path) as H.
  destruct (search session_pattern path) as [caps|].
  - destruct H as (pre & g & post & -> & Hpath & Hg & Hpost & Hleft).
    by exists pre, g, post.
  - done.
Qed.

End FilenamePatterns.

(** *** The theorems above on the file names of the specification *)

Section FilenameExamples.
Import Py Re Pathlib Datetime Fo ImportDataset Fixtures.


Lemma session_is_first_match_witness :
  ∃ pre g post,
    chars (filepath nested_sample) = pre ++ g ++ post
    ∧ session_shaped g
    ∧ add_session_field_sample "session" nested_sample
      = Ok (set_field "session" (str g) nested_sample)
    ∧ str g = "2023-04-30_a1"%string.
Proof.
  pose proof (session_is_first_match "session" nested_sample) as H.
  assert (E : add_session_field_sample "session" nested_sample
              = Ok (set_field "session" "2023-04-30_a1" nested_sample))
    by reflexivity.
  cbv zeta in H. rewrite E in H.
  destruct H as (pre & g & post & Hpath & Hg & _ & _ & Heq).
  exists pre, g, post. split; [exact Hpath|]. split; [exact Hg|].
  rewrite E, Heq. split; [reflexivity|].
  apply (f_equal (λ x, fields x !! "session"%string)) in Heq.
  cbn [set_field fields] in Heq. rewrite !lookup_insert_eq in Heq.
  by injection Heq.
Defined.

(** The directory name wins over the file name. *)
Example session_prefers_directory :
  add_session_field_sample "session" nested_sample
  = Ok (set_field "session" "2023-04-30_a1" nested_sample).
Proof. reflexivity. Qed.

End FilenameExamples.

(* ===================================================================== *)
(** * Further properties of the scripts *)
(* ===================================================================== *)

(** ** [create_dataset] and [main] *)

Section CreateDatasetFacts.
Import Py Pathlib Fo ImportDataset CreateDataset.

Lemma startswith_spec (prefix s : list ascii) :
  startswith prefix s = true ↔ ∃ post, s = prefix ++ post.
Proof.
  revert s. induction prefix as [|x prefix IH]; intros s; cbn.
  - split; [by exists s|done].
  - destruct s as [|y s]; [split; [done|by intros [? ?]]|].
    rewrite andb_true_iff, IH. split.
    + intros [->%Ascii.eqb_eq [post ->]]. by exists post.
    + intros [post [= -> ->]]. split; [apply Ascii.eqb_refl|by exists post].
Qed.

Lemma contains_spec (sub s : list ascii) :
  contains sub s = true ↔ ∃ pre post, s = pre ++ sub ++ post.
Proof.
  induction s as [|y s IH]; cbn [contains]; rewrite orb_true_iff, startswith_spec.
  - split.
    + intros [[post ->]|]; [by exists [], post|done].
    + intros (pre & post & H). left.
      destruct pre; [by exists post|done].
  - rewrite IH. split.
    + intros [[post ->]|(pre & post & ->)]; [by exists [], post|].
      by exists (y :: pre), post.
    + intros ([|x pre] & post & H).
      * left. by exists post.
      * injection H as -> ->. right. by exists pre, post.
Qed.

Section SortedFacts.
Context {K A : Type} (ltb : K → K → bool).
Implicit Types (l : list (K * A)) (x : K * A).

Lemma insort_perm x l : insort ltb x l ≡ₚ x :: l.
Proof.
  induction l as [|y l IH]; cbn; [done|].
  destruct (ltb (fst y) (fst x)); [|done].
  rewrite IH. apply Permutation_swap.
Qed.

Lemma sort_keyed_perm l : sort_keyed ltb l ≡ₚ l.
Proof.
  induction l as [|x l IH]; cbn; [done|]. by rewrite insort_perm, IH.
Qed.

Lemma insort_sorted x l :
  orders ltb →
  StronglySorted (λ a b, ltb (fst b) (fst a) = false) l →
  StronglySorted (λ a b, ltb (fst b) (fst a) = false) (insort ltb x l).
Proof.
  intros [asym trans].
  induction 1 as [|y l Hs IH Hall]; cbn; [repeat constructor|].
  destruct (ltb (fst y) (fst x)) eqn:Hyx.
  - constructor; [done|].
    apply Forall_forall. intros z Hz.
    apply (elem_of_Permutation_proper _ _ _ (insort_perm x l)) in Hz.
    apply elem_of_cons in Hz as [->|Hz]; [by apply asym|].
    eapply Forall_forall in Hall; [exact Hall|done].
  - constructor; [by constructor|].
    constructor; [done|].
    eapply Forall_impl; [exact Hall|]. cbn. intros z Hz. by eapply trans.
Qed.

Lemma sort_keyed_sorted l :
  orders ltb →
  StronglySorted (λ a b, ltb (fst b) (fst a) = false) (sort_keyed ltb l).
Proof.
  intros Hord. induction l as [|x l IH]; cbn; [constructor|].
  by apply insort_sorted.
Qed.

Lemma insort_filter `{EqDecision K} x l (k : K) :
  orders ltb →
  filter (λ p, fst p = k) (insort ltb x l)
  = filter (λ p, fst p = k) (x :: l).
Proof.
  intros [asym _]. induction l as [|y l IH]; cbn [insort]; [done|].
  destruct (ltb (fst y) (fst x)) eqn:Hyx; [|done].
  assert (Hne : fst y ≠ fst x).
  { intros E. rewrite E in Hyx. apply asym in Hyx as Hxx. congruence. }
  rewrite (filter_cons _ y), IH, !(filter_cons _ x), (filter_cons _ y).
  destruct (decide (fst x = k)) as [Hx|Hx]; [|done].
  destruct (decide (fst y = k)) as [Hy|Hy]; [congruence|done].
Qed.

Lemma sort_keyed_filter `{EqDecision K} l (k : K) :
  orders ltb →
  filter (λ p, fst p = k) (sort_keyed ltb l) = filter (λ p, fst p = k) l.
Proof.
  intros Hord. induction l as [|x l IH]; cbn [sort_keyed]; [done|].
  by rewrite insort_filter, !(filter_cons _ x), IH.
Qed.

Lemma keyed_ok (key : A → result K) (xs : list A) ks :
  keyed key xs = Ok ks →
  map snd ks = xs ∧ Forall (λ p, key (snd p) = Ok (fst p)) ks.
Proof.
  revert ks. induction xs as [|a xs IH]; intros ks; cbn.
  - intros [= <-]. by split.
  - destruct (key a) as [k|e] eqn:Hk; cbn [mbind result_bind bind]; [|done].
    destruct (keyed key xs) as [ks'|e]; cbn [mbind result_bind bind]; [|done].
    intros [= <-]. destruct (IH ks' eq_refl) as [Hsnd Hall].
    cbn. rewrite Hsnd. split; [done|]. by constructor.
Qed.

Lemma keyed_raise (key : A → result K) (xs : list A) e :
  keyed key xs = Raise e → Exists (λ a, key a = Raise e) xs.
Proof.
  induction xs as [|a xs IH]; cbn; [done|].
  destruct (key a) as [k|e'] eqn:Hk; cbn [mbind result_bind bind].
  - destruct (keyed key xs) as [ks'|e']; cbn [mbind result_bind bind]; [done|].
    intros [= <-]. right. by apply IH.
  - intros [= <-]. by left.
Qed.

Lemma filter_by_key `{EqDecision K} (key : A → result K) l (k : K) :
  Forall (λ p, key (snd p) = Ok (fst p)) l →
  filter (λ a, key a = Ok k) (map snd l)
  = map snd (filter (λ p, fst p = k) l).
Proof.
  induction 1 as [|p l Hp _ IH]; [done|].
  cbn [map]. rewrite !filter_cons, IH, Hp.
  destruct (decide (fst p = k)) as [->|Hne].
  - by rewrite decide_True.
  - rewrite decide_False; [done|]. by intros [= ?].
Qed.

(** What [sorted] returns: the items in the order of their keys, those with
    equal keys in the order they came in. *)
Lemma sorted_spec `{EqDecision K} (key : A → result K) (xs ys : list A) :
  orders ltb →
  sorted ltb key xs = Ok ys →
  ys ≡ₚ xs
  ∧ (∃ keys, Forall2 (λ y k, key y = Ok k) ys keys
             ∧ StronglySorted (λ a b, ltb b a = false) keys)
  ∧ ∀ k, filter (λ a, key a = Ok k) ys = filter (λ a, key a = Ok k) xs.
Proof.
  intros Hord. unfold sorted.
  destruct (keyed key xs) as [ks|e] eqn:Hks; cbn [mbind result_bind bind];
    [|done].
  intros [= <-]. destruct (keyed_ok _ _ _ Hks) as [Hsnd Hall].
  assert (Hall' : Forall (λ p, key (snd p) = Ok (fst p)) (sort_keyed ltb ks)).
  { by rewrite sort_keyed_perm. }
  split; [|split].
  - rewrite <- Hsnd. change (@map (K * A) A) with (@fmap list _ (K * A) A).
    by rewrite sort_keyed_perm.
  - exists (map fst (sort_keyed ltb ks)). split.
    + clear -Hall'. induction Hall' as [|p l Hp _ IH]; cbn; by constructor.
    + pose proof (sort_keyed_sorted ks Hord) as Hs. clear -Hs.
      induction Hs as [|p l Hs IH Hp]; cbn; constructor; [done|].
      clear -Hp. induction Hp; cbn; by constructor.
  - intros k. rewrite (filter_by_key key _ k Hall'), <- Hsnd.
    rewrite (filter_by_key key _ k Hall). by rewrite sort_keyed_filter.
Qed.

End SortedFacts.

Lemma key_ltb_lt (a b : Z * Z * Z) : key_ltb a b = true ↔ key_lt a b.
Proof.
  destruct a as [[a1 a2] a3], b as [[b1 b2] b3]. unfold key_ltb, key_lt.
  rewrite !orb_true_iff, !andb_true_iff, !orb_true_iff, !andb_true_iff.
  rewrite !Z.ltb_lt, !Z.eqb_eq. done.
Qed.

Lemma key_ltb_orders : orders key_ltb.
Proof.
  split.
  - intros a b Hab. apply key_ltb_lt in Hab.
    destruct (key_ltb b a) eqn:Hba; [|done]. apply key_ltb_lt in Hba.
    destruct a as [[a1 a2] a3], b as [[b1 b2] b3]. unfold key_lt in *. lia.
  - intros a b c Hba Hcb.
    destruct (key_ltb c a) eqn:Hca; [|done]. apply key_ltb_lt in Hca.
    assert (Hba' : ¬ key_lt b a) by (rewrite <- key_ltb_lt; congruence).
    assert (Hcb' : ¬ key_lt c b) by (rewrite <- key_ltb_lt; congruence).
    destruct a as [[a1 a2] a3], b as [[b1 b2] b3], c as [[c1 c2] c3].
    unfold key_lt in *. lia.
Qed.

Lemma sort_key_raises (s : string) e : sort_key s = Raise e → e = ValueError.
Proof.
  unfold sort_key.
  destruct (Re.search _ _) as [[|a [|b [|c [|]]]]|]; try by intros [= <-].
  destruct (Datetime.strptime_Ymd a) as [d|e'] eqn:Hd;
    cbn [mbind result_bind bind]; [done|].
  intros [= <-]. by apply strptime_Ymd_raises in Hd.
Qed.

(** X1. [create_dataset] adds the samples in the order of their sort keys:
    the file paths it stores are those that the glob found, each once, made
    absolute; no later sample has a key below an earlier one; and files
    whose keys are equal keep the order in which the glob listed them. *)
Theorem create_dataset_sorts_stably (abspath : string → string)
    (compute_metadata : string → VideoMetadata) (globbed : list string)
    (ds : list TaggedSample) :
  create_dataset abspath compute_metadata globbed = Ok ds →
  ∃ video_fps keys,
    map (λ t, filepath (sample t)) ds = map abspath video_fps
    ∧ video_fps ≡ₚ globbed
    ∧ Forall2 (λ fp k, sort_key fp = Ok k) video_fps keys
    ∧ StronglySorted (λ a b, ¬ key_lt b a) keys
    ∧ ∀ k, filter (λ fp, sort_key fp = Ok k) video_fps
           = filter (λ fp, sort_key fp = Ok k) globbed.
Proof.
  unfold create_dataset.
  destruct (sorted key_ltb sort_key globbed) as [video_fps|e] eqn:Hs;
    cbn [mbind result_bind bind]; [|done].
  intros [= <-].
  destruct (sorted_spec key_ltb sort_key globbed video_fps key_ltb_orders Hs)
    as (Hperm & (keys & Hkeys & Hsorted) & Hstable).
  exists video_fps, keys. split; [|split; [done|split; [done|split; [|done]]]].
  - rewrite map_map. done.
  - clear -Hsorted. induction Hsorted as [|k l Hs IH Hk]; constructor; [done|].
    eapply Forall_impl; [exact Hk|]. cbn. intros b Hb.
    rewrite <- key_ltb_lt. congruence.
Qed.

Lemma create_dataset_cases (abspath : string → string)
    (compute_metadata : string → VideoMetadata) (globbed : list string) :
  match create_dataset abspath compute_metadata globbed with
  | Ok ds => Forall (λ fp, is_ok (sort_key fp) = true) globbed
             ∧ length ds = length globbed
  | Raise e => e = ValueError
               ∧ Exists (λ fp, sort_key fp = Raise ValueError) globbed
  end.
Proof.
  unfold create_dataset, sorted.
  destruct (keyed sort_key globbed) as [ks|e] eqn:Hks;
    cbn [mbind result_bind bind].
  - destruct (keyed_ok _ _ _ Hks) as [Hsnd Hall]. split.
    + rewrite <- Hsnd. clear -Hall.
      induction Hall as [|p l Hp _ IH]; cbn; constructor; [|done].
      by rewrite Hp.
    + rewrite !length_map.
      rewrite (Permutation_length (sort_keyed_perm key_ltb ks)).
      by rewrite <- Hsnd, length_map.
  - apply keyed_raise in Hks.
    assert (He : e = ValueError).
    { apply Exists_exists in Hks as (fp & _ & Hfp).
      by apply sort_key_raises in Hfp. }
    subst e. done.
Qed.

(** X2. [create_dataset] needs a sort key for every file: when all the
    listed files have one, there is one sample per file, without field or
    frame record; when one has none the call raises [ValueError] and there
    is no dataset, however many of the other files are well named. *)
Theorem create_dataset_needs_every_key (abspath : string → string)
    (compute_metadata : string → VideoMetadata) (globbed : list string) :
  match create_dataset abspath compute_metadata globbed with
  | Ok ds =>
      Forall (λ fp, is_ok (sort_key fp) = true) globbed
      ∧ length ds = length globbed
      ∧ Forall (λ t, fields (sample t) = ∅ ∧ frames (sample t) = []) ds
  | Raise e =>
      e = ValueError
      ∧ Exists (λ fp, sort_key fp = Raise ValueError) globbed
  end.
Proof.
  unfold create_dataset, sorted.
  destruct (keyed sort_key globbed) as [ks|e] eqn:Hks;
    cbn [mbind result_bind bind].
  - destruct (keyed_ok _ _ _ Hks) as [Hsnd Hall]. split; [|split].
    + rewrite <- Hsnd. clear -Hall.
      induction Hall as [|p l Hp _ IH]; cbn; constructor; [|done].
      by rewrite Hp.
    + rewrite !length_map.
      rewrite (Permutation_length (sort_keyed_perm key_ltb ks)).
      by rewrite <- Hsnd, length_map.
    + apply Forall_forall. intros t Ht.
      apply list_elem_of_In, in_map_iff in Ht as (fp & <- & _). done.
  - apply keyed_raise in Hks.
    assert (He : e = ValueError).
    { apply Exists_exists in Hks as (fp & _ & Hfp).
      by apply sort_key_raises in Hfp. }
    subst e. done.
Qed.

(** X3. Every sample has exactly one tag: [train] when the letters
    [train] stand anywhere in the path that the glob listed for it, in a
    directory name or in the file name, and [test] when they do not. *)
Theorem create_dataset_tags_by_substring (abspath : string → string)
    (compute_metadata : string → VideoMetadata) (globbed : list string)
    (ds : list TaggedSample) (t : TaggedSample) :
  create_dataset abspath compute_metadata globbed = Ok ds →
  t ∈ ds →
  ∃ video_fp,
    video_fp ∈ globbed
    ∧ filepath (sample t) = abspath video_fp
    ∧ ((∃ pre post, chars video_fp = pre ++ chars "train" ++ post)
       ∧ tags t = ["train"%string]
       ∨ (∀ pre post, chars video_fp ≠ pre ++ chars "train" ++ post)
         ∧ tags t = ["test"%string]).
Proof.
  unfold create_dataset.
  destruct (sorted key_ltb sort_key globbed) as [video_fps|e] eqn:Hs;
    cbn [mbind result_bind bind]; [|done].
  intros [= <-] Ht.
  destruct (sorted_spec key_ltb sort_key globbed video_fps key_ltb_orders Hs)
    as (Hperm & _).
  apply list_elem_of_In, in_map_iff in Ht as (fp & <- & Hfp).
  apply list_elem_of_In in Hfp. rewrite Hperm in Hfp.
  exists fp. split; [done|]. split; [done|]. cbn [tags]. unfold tag_of.
  destruct (contains (chars "train") (chars fp)) eqn:Hc.
  - left. split; [|done]. by apply contains_spec.
  - right. split; [|done]. intros pre post Heq.
    assert (contains (chars "train") (chars fp) = true)
      by (apply contains_spec; by exists pre, post).
    congruence.
Qed.

Lemma main_present abspath compute_metadata globbed keyboard_preds
    (datasets : Datasets) (dataset_name : string) :
  is_Some (datasets !! dataset_name) →
  main abspath compute_metadata globbed keyboard_preds
    datasets dataset_name false
  = (datasets, None).
Proof.
  intros Hin. unfold main. cbn [andb].
  by rewrite bool_decide_eq_true_2.
Qed.

(** X4. Once the file names sort, a run of [main] leaves a dataset under
    the name, also when the session pass or the keyboard pass raised half
    way; and a later run without [--overwrite] returns without touching it,
    whatever files and boxes it is given: it does not complete what a
    failed run left. *)
Theorem main_does_not_repair (abspath : string → string)
    (compute_metadata : string → VideoMetadata) (globbed : list string)
    (keyboard_preds : list Entry) (datasets : Datasets)
    (dataset_name : string) (overwrite : bool) (ds : list TaggedSample) :
  create_dataset abspath compute_metadata globbed = Ok ds →
  let out := main abspath compute_metadata globbed keyboard_preds
               datasets dataset_name overwrite in
  is_Some (fst out !! dataset_name)
  ∧ ∀ globbed' keyboard_preds',
      main abspath compute_metadata globbed' keyboard_preds'
        (fst out) dataset_name false
      = (fst out, None).
Proof.
  intros Hds out.
  assert (Hsome : is_Some (fst out !! dataset_name)).
  { subst out. unfold main. rewrite Hds.
    destruct (bool_decide (is_Some (_ !! dataset_name))) eqn:Hin.
    - cbn [fst]. by apply bool_decide_eq_true_1 in Hin.
    - destruct (add_session_field _ _) as [samples [e|]].
      + cbn [fst]. eexists. apply lookup_insert_eq.
      + destruct (add_keyboard_bboxes _ _ _) as [samples' e'].
        cbn [fst]. eexists. apply lookup_insert_eq. }
  split; [done|]. intros globbed' keyboard_preds'. by apply main_present.
Qed.

(** X5. With [--overwrite], [main] deletes the dataset of that name before
    it looks at the files: when a listed file has no sort key the run ends
    in [ValueError] with the old dataset gone and none in its place. *)
Theorem main_overwrite_deletes_first (abspath : string → string)
    (compute_metadata : string → VideoMetadata) (globbed : list string)
    (keyboard_preds : list Entry) (datasets : Datasets)
    (dataset_name : string) :
  Exists (λ fp, is_ok (sort_key fp) = false) globbed →
  main abspath compute_metadata globbed keyboard_preds
    datasets dataset_name true
  = (delete dataset_name datasets, Some ValueError).
Proof.
  intros Hbad. unfold main, Datasets in *. cbn [andb].
  assert (Hdel : (if bool_decide (is_Some (datasets !! dataset_name))
                  then delete dataset_name datasets else datasets)
                 = delete dataset_name datasets).
  { destruct (bool_decide_reflect (is_Some (datasets !! dataset_name)))
      as [|Hno]; [done|].
    symmetry. apply delete_id. by apply eq_None_not_Some. }
  rewrite Hdel. rewrite bool_decide_eq_false_2.
  2:{ rewrite lookup_delete_eq. by intros [? ?]. }
  pose proof (create_dataset_cases abspath compute_metadata globbed) as Hc.
  destruct (create_dataset abspath compute_metadata globbed) as [ds|e].
  - destruct Hc as [Hall _]. apply Exists_exists in Hbad as (fp & Hfp & Hno).
    eapply Forall_forall in Hall; [|exact Hfp]. congruence.
  - by destruct Hc as [-> _].
Qed.

End CreateDatasetFacts.

(** ** File names and directories *)

Section PathFacts.
Import Py Pathlib Fo ImportDataset CustomExport.
Implicit Types (d base rest : list ascii).

Lemma split_slash_nonempty (s : list ascii) : split_slash s ≠ [].
Proof.
  destruct s as [|c s]; cbn; [done|].
  destruct (Ascii.eqb c "/"); [done|]. by destruct (split_slash s).
Qed.

Lemma split_slash_app d rest :
  split_slash (d ++ "/"%char :: rest) = split_slash d ++ split_slash rest.
Proof.
  induction d as [|c d IH]; cbn; [done|].
  destruct (Ascii.eqb c "/"); [by rewrite IH|].
  rewrite IH. pose proof (split_slash_nonempty d).
  by destruct (split_slash d).
Qed.

Lemma split_slash_no_slash base :
  "/"%char ∉ base → split_slash base = [base].
Proof.
  induction base as [|c base IH]; cbn; [done|].
  intros Hno. apply not_elem_of_cons in Hno as [Hc Hno].
  destruct (Ascii.eqb_spec c "/"); [done|]. by rewrite IH.
Qed.

(** The name of a path is its last component. *)
Lemma name_join d base :
  "/"%char ∉ base → base ≠ [] → base ≠ ["."%char] →
  name (d ++ "/"%char :: base) = base.
Proof.
  intros Hno Hne Hdot. unfold name.
  rewrite split_slash_app, (split_slash_no_slash base) by done.
  rewrite filter_app, filter_cons_True by (by split).
  rewrite filter_nil. apply last_last.
Qed.

Lemma name_alone base :
  "/"%char ∉ base → base ≠ [] → base ≠ ["."%char] → name base = base.
Proof.
  intros Hno Hne Hdot. unfold name.
  rewrite split_slash_no_slash by done.
  by rewrite filter_cons_True by (by split).
Qed.

(** X6. The sort key of a file is read off its last path component: it
    is the key of the bare file name, whatever directories lead to it. *)
Theorem sort_key_ignores_directory (s : string) d base :
  "/"%char ∉ base → base ≠ [] → base ≠ ["."%char] →
  chars s = d ++ "/"%char :: base →
  sort_key s = sort_key (str base).
Proof.
  intros Hno Hne Hdot Hs. unfold sort_key, stem.
  rewrite Hs, name_join by done.
  unfold chars, str. rewrite list_ascii_of_string_of_list_ascii.
  by rewrite name_alone.
Qed.

End PathFacts.

(** ** The session pass over a dataset *)

Section DatasetPasses.
Import Py Re Pathlib Fo ImportDataset.

(** A pass over the samples handles a prefix of them and leaves the rest. *)
Lemma iter_samples_prefix (body : Sample → result Sample)
    (dataset : list Sample) :
  ∃ k : nat,
    Forall2 (λ s s', body s = Ok s')
      (take k dataset) (take k (fst (iter_samples body dataset)))
    ∧ drop k (fst (iter_samples body dataset)) = drop k dataset
    ∧ match snd (iter_samples body dataset) with
      | None => k = length dataset
      | Some e => ∃ s, dataset !! k = Some s ∧ body s = Raise e
      end.
Proof.
  induction dataset as [|s rest (k & Hpre & Hpost & Herr)].
  - exists O. cbn. split; [constructor|done].
  - cbn [iter_samples]. destruct (body s) as [s'|e] eqn:Hs.
    + destruct (iter_samples body rest) as [rest' err]. cbn [fst snd] in *.
      exists (S k). cbn. split; [by constructor|]. split; [done|].
      destruct err; [done|]. by rewrite Herr.
    + exists O. cbn. split; [constructor|]. split; [done|]. by exists s.
Qed.

Lemma iter_samples_filepath (body : Sample → result Sample)
    (dataset : list Sample) :
  (∀ s s', body s = Ok s' → filepath s' = filepath s) →
  map filepath (fst (iter_samples body dataset)) = map filepath dataset.
Proof.
  intros Hbody. induction dataset as [|s rest IH]; [done|].
  cbn [iter_samples]. destruct (body s) as [s'|e] eqn:Hs; [|done].
  destruct (iter_samples body rest) as [rest' err]. cbn in *.
  by rewrite IH, (Hbody _ _ Hs).
Qed.

Lemma add_session_field_sample_cases (field_name : string) (sample : Sample) :
  match add_session_field_sample field_name sample with
  | Ok sample' =>
      ∃ g, sample' = set_field field_name (str g) sample
           ∧ ∃ pre post, chars (filepath sample) = pre ++ g ++ post
                         ∧ session_shaped g
  | Raise e =>
      e = ValueError
      ∧ ∀ pre g post,
          chars (filepath sample) = pre ++ g ++ post → ¬ session_shaped g
  end.
Proof.
  unfold add_session_field_sample.
  pose proof (search_session (chars (filepath sample))) as H.
  destruct (search session_pattern (chars (filepath sample))) as [caps|].
  - destruct H as (pre & g & post & -> & Hpath & Hg & _).
    exists g. split; [done|]. by exists pre, post.
  - done.
Qed.

(** X7. The session pass over a dataset keeps the samples' paths and their
    order.  It gives a session to the samples in turn and stops at the
    first whose path holds no substring shaped [YYYY-MM-DD_a<N>], with
    [ValueError]: the samples before it have their session, that sample and
    all after it are as they were. *)
Theorem add_session_field_stops_at_first_mismatch (dataset : list Sample)
    (field_name : string) :
  let has_session (s : Sample) :=
    ∃ pre g post, chars (filepath s) = pre ++ g ++ post ∧ session_shaped g in
  let out := add_session_field dataset field_name in
  map filepath (fst out) = map filepath dataset
  ∧ ∃ k : nat,
      Forall2 (λ s s', has_session s
                       ∧ add_session_field_sample field_name s = Ok s')
        (take k dataset) (take k (fst out))
      ∧ drop k (fst out) = drop k dataset
      ∧ match snd out with
        | None => k = length dataset
        | Some e =>
            e = ValueError
            ∧ ∃ s, dataset !! k = Some s ∧ ¬ has_session s
        end.
Proof.
  intros has_session out. subst out. unfold add_session_field.
  destruct (iter_samples_prefix (add_session_field_sample field_name) dataset)
    as (k & Hpre & Hpost & Herr).
  assert (Hpre' : Forall2 (λ s s', has_session s
                     ∧ add_session_field_sample field_name s = Ok s')
            (take k dataset)
            (take k (fst (iter_samples (add_session_field_sample field_name)
                            dataset)))).
  { eapply Forall2_impl; [exact Hpre|]. intros s s' Hs. split; [|done].
    pose proof (add_session_field_sample_cases field_name s) as Hc.
    rewrite Hs in Hc. destruct Hc as (g & _ & pre & post & Hp & Hg).
    by exists pre, g, post. }
  split.
  - apply iter_samples_filepath. intros s s' Hs.
    pose proof (add_session_field_sample_cases field_name s) as Hc.
    rewrite Hs in Hc. by destruct Hc as (g & -> & _).
  - exists k. split; [done|]. split; [done|].
    destruct (snd _) as [e|]; [|done].
    destruct Herr as (s & Hk & Hs).
    pose proof (add_session_field_sample_cases field_name s) as Hc.
    rewrite Hs in Hc. destruct Hc as [-> Hno]. split; [done|].
    exists s. split; [done|]. intros (pre & g & post & Hp & Hg).
    by apply (Hno pre g post).
Qed.

End DatasetPasses.

(** ** More on the keyboard pass *)

Section KeyboardMore.
Import Py Fo ImportDataset Rounding Vocabulary.

Lemma truediv_int_ok_nonzero (a : Binary64.number) (b : Z) x :
  Binary64.truediv_int a b = Ok x → b ≠ 0.
Proof. intros H ->. by rewrite truediv_int_zero in H. Qed.

Lemma rel_box_raise (width height : Z) (b : Corners) e :
  rel_box width height b = Raise e →
  (e = ZeroDivisionError ∧ (width = 0 ∨ height = 0)) ∨ e = OverflowError.
Proof.
  unfold rel_box.
  destruct (Binary64.truediv_int (x1 b) width) as [x|e1] eqn:H1;
    cbn [mbind result_bind bind].
  2:{ intros [= <-]. apply truediv_int_raise in H1 as [[-> ->]| ->]; auto. }
  destruct (Binary64.truediv_int (y1 b) height) as [y|e2] eqn:H2;
    cbn [mbind result_bind bind].
  2:{ intros [= <-]. apply truediv_int_raise in H2 as [[-> ->]| ->]; auto. }
  destruct (Binary64.truediv_int (x2 b) width) as [x'|e3] eqn:H3;
    cbn [mbind result_bind bind].
  2:{ intros [= <-]. apply truediv_int_raise in H3 as [[-> ->]| ->]; auto. }
  destruct (Binary64.truediv_int (y2 b) height) as [y'|e4] eqn:H4;
    cbn [mbind result_bind bind]; [done|].
  intros [= <-]. apply truediv_int_raise in H4 as [[-> ->]| ->]; auto.
Qed.

Lemma rel_box_ok_nonzero (width height : Z) (b : Corners) box :
  rel_box width height b = Ok box → width ≠ 0 ∧ height ≠ 0.
Proof.
  unfold rel_box.
  destruct (Binary64.truediv_int (x1 b) width) as [x|e1] eqn:H1;
    cbn [mbind result_bind bind]; [|done].
  destruct (Binary64.truediv_int (y1 b) height) as [y|e2] eqn:H2;
    cbn [mbind result_bind bind]; [|done].
  intros _. split; by eapply truediv_int_ok_nonzero.
Qed.

Lemma detections_of_raise (width height : Z) (preds : list Pred) e :
  detections_of width height preds = Raise e →
  preds ≠ []
  ∧ ((e = ZeroDivisionError ∧ (width = 0 ∨ height = 0)) ∨ e = OverflowError).
Proof.
  induction preds as [|p preds IH]; cbn; [done|].
  unfold detection_of.
  destruct (rel_box width height (pred_box p)) as [box|e'] eqn:Hbox;
    cbn [mbind result_bind bind].
  - destruct (detections_of width height preds) as [ds|e'];
      cbn [mbind result_bind bind]; [done|].
    intros [= <-]. by destruct (IH eq_refl) as [_ H].
  - intros [= <-]. split; [done|]. by apply rel_box_raise in Hbox.
Qed.

Lemma detections_of_ok (width height : Z) (preds : list Pred) dets :
  detections_of width height preds = Ok dets →
  (preds = [] ∨ (width ≠ 0 ∧ height ≠ 0))
  ∧ map det_label dets = map pred_name preds
  ∧ map det_confidence dets = map pred_confidence preds
  ∧ map det_cls dets = map pred_class preds.
Proof.
  revert dets. induction preds as [|p preds IH]; intros dets; cbn.
  - intros [= <-]. split; [by left|done].
  - unfold detection_of.
    destruct (rel_box width height (pred_box p)) as [box|e'] eqn:Hbox;
      cbn [mbind result_bind bind]; [|done].
    destruct (detections_of width height preds) as [ds|e'];
      cbn [mbind result_bind bind]; [|done].
    intros [= <-]. destruct (IH ds eq_refl) as (_ & Hl & Hc & Hk).
    cbn. rewrite Hl, Hc, Hk. split; [|done]. right.
    by apply rel_box_ok_nonzero in Hbox.
Qed.

(** What the comprehension gives, by the file and by the session field. *)
Lemma sample_preds_cases (schema : gset string) (keyboard_preds : list Entry)
    (sample : Sample) :
  let session := fields sample !! "session"%string in
  match sample_preds schema keyboard_preds sample with
  | Ok preds =>
      (keyboard_preds = [] ∧ preds = [])
      ∨ (session = None ∧ "session"%string ∈ schema ∧ preds = [])
      ∨ (∃ s, session = Some s ∧ preds = session_preds keyboard_preds s)
  | Raise e =>
      e = AttributeError ∧ keyboard_preds ≠ []
      ∧ session = None ∧ "session"%string ∉ schema
  end.
Proof.
  cbn zeta.
  destruct (fields sample !! "session"%string) as [s|] eqn:Hs.
  { rewrite (sample_preds_session _ _ _ _ Hs). right. right. by exists s. }
  destruct keyboard_preds as [|e0 rest]; [by left|].
  destruct (decide ("session"%string ∈ schema)) as [Hin|Hout].
  - assert (Hall : ∀ l, sample_preds schema l sample = Ok []).
    { induction l as [|e l IH]; [done|].
      cbn [sample_preds]. unfold get_field. rewrite Hs, decide_True by done.
      cbn [mbind result_bind bind]. by rewrite IH. }
    rewrite Hall. right. by left.
  - cbn [sample_preds]. unfold get_field. rewrite Hs, decide_False by done.
    done.
Qed.

(** The comprehension reads nothing of the sample but its fields. *)
Lemma sample_preds_fields (schema : gset string) (keyboard_preds : list Entry)
    (sample sample' : Sample) :
  fields sample' = fields sample →
  sample_preds schema keyboard_preds sample'
  = sample_preds schema keyboard_preds sample.
Proof.
  intros Hf. induction keyboard_preds as [|e rest IH]; [done|].
  cbn [sample_preds]. by rewrite Hf, IH.
Qed.


Lemma frames_setfield_numbers (n : Z) (field : string) (v : label)
    (fs : Frames) (x : Z) :
  x ∈ frame_numbers (frames_setfield n field v fs) →
  x = n ∨ x ∈ frame_numbers fs.
Proof.
  induction fs as [|[m fr] fs IH]; cbn.
  - intros H%list_elem_of_singleton. by left.
  - destruct (n <? m); [|destruct (n =? m)]; cbn.
    + intros H%elem_of_cons. destruct H as [->|H]; [by left|by right].
    + intros H. by right.
    + intros H%elem_of_cons. destruct H as [->|H].
      * right. apply elem_of_cons. by left.
      * destruct (IH H) as [->|Hin]; [by left|].
        right. apply elem_of_cons. by right.
Qed.

Lemma frames_setfield_sorted (n : Z) (field : string) (v : label)
    (fs : Frames) :
  StronglySorted Z.lt (frame_numbers fs) →
  StronglySorted Z.lt (frame_numbers (frames_setfield n field v fs)).
Proof.
  induction fs as [|[m fr] fs IH]; cbn; intros Hs.
  - repeat constructor.
  - inversion Hs as [|? ? Hs' Hall]; subst.
    destruct (Z.ltb_spec n m); [|destruct (Z.eqb_spec n m)]; cbn.
    + constructor; [done|]. constructor; [lia|].
      eapply Forall_impl; [exact Hall|]. cbn. lia.
    + done.
    + constructor; [by apply IH|].
      apply Forall_forall. intros x Hx.
      apply frames_setfield_numbers in Hx as [->|Hx]; [lia|].
      eapply Forall_forall in Hall; [exact Hall|done].
Qed.

Lemma frames_setfield_noop (n : Z) (field : string) (v : label)
    (fs : Frames) fr :
  StronglySorted Z.lt (frame_numbers fs) →
  frames_lookup n fs = Some fr → fr !! field = Some v →
  frames_setfield n field v fs = fs.
Proof.
  induction fs as [|[m fr0] fs IH]; cbn; intros Hs Hl Hv; [done|].
  inversion Hs as [|? ? Hs' Hall]; subst.
  destruct (Z.eqb_spec n m) as [->|Hne].
  - injection Hl as ->. rewrite Z.ltb_irrefl. do 2 f_equal. by apply insert_id.
  - apply frames_lookup_present in Hl as Hin.
    eapply Forall_forall in Hall; [|exact Hin].
    destruct (Z.ltb_spec n m); [lia|]. by rewrite IH.
Qed.

Lemma frames_setfield_field_other (n n' : Z) (field f' : string) (v : label)
    (fs : Frames) :
  StronglySorted Z.lt (frame_numbers fs) →
  f' ≠ field →
  frames_lookup n' (frames_setfield n field v fs) ≫= (.!! f')
  = frames_lookup n' fs ≫= (.!! f').
Proof.
  intros Hs Hf. destruct (Z.eq_dec n' n) as [->|Hne];
    [|by rewrite frames_setfield_other].
  induction fs as [|[m fr] fs IH]; cbn.
  - rewrite Z.eqb_refl. cbn. by apply lookup_singleton_ne.
  - inversion Hs as [|? ? Hs' Hall]; subst.
    destruct (Z.ltb_spec n m); [|destruct (Z.eqb_spec n m) as [->|Hnm]]; cbn.
    + rewrite Z.eqb_refl. destruct (Z.eqb_spec n m); [lia|]. cbn.
      rewrite frames_lookup_absent.
      * by apply lookup_singleton_ne.
      * intros Hin. eapply Forall_forall in Hall; [|exact Hin]. lia.
    + rewrite Z.eqb_refl. cbn. by apply lookup_insert_ne.
    + destruct (Z.eqb_spec n m); [done|]. by apply IH.
Qed.

Lemma write_all_frames_fold (P : Frames → Prop) field dets total fs :
  P fs →
  (∀ n fs, P fs → P (frames_setfield n field (Detections dets) fs)) →
  P (write_all_frames field dets total fs).
Proof.
  intros Hfs Hstep. unfold write_all_frames.
  revert fs Hfs. induction (seq 0 (Z.to_nat total)) as [|i l IH]; intros fs Hfs;
    [done|].
  cbn. apply IH. by apply Hstep.
Qed.

Lemma write_all_frames_sorted field dets total fs :
  StronglySorted Z.lt (frame_numbers fs) →
  StronglySorted Z.lt (frame_numbers (write_all_frames field dets total fs)).
Proof.
  intros Hs.
  apply (write_all_frames_fold (λ fs, StronglySorted Z.lt (frame_numbers fs)));
    [done|].
  intros n fs' Hs'. by apply frames_setfield_sorted.
Qed.

Lemma write_all_frames_field_other field dets total fs n f' :
  StronglySorted Z.lt (frame_numbers fs) →
  f' ≠ field →
  frames_lookup n (write_all_frames field dets total fs) ≫= (.!! f')
  = frames_lookup n fs ≫= (.!! f').
Proof.
  intros Hs Hf.
  apply (write_all_frames_fold
           (λ fs', StronglySorted Z.lt (frame_numbers fs')
                   ∧ frames_lookup n fs' ≫= (.!! f')
                     = frames_lookup n fs ≫= (.!! f'))); [done|].
  intros m fs' [Hs' Heq]. split; [by apply frames_setfield_sorted|].
  by rewrite frames_setfield_field_other.
Qed.

Lemma write_all_frames_twice field dets total fs :
  StronglySorted Z.lt (frame_numbers fs) →
  write_all_frames field dets total (write_all_frames field dets total fs)
  = write_all_frames field dets total fs.
Proof.
  intros Hs. set (fs' := write_all_frames field dets total fs).
  assert (Hs' : StronglySorted Z.lt (frame_numbers fs'))
    by by apply write_all_frames_sorted.
  assert (Hall : ∀ i, i ∈ seq 0 (Z.to_nat total) →
            ∃ fr, frames_lookup (Z.of_nat i + 1) fs' = Some fr
                  ∧ fr !! field = Some (Detections dets)).
  { intros i Hi%elem_of_seq.
    apply (write_all_frames_lookup field dets total fs). lia. }
  unfold write_all_frames at 1.
  induction (seq 0 (Z.to_nat total)) as [|i l IH]; [done|].
  cbn. destruct (Hall i) as (fr & Hl & Hv); [by left|].
  rewrite (frames_setfield_noop _ _ _ _ fr Hs' Hl Hv).
  apply IH. intros j Hj. apply Hall. by right.
Qed.

(** X9. The keyboard pass writes its own field and nothing else: the
    path, the metadata and the sample fields stay, the frame records stay
    in increasing order, and on every frame number every other field reads
    as before (a frame record made by the pass holds none). *)
Theorem keyboard_pass_keeps_other_fields (schema : gset string)
    (keyboard_preds : list Entry) (field_name : string)
    (sample sample' : Sample) :
  StronglySorted Z.lt (frame_numbers (frames sample)) →
  add_keyboard_bboxes_sample schema keyboard_preds field_name sample
  = Ok sample' →
  filepath sample' = filepath sample
  ∧ metadata sample' = metadata sample
  ∧ fields sample' = fields sample
  ∧ StronglySorted Z.lt (frame_numbers (frames sample'))
  ∧ ∀ n f, f ≠ field_name →
      frames_lookup n (frames sample') ≫= (.!! f)
      = frames_lookup n (frames sample) ≫= (.!! f).
Proof.
  intros Hs Hrun. unfold add_keyboard_bboxes_sample in Hrun.
  destruct (sample_preds _ _ _) as [preds|]; cbn [mbind result_bind bind] in Hrun;
    [|done].
  destruct (the_one_pred _) as [preds0|]; cbn [mbind result_bind bind] in Hrun;
    [|done].
  destruct (detections_of _ _ _) as [dets|]; cbn [mbind result_bind bind] in Hrun;
    [|done].
  injection Hrun as <-. cbn [set_frames filepath metadata fields frames].
  repeat split; try done.
  - by apply write_all_frames_sorted.
  - intros n f Hf. by apply write_all_frames_field_other.
Qed.

(** X10. Running the keyboard pass on a sample it has already handled
    gives that sample again. *)
Theorem keyboard_pass_idempotent (schema : gset string)
    (keyboard_preds : list Entry) (field_name : string)
    (sample sample' : Sample) :
  StronglySorted Z.lt (frame_numbers (frames sample)) →
  add_keyboard_bboxes_sample schema keyboard_preds field_name sample
  = Ok sample' →
  add_keyboard_bboxes_sample schema keyboard_preds field_name sample'
  = Ok sample'.
Proof.
  intros Hs Hrun. unfold add_keyboard_bboxes_sample in *.
  destruct (sample_preds schema keyboard_preds sample) as [preds|] eqn:Hp;
    cbn [mbind result_bind bind] in Hrun; [|done].
  destruct (the_one_pred _) as [preds0|] eqn:Hone;
    cbn [mbind result_bind bind] in Hrun; [|done].
  destruct (detections_of _ _ _) as [dets|] eqn:Hd;
    cbn [mbind result_bind bind] in Hrun; [|done].
  injection Hrun as <-.
  rewrite (sample_preds_fields _ _ sample) by done. rewrite Hp. cbn [mbind result_bind bind]. rewrite Hone.
  cbn [mbind result_bind bind set_frames filepath metadata fields frames].
  rewrite Hd. cbn [mbind result_bind bind]. by rewrite write_all_frames_twice.
Qed.

Lemma keyboard_pass_attribute_error (schema : gset string)
    (keyboard_preds : list Entry) (field_name : string) (sample : Sample) :
  add_keyboard_bboxes_sample schema keyboard_preds field_name sample
  = Raise AttributeError
  ↔ keyboard_preds ≠ [] ∧ fields sample !! "session"%string = None
    ∧ "session"%string ∉ schema.
Proof.
  split.
  - intros Hrun. unfold add_keyboard_bboxes_sample in Hrun.
    pose proof (sample_preds_cases schema keyboard_preds sample) as Hc.
    cbn zeta in Hc.
    destruct (sample_preds schema keyboard_preds sample) as [preds|err];
      cbn [mbind result_bind bind] in Hrun.
    + exfalso. unfold the_one_pred in Hrun.
      destruct (length preds =? 1)%nat; [|done].
      destruct preds as [|p l]; [done|]. cbn [mbind result_bind bind] in Hrun.
      destruct (detections_of _ _ p) as [dets|e] eqn:Hd;
        cbn [mbind result_bind bind] in Hrun; [done|].
      injection Hrun as ->.
      by destruct (detections_of_raise _ _ _ _ Hd) as (_ & [[? _]|?]).
    + injection Hrun as ->. by destruct Hc as (_ & ? & ? & ?).
  - intros (Hne & Hs & Hnot).
    unfold add_keyboard_bboxes_sample.
    destruct keyboard_preds; [done|]. cbn [sample_preds]. unfold get_field.
    rewrite Hs. by rewrite decide_False by done.
Qed.


End KeyboardMore.

(** ** More on [run_mp] *)

Section RunMpMore.
Import Py Fo RunMediapipe Vocabulary.
Context {Image : Type}.
Context (infer : @Landmarker Image → Image → Z → HandLandmarkerResult).
Context (cvtColor_BGR2RGB : Image → Image).

Local Abbreviation frame_loop :=
  (RunMediapipe.frame_loop infer cvtColor_BGR2RGB).
Local Abbreviation run_mp_sample :=
  (RunMediapipe.run_mp_sample infer cvtColor_BGR2RGB).
Local Abbreviation detect_hands :=
  (RunMediapipe.detect_hands infer).

Lemma frame_loop_other_fields fps field cap lm items :
  Forall2 (λ a b, fst b = fst a
                  ∧ ∀ f, f ≠ field → snd b !! f = snd a !! f)
    items (end_frames (frame_loop fps field cap lm items)).
Proof.
  revert cap lm. induction items as [|[n fr] rest IH]; intros cap lm.
  - constructor.
  - assert (Hrefl : Forall2 (λ a b : Z * Frame, fst b = fst a
               ∧ ∀ f, f ≠ field → snd b !! f = snd a !! f)
               ((n, fr) :: rest) ((n, fr) :: rest)).
    { apply Forall2_same_length_lookup. split; [done|].
      intros i a b Ha Hb. rewrite Ha in Hb. by injection Hb as ->. }
    cbn [RunMediapipe.frame_loop].
    destruct (read cap) as [[img|] cap']; [|done].
    destruct (frame_timestamp_ms fps n) as [ts|e]; [|done].
    destruct (RunMediapipe.detect_hands _ _ _ _) as [kps lm'].
    cbn [end_frames]. constructor; [|apply IH]. split; [done|].
    intros f Hf. cbn [snd]. by apply lookup_insert_ne.
Qed.

(** X13. [run_mp] writes one frame field and nothing else: whether the
    pass over a sample ends in a save or in an exception, the path, the
    metadata and the sample fields are as before, the frame records are the
    same in number and order, and every other field of every frame record
    reads as before. *)
Theorem run_mp_keeps_other_fields field (cap : VideoCapture Image) sample :
  let sample' := sample_of (fst (run_mp_sample field cap sample)) in
  filepath sample' = filepath sample
  ∧ metadata sample' = metadata sample
  ∧ fields sample' = fields sample
  ∧ Forall2 (λ a b, fst b = fst a
                    ∧ ∀ f, f ≠ field → snd b !! f = snd a !! f)
      (frames sample) (frames sample').
Proof.
  intros sample'. subst sample'. unfold RunMediapipe.run_mp_sample. cbv zeta.
  destruct (end_exn _); cbn; repeat split; try done;
    apply frame_loop_other_fields.
Qed.


(** The records and the landmarker calls of the loop do not depend on the
    frame count that the capture declares. *)
Lemma frame_loop_frame_count fps field cap lm items (declared : Z) :
  let cap' := {| reads := reads cap; CAP_PROP_FRAME_COUNT := declared;
                 CAP_PROP_FPS := CAP_PROP_FPS cap |} in
  let r := frame_loop fps field cap lm items in
  let r' := frame_loop fps field cap' lm items in
  end_frames r' = end_frames r
  ∧ end_landmarker r' = end_landmarker r
  ∧ end_exn r' = end_exn r.
Proof.
  revert cap lm. induction items as [|[n fr] rest IH]; intros cap lm; [done|].
  cbn zeta. cbn [RunMediapipe.frame_loop]. unfold read. cbn [reads].
  destruct (reads cap) as [|[img|] rds] eqn:Hr; [done| |done].
  destruct (frame_timestamp_ms fps n) as [ts|e]; [|done].
  destruct (RunMediapipe.detect_hands _ _ _ _) as [kps lm'].
  cbn [end_frames end_landmarker end_exn CAP_PROP_FPS CAP_PROP_FRAME_COUNT].
  specialize (IH {| reads := rds;
                    CAP_PROP_FRAME_COUNT := CAP_PROP_FRAME_COUNT cap;
                    CAP_PROP_FPS := CAP_PROP_FPS cap |} lm').
  cbn zeta in IH. cbn [reads CAP_PROP_FPS] in IH.
  destruct IH as (-> & -> & ->). done.
Qed.

(** X14. The frame count that the capture declares only feeds the progress
    bar: a capture that differs in nothing else gives the same sample and
    the same landmarker calls. *)
Theorem run_mp_ignores_declared_frame_count field (cap : VideoCapture Image)
    sample (declared : Z) :
  run_mp_sample field
    {| reads := reads cap; CAP_PROP_FRAME_COUNT := declared;
       CAP_PROP_FPS := CAP_PROP_FPS cap |} sample
  = run_mp_sample field cap sample.
Proof.
  unfold RunMediapipe.run_mp_sample. cbv zeta. cbn [CAP_PROP_FPS].
  destruct (frame_loop_frame_count (CAP_PROP_FPS cap) field cap []
              (frames sample) declared) as (-> & -> & ->).
  done.
Qed.

(** The landmarker history of the loop, oldest call first: the decoded
    frames, converted, each with the timestamp of the record it served. *)
Lemma frame_loop_history fps field cap lm items :
  let k := decoded (reads cap) in
  Forall (λ i, is_ok (frame_timestamp_ms fps i) = true)
    (frame_numbers (take k items)) →
  ∃ stamps,
    Forall2 (λ i ts, frame_timestamp_ms fps i = Ok ts)
      (frame_numbers (take k items)) stamps
    ∧ rev (end_landmarker (frame_loop fps field cap lm items))
      = rev lm
        ++ zip (map cvtColor_BGR2RGB (omap id (take k (reads cap)))) stamps.
Proof.
  revert cap lm. induction items as [|[n fr] rest IH]; intros cap lm k Hok;
    subst k.
  - exists []. rewrite take_nil. split; [constructor|].
    cbn. by rewrite zip_with_nil_r, app_nil_r.
  - cbn [RunMediapipe.frame_loop].
    destruct (reads cap) as [|[img|] rds] eqn:Hr.
    + rewrite (read_nil _ Hr). exists []. cbn. split; [constructor|].
      by rewrite app_nil_r.
    + rewrite (read_cons _ _ _ Hr). cbn in Hok.
      inversion Hok as [|? ? Hn Hrest]; subst.
      destruct (frame_timestamp_ms fps n) as [ts|e] eqn:Hts; [|done].
      destruct (RunMediapipe.detect_hands _ _ _ _) as [kps lm'] eqn:Hd.
      unfold RunMediapipe.detect_hands, detect_for_video in Hd.
      injection Hd as _ <-.
      destruct (IH {| reads := rds;
                    CAP_PROP_FRAME_COUNT := CAP_PROP_FRAME_COUNT cap;
                    CAP_PROP_FPS := CAP_PROP_FPS cap |}
                  ((cvtColor_BGR2RGB img, ts) :: lm) Hrest)
        as (stamps & Hstamps & Hhist).
      exists (ts :: stamps). cbn [decoded take frame_numbers map].
      split; [by constructor|].
      cbn [end_landmarker]. rewrite Hhist. cbn [reads rev omap id map zip_with].
      by rewrite <- app_assoc.
    + rewrite (read_cons _ _ _ Hr). exists []. cbn. split; [constructor|].
      by rewrite app_nil_r.
Qed.


End RunMpMore.

Section DetectHands.
Import Py Fo RunMediapipe.
Context {Image : Type}.
Context (infer : @Landmarker Image → Image → Z → HandLandmarkerResult).

(** X16. [detect_hands] calls the landmarker once and returns one keypoint
    set for each hand that has both a handedness and landmarks, as many as
    the shorter of the two lists: the i-th set is labelled with the first
    category of the i-th handedness and holds the x and y of the i-th
    landmarks, without their z. *)
Theorem detect_hands_pairs_hands (video_frame : Image) (ts : Z)
    (lm : Landmarker) :
  let result := infer lm video_frame ts in
  let out := detect_hands infer video_frame ts lm in
  snd out = (video_frame, ts) :: lm
  ∧ length (fst out)
    = Nat.min (length (handedness result)) (length (hand_landmarks result))
  ∧ ∀ (i : nat) hd landmarks,
      handedness result !! i = Some hd →
      hand_landmarks result !! i = Some landmarks →
      fst out !! i
      = Some {| kp_label := category_name (fst hd);
                kp_points := map (λ l, (lm_x l, lm_y l)) landmarks |}.
Proof.
  intros result out. subst out. unfold detect_hands, detect_for_video.
  fold result. cbn [fst snd]. split; [done|]. split.
  - by rewrite length_map, length_zip_with.
  - intros i hd landmarks Hhd Hlms.
    change (map ?f ?l) with (f <$> l) at 1.
    rewrite list_lookup_fmap.
    rewrite (proj2 (lookup_zip_with_Some _ _ _ _ _) (ex_intro _ hd (ex_intro _ landmarks (conj eq_refl (conj Hhd Hlms))))).
    done.
Qed.

End DetectHands.

Section RunMpDataset.
Import Py Fo RunMediapipe.
Context {Image : Type}.
Context (infer : @Landmarker Image → Image → Z → HandLandmarkerResult).
Context (cvtColor_BGR2RGB : Image → Image).
Context (VideoCapture_open : string → VideoCapture Image).

Local Abbreviation run_mp_sample :=
  (RunMediapipe.run_mp_sample infer cvtColor_BGR2RGB).
Local Abbreviation run_mp :=
  (RunMediapipe.run_mp infer cvtColor_BGR2RGB VideoCapture_open).


End RunMpDataset.

(** ** The download progress bar *)

Section DownloadFacts.
Import Download.

(** X18. After any sequence of reports from the download, the bar stands at
    the block count times the block size of the latest report, whatever
    was reported before; its total is the total size of that report, or
    what it was when that report gives none. *)
Theorem update_to_sets_position (bar : tqdm) (calls : list (Z * Z * option Z))
    (b bsize : Z) (tsize : option Z) :
  let bar' := report bar (calls ++ [(b, bsize, tsize)]) in
  n bar' = b * bsize
  ∧ total bar' = match tsize with
                 | Some t => Some t
                 | None => total (report bar calls)
                 end.
Proof.
  cbn zeta. unfold report. rewrite fold_left_app. cbn [fold_left].
  unfold update_to, update. destruct tsize; cbn; split; (lia || done).
Qed.

End DownloadFacts.

(** ** More on the exporter *)

Section ExportMore.
Import Py Fo CustomExport Vocabulary.

Lemma field_keypoints_cases (schema : gset string) (field : string)
    (frame : Frame) :
  match field_keypoints schema field frame with
  | Ok kps => frame !! field = Some (Keypoints kps)
  | Raise e =>
      (∀ kps, frame !! field ≠ Some (Keypoints kps))
      ∧ ((e = KeyError ∧ frame !! field = None ∧ field ∉ schema)
         ∨ (e = AttributeError
            ∧ (field ∈ schema ∨ is_Some (frame !! field))))
  end.
Proof.
  unfold field_keypoints, get_field, Frame in *.
  destruct (frame !! field) as [[dets|kps]|] eqn:Hf;
    cbn [mbind result_bind bind]; [|done|].
  - split; [done|]. right. split; [done|]. right. by eexists.
  - destruct (decide (field ∈ schema)); cbn [mbind result_bind bind].
    + split; [done|]. right. split; [done|]. by left.
    + split; [done|]. by left.
Qed.

Lemma frame_entries_ok (schema : gset string) (field : string)
    (items : Frames) entries :
  frame_entries schema field items = Ok entries →
  Forall (holds_keypoints field) items
  ∧ map frame_number entries = frame_numbers items.
Proof.
  revert entries. induction items as [|[n fr] items IH]; intros entries; cbn.
  - intros [= <-]. by split.
  - unfold frame_entry. cbn [fst snd].
    pose proof (field_keypoints_cases schema field fr) as Hc.
    destruct (field_keypoints schema field fr) as [kps|e];
      cbn [mbind result_bind bind]; [|done].
    destruct (frame_entries schema field items) as [es|e];
      cbn [mbind result_bind bind]; [|done].
    intros [= <-]. destruct (IH es eq_refl) as [Hall Hnum]. split.
    + constructor; [by exists kps|done].
    + cbn. by rewrite Hnum.
Qed.

(** The entries fail at the first frame record without keypoints, with
    the exception of the read of that record. *)
Lemma frame_entries_raise (schema : gset string) (field : string)
    (items : Frames) e :
  frame_entries schema field items = Raise e →
  ∃ (i : nat) item,
    items !! i = Some item
    ∧ Forall (holds_keypoints field) (take i items)
    ∧ ¬ holds_keypoints field item
    ∧ ((e = KeyError ∧ snd item !! field = None ∧ field ∉ schema)
       ∨ (e = AttributeError
          ∧ (field ∈ schema ∨ is_Some (snd item !! field)))).
Proof.
  induction items as [|[n fr] items IH]; cbn; [done|].
  unfold frame_entry. cbn [fst snd].
  pose proof (field_keypoints_cases schema field fr) as Hc.
  destruct (field_keypoints schema field fr) as [kps|e'];
    cbn [mbind result_bind bind].
  - destruct (frame_entries schema field items) as [es|e'];
      cbn [mbind result_bind bind]; [done|].
    intros [= <-]. destruct (IH eq_refl) as (i & item & Hi & Hall & Hno & He).
    exists (S i), item. split; [done|]. split; [|done].
    cbn. constructor; [by exists kps|done].
  - intros [= <-]. destruct Hc as [Hno He].
    exists O, (n, fr). split; [done|]. split; [constructor|].
    split; [|done]. intros [kps Hk]. by apply (Hno kps).
Qed.

(** X19. The exporter writes a document for a sample exactly when every
    frame record holds a keypoints label under the field: the document then
    has the name of the file and one entry per frame record, in order.
    Otherwise it raises at the first frame record without keypoints:
    [KeyError] when that record has no value of the field and the dataset
    does not declare the field, [AttributeError] when the field is declared
    or the record holds another label. *)
Theorem export_needs_keypoints_on_every_frame (schema : gset string)
    (field : string) (sample : Sample) :
  match export_sample schema field sample with
  | Ok dump =>
      Forall (holds_keypoints field) (Fo.frames sample)
      ∧ map frame_number (frames dump) = frame_numbers (Fo.frames sample)
      ∧ filename dump = Pathlib.str (Pathlib.name (Pathlib.chars (filepath sample)))
  | Raise e =>
      ∃ (i : nat) item,
        Fo.frames sample !! i = Some item
        ∧ Forall (holds_keypoints field) (take i (Fo.frames sample))
        ∧ ¬ holds_keypoints field item
        ∧ ((e = KeyError ∧ snd item !! field = None ∧ field ∉ schema)
           ∨ (e = AttributeError
              ∧ (field ∈ schema ∨ is_Some (snd item !! field))))
  end.
Proof.
  unfold export_sample.
  destruct (frame_entries schema field (Fo.frames sample)) as [es|e] eqn:He;
    cbn [mbind result_bind bind].
  - destruct (frame_entries_ok _ _ _ _ He). by repeat split.
  - by apply frame_entries_raise.
Qed.

(** A document that is written does not depend on the schema. *)
Lemma export_sample_ok_any (schema schema' : gset string) (field : string)
    (sample : Sample) dump :
  export_sample schema field sample = Ok dump →
  export_sample schema' field sample = Ok dump.
Proof.
  unfold export_sample.
  enough (H : ∀ items es, frame_entries schema field items = Ok es →
                          frame_entries schema' field items = Ok es).
  { destruct (frame_entries schema field (Fo.frames sample)) as [es|] eqn:He;
      cbn [mbind result_bind bind]; [|done].
    intros [= <-]. by rewrite (H _ _ He). }
  induction items as [|[n fr] items IH]; intros es; cbn; [done|].
  unfold frame_entry. cbn [fst snd].
  pose proof (field_keypoints_cases schema field fr) as Hc.
  destruct (field_keypoints schema field fr) as [kps|];
    cbn [mbind result_bind bind]; [|done].
  rewrite (field_keypoints_held schema' _ _ _ Hc).
  cbn [mbind result_bind bind].
  destruct (frame_entries schema field items) as [es'|];
    cbn [mbind result_bind bind]; [|done].
  intros [= <-]. by rewrite (IH es' eq_refl).
Qed.

(** The schema of a dataset has every field that a frame of it holds. *)
Lemma frame_schema_held (declared : gset string) (dataset : list Sample)
    (s : Sample) (item : Z * Frame) (field : string) :
  s ∈ dataset → item ∈ Fo.frames s → is_Some (snd item !! field) →
  field ∈ frame_schema declared dataset.
Proof.
  intros Hs Hitem Hf. unfold frame_schema.
  apply elem_of_union. right.
  apply elem_of_union_list. exists (frame_fields s). split.
  - apply list_elem_of_fmap. by exists s.
  - unfold frame_fields. apply elem_of_union_list.
    exists (dom (snd item)). split.
    + apply list_elem_of_fmap. by exists item.
    + by apply elem_of_dom.
Qed.

(** In a dataset, the export of a sample fails with the one exception that
    the schema of the dataset decides. *)
Lemma export_sample_raise (declared : gset string) (dataset : list Sample)
    (field : string) (s : Sample) e :
  let schema := frame_schema declared dataset in
  s ∈ dataset →
  export_sample schema field s = Raise e →
  e = if decide (field ∈ schema) then AttributeError else KeyError.
Proof.
  intros schema Hs Hexp. unfold export_sample in Hexp.
  destruct (frame_entries schema field (Fo.frames s)) as [es|e'] eqn:He;
    cbn [mbind result_bind bind] in Hexp; [done|].
  injection Hexp as ->.
  apply frame_entries_raise in He
    as (i & item & Hi & _ & _ & [(-> & _ & Hnot)|(-> & Hyes)]).
  - by rewrite decide_False.
  - rewrite decide_True; [done|]. destruct Hyes as [Hin|Hsome]; [done|].
    apply (frame_schema_held declared dataset s item); [done| |done].
    by eapply list_elem_of_lookup_2.
Qed.

End ExportMore.

Section ExportOneField.
Import Py Pathlib Fo ImportDataset CustomExport.

Lemma frame_entries_one_field (schema : gset string) (field : string)
    (items items' : Frames) :
  Forall2 (λ a b, fst b = fst a ∧ snd b !! field = snd a !! field)
    items items' →
  frame_entries schema field items' = frame_entries schema field items.
Proof.
  induction 1 as [|[n fr] [n' fr'] l l' [Hn Hf] _ IH]; [done|].
  cbn in Hn, Hf. subst n'. cbn [frame_entries].
  unfold frame_entry, field_keypoints, get_field, Frame in *. cbn [fst snd].
  by rewrite Hf, IH.
Qed.

(** X20. The document of a sample depends on its path and on what the
    frame records hold under the exported field, on nothing else: samples
    that agree on these get the same result. *)
Theorem export_reads_one_field (schema : gset string) (field : string)
    (sample sample' : Sample) :
  filepath sample' = filepath sample →
  Forall2 (λ a b, fst b = fst a ∧ snd b !! field = snd a !! field)
    (Fo.frames sample) (Fo.frames sample') →
  export_sample schema field sample' = export_sample schema field sample.
Proof.
  intros Hpath Hframes. unfold export_sample.
  by rewrite Hpath, (frame_entries_one_field _ _ _ _ Hframes).
Qed.

End ExportOneField.

Section Pipeline.
Import Py Fo RunMediapipe CustomExport Vocabulary.
Context {Image : Type}.
Context (infer : @Landmarker Image → Image → Z → HandLandmarkerResult).
Context (cvtColor_BGR2RGB : Image → Image).

Local Abbreviation frame_loop :=
  (RunMediapipe.frame_loop infer cvtColor_BGR2RGB).
Local Abbreviation run_mp_sample :=
  (RunMediapipe.run_mp_sample infer cvtColor_BGR2RGB).



End Pipeline.

Section ExportNames.
Import Py Pathlib Fo ImportDataset CustomExport Vocabulary.
Implicit Types (d base rest : list ascii).

(** X23. The exporter names a document after the stem of the file name
    alone: two samples whose files have the same name in different
    directories are written to the same path, and both documents carry
    that file name. *)
Theorem export_names_come_from_stems (declared schema : gset string)
    (field : string) (s1 s2 : Sample) d1 d2 base dump1 dump2 :
  "/"%char ∉ base → base ≠ [] → base ≠ ["."%char] →
  chars (filepath s1) = d1 ++ "/"%char :: base →
  chars (filepath s2) = d2 ++ "/"%char :: base →
  export_sample schema field s1 = Ok dump1 →
  export_sample schema field s2 = Ok dump2 →
  ∃ path,
    export declared field [s1; s2] = ([(path, dump1); (path, dump2)], None)
    ∧ filename dump1 = str base ∧ filename dump2 = str base.
Proof.
  intros Hno Hne Hdot H1 H2 Hd1 Hd2.
  eexists. unfold export. cbn [export_samples].
  rewrite (export_sample_ok_any _ (frame_schema declared [s1; s2]) _ _ _ Hd1).
  rewrite (export_sample_ok_any _ (frame_schema declared [s1; s2]) _ _ _ Hd2).
  unfold stem.
  rewrite H1, H2, !name_join by done. split; [reflexivity|].
  unfold export_sample in Hd1, Hd2.
  destruct (frame_entries schema field (Fo.frames s1)); [|done].
  destruct (frame_entries schema field (Fo.frames s2)); [|done].
  cbn [mbind result_bind bind] in Hd1, Hd2.
  injection Hd1 as <-. injection Hd2 as <-. cbn [filename].
  by rewrite H1, H2, !name_join.
Qed.

(** The loop of the export over samples of a dataset. *)
Lemma export_samples_prefix (declared : gset string) (all : list Sample)
    (field : string) (dataset : list Sample) :
  let schema := frame_schema declared all in
  dataset ⊆ all →
  let out := export_samples schema field dataset in
  let k := length (fst out) in
  Forall2 (λ s w,
             fst w = str (stem (chars (filepath s)) ++ chars ".json")
             ∧ export_sample schema field s = Ok (snd w))
    (take k dataset) (fst out)
  ∧ match snd out with
    | None => k = length dataset
    | Some e =>
        e = (if decide (field ∈ schema) then AttributeError else KeyError)
        ∧ ∃ s, dataset !! k = Some s
               ∧ export_sample schema field s = Raise e
    end.
Proof.
  intros schema. cbn zeta. induction dataset as [|s rest IH]; intros Hsub.
  - cbn. split; [constructor|done].
  - assert (Hs : s ∈ all) by (apply Hsub; by left).
    destruct IH as [Hpre Herr].
    { intros x Hx. apply Hsub. by right. }
    cbn [export_samples].
    destruct (export_sample schema field s) as [dump|e] eqn:Hexp.
    + destruct (export_samples schema field rest) as [written err].
      cbn [fst snd] in *. cbn [length take]. split; [by constructor|].
      destruct err as [e|]; [|by rewrite Herr]. done.
    + cbn. split; [constructor|]. split; [|by exists s].
      by apply (export_sample_raise declared all field s).
Qed.

(** X24. The export of a dataset writes one document per sample, named
    [<stem>.json], in order, and stops at the first sample whose export
    raises: the documents of the samples before it are written, none
    after.  The exception is [AttributeError] when the dataset declares the
    field, by a value on some frame or without one, and [KeyError] when it
    does not. *)
Theorem export_stops_at_first_failure (declared : gset string)
    (field : string) (dataset : list Sample) :
  let schema := frame_schema declared dataset in
  let out := export declared field dataset in
  let k := length (fst out) in
  Forall2 (λ s w,
             fst w = str (stem (chars (filepath s)) ++ chars ".json")
             ∧ export_sample schema field s = Ok (snd w))
    (take k dataset) (fst out)
  ∧ match snd out with
    | None => k = length dataset
    | Some e =>
        e = (if decide (field ∈ schema) then AttributeError else KeyError)
        ∧ ∃ s, dataset !! k = Some s
               ∧ export_sample schema field s = Raise e
    end.
Proof.
  intros schema out k. subst schema out k. unfold export.
  by apply (export_samples_prefix declared dataset field dataset).
Qed.

End ExportNames.

(** *** The theorems above on concrete inputs *)

Section MoreExamples.
Import Py Re Pathlib Datetime Fo ImportDataset RunMediapipe CustomExport.
Import CreateDataset Fixtures Scenarios Vocabulary.

Lemma create_dataset_sorts_stably_witness :
  ∃ ds video_fps,
    create_dataset id no_metadata globbed = Ok ds
    ∧ map (λ t, filepath (sample t)) ds = map id video_fps
    ∧ video_fps ≡ₚ globbed
    ∧ map (λ t, filepath (sample t)) ds
      = [ "/data/train/2023-05-01_a2_perf_split3.mp4"%string;
          "/data/train/2023-05-01_a2_warmup_split3.mp4"%string;
          "/data/test/2023-05-02_a1_perf_split1.mp4"%string ].
Proof.
  destruct (create_dataset id no_metadata globbed) as [ds|e] eqn:Hds;
    [|by vm_compute in Hds].
  destruct (create_dataset_sorts_stably id no_metadata globbed ds Hds)
    as (video_fps & keys & Hpaths & Hperm & _).
  exists ds, video_fps. split; [reflexivity|]. split; [exact Hpaths|].
  split; [exact Hperm|].
  vm_compute in Hds. injection Hds as <-. reflexivity.
Defined.

Lemma create_dataset_tags_by_substring_witness :
  ∃ ds t video_fp,
    create_dataset id no_metadata globbed = Ok ds
    ∧ ds !! 2%nat = Some t
    ∧ filepath (sample t) = video_fp
    ∧ video_fp = "/data/test/2023-05-02_a1_perf_split1.mp4"%string
    ∧ tags t = ["test"%string].
Proof.
  destruct (create_dataset id no_metadata globbed) as [ds|e] eqn:Hds;
    [|by vm_compute in Hds].
  destruct (ds !! 2%nat) as [t|] eqn:Ht;
    [|vm_compute in Hds; injection Hds as <-; discriminate Ht].
  destruct (create_dataset_tags_by_substring id no_metadata globbed ds t Hds)
    as (video_fp & _ & Hpath & Htag).
  - by eapply list_elem_of_lookup_2.
  - exists ds, t, video_fp. split; [reflexivity|]. split; [exact Ht|].
    split; [exact Hpath|].
    vm_compute in Hds. injection Hds as <-. injection Ht as <-.
    cbn in Hpath. subst video_fp. split; [reflexivity|reflexivity].
Defined.

Lemma main_does_not_repair_witness :
  let out := main id no_metadata globbed [] ∅ "rach3" false in
  snd out = Some AssertionError
  ∧ is_Some (fst out !! "rach3"%string)
  ∧ main id no_metadata globbed keyboard_file (fst out) "rach3" false
    = (fst out, None).
Proof.
  cbv zeta.
  destruct (create_dataset id no_metadata globbed) as [ds|e] eqn:Hds;
    [|by vm_compute in Hds].
  destruct (main_does_not_repair id no_metadata globbed [] ∅ "rach3" false
              ds Hds) as [Hsome Hrerun].
  split; [by vm_compute|]. split; [exact Hsome|].
  exact (Hrerun globbed keyboard_file).
Defined.

Lemma main_overwrite_deletes_first_witness :
  let out := main id no_metadata ["/data/train/rehearsal.mp4"%string]
               keyboard_file {[ "rach3"%string := [] ]} "rach3" true in
  snd out = Some ValueError ∧ fst out !! "rach3"%string = None.
Proof.
  cbv zeta.
  rewrite (main_overwrite_deletes_first id no_metadata
             ["/data/train/rehearsal.mp4"%string] keyboard_file
             {[ "rach3"%string := [] ]} "rach3").
  - split; [reflexivity|]. apply lookup_delete_eq.
  - left. reflexivity.
Defined.

Lemma sort_key_ignores_directory_witness :
  sort_key "/data/train/2023-05-01_a2_perf_split3.mp4"
  = sort_key "2023-05-01_a2_perf_split3.mp4".
Proof.
  apply (sort_key_ignores_directory
           "/data/train/2023-05-01_a2_perf_split3.mp4"
           (chars "/data/train") (chars "2023-05-01_a2_perf_split3.mp4")).
  - apply (bool_decide_unpack _). by vm_compute.
  - discriminate.
  - discriminate.
  - reflexivity.
Defined.

Lemma export_names_come_from_stems_witness :
  ∃ path dump1 dump2,
    export ∅ "hand_landmarker_mp"
      [filed_under "/data/train"; filed_under "/data/test"]
    = ([(path, dump1); (path, dump2)], None)
    ∧ path = "2023-05-01_a2_perf_split3.json"%string.
Proof.
  destruct (export_names_come_from_stems ∅ ∅ "hand_landmarker_mp"
              (filed_under "/data/train") (filed_under "/data/test")
              (chars "/data/train") (chars "/data/test")
              (chars "2023-05-01_a2_perf_split3.mp4")
              {| filename := "2023-05-01_a2_perf_split3.mp4"; frames := [] |}
              {| filename := "2023-05-01_a2_perf_split3.mp4"; frames := [] |})
    as (path & Hexp & _).
  - apply (bool_decide_unpack _). by vm_compute.
  - discriminate.
  - discriminate.
  - reflexivity.
  - reflexivity.
  - reflexivity.
  - reflexivity.
  - eexists path, _, _. split; [exact Hexp|].
    vm_compute in Hexp. by injection Hexp as <-.
Defined.




Lemma keyboard_pass_keeps_other_fields_witness :
  ∃ sample',
    add_keyboard_bboxes_sample ∅ keyboard_file "keyboard" annotated_sample
    = Ok sample'
    ∧ frames_lookup 2 (Fo.frames sample') ≫= (.!! "hand_landmarker_mp"%string)
      = Some (Keypoints [])
    ∧ fields sample' !! "session"%string = Some "2023-05-01_a2"%string.
Proof.
  destruct (add_keyboard_bboxes_sample ∅ keyboard_file "keyboard"
              annotated_sample) as [sample'|e] eqn:Hrun;
    [|by vm_compute in Hrun].
  exists sample'. split; [reflexivity|].
  destruct (keyboard_pass_keeps_other_fields ∅ keyboard_file "keyboard"
              annotated_sample sample')
    as (_ & _ & Hfields & _ & Hother).
  - cbn. repeat constructor; lia.
  - exact Hrun.
  - rewrite Hfields, Hother by done. split; reflexivity.
Defined.

Lemma keyboard_pass_idempotent_witness :
  ∃ sample',
    add_keyboard_bboxes_sample ∅ keyboard_file "keyboard" annotated_sample
    = Ok sample'
    ∧ add_keyboard_bboxes_sample ∅ keyboard_file "keyboard" sample'
      = Ok sample'.
Proof.
  destruct (add_keyboard_bboxes_sample ∅ keyboard_file "keyboard"
              annotated_sample) as [sample'|e] eqn:Hrun;
    [|by vm_compute in Hrun].
  exists sample'. split; [reflexivity|].
  apply (keyboard_pass_idempotent ∅ keyboard_file "keyboard"
           annotated_sample sample').
  - cbn. repeat constructor; lia.
  - exact Hrun.
Defined.


Lemma export_reads_one_field_witness :
  ∃ sample',
    add_keyboard_bboxes_sample ∅ keyboard_file "keyboard" annotated_sample
    = Ok sample'
    ∧ export_sample ∅ "hand_landmarker_mp" sample'
      = export_sample ∅ "hand_landmarker_mp" annotated_sample.
Proof.
  destruct (add_keyboard_bboxes_sample ∅ keyboard_file "keyboard"
              annotated_sample) as [sample'|e] eqn:Hrun;
    [|by vm_compute in Hrun].
  exists sample'. split; [reflexivity|].
  vm_compute in Hrun. injection Hrun as <-.
  apply (export_reads_one_field ∅ "hand_landmarker_mp" annotated_sample).
  - reflexivity.
  - repeat constructor.
Defined.

End MoreExamples.
